(** * The session-multiplexing process gateway of excel-mcp-server

    A shallow embedding of [src/src/excel_mcp/proxy_server.py]: the
    [StdioSubprocessManager] registry (three dictionaries keyed by session
    id), the idle reaper, and the unary, streaming and WebSocket handlers.

    Python objects with identity ([subprocess.Popen], [threading.Lock]) are
    numbered in creation order.  Everything the operating system or a worker
    decides (whether [Popen] starts, what a pipe read returns, whether
    [wait] times out, what [time.time()] shows) is an argument of the
    operation that asks for it; every such call is appended to a log, so a
    theorem can say which calls were made and in which order. *)

From Stdlib Require Import ZArith String Ascii List Lia.
From stdpp Require Import base decidable option list strings pretty gmap.

Local Open Scope string_scope.
Local Open Scope list_scope.

(** ** Values *)

(** Python [bytes] and UTF-8 text are both kept as strings of 8-bit
    characters: a [str] is represented by its UTF-8 encoding. *)
Abbreviation bytes := string (only parsing).

(** A [subprocess.Popen] object and a [threading.Lock] object, by creation
    number.  Values of [time.time()] are kept as integers, in the unit of
    the idle timeout. *)
Abbreviation Pid := nat (only parsing).
Abbreviation LockId := nat (only parsing).

(** Exceptions, all of them subclasses of Python's [Exception], which is
    what the handlers catch.  [Error] stands for every class the source
    does not name ([BrokenPipeError], [OSError], [UnicodeDecodeError],
    [WebSocketDisconnect], ...); [msg] is what [str(e)] gives. *)
Inductive exn : Type :=
| TimeoutExpired (msg : string)
| JSONDecodeError (msg : string)
| HTTPException (status_code : Z) (detail : string)
| Error (msg : string).

Inductive Result (A : Type) : Type :=
| Ok (a : A)
| Raise (e : exn).
Arguments Ok {A} a.
Arguments Raise {A} e.

(** Calls that leave the interpreter, in the order they are made. *)
Inductive Event : Type :=
| EvPopen (files_path : string) (started : option Pid)
| EvTerminate (p : Pid)
| EvWait (p : Pid) (timeout : Z)
| EvKill (p : Pid)
| EvWrite (p : Pid) (data : bytes)
| EvFlush (p : Pid)
| EvReadline (p : Pid)
| EvAcquire (l : LockId)
| EvRelease (l : LockId)
| EvYield (chunk : bytes)
| EvWsSend (frame : bytes)
| EvCancelCleanupTask.

(** ** The manager's state *)

(** The fields of [StdioSubprocessManager] ([__init__], lines 32-38), the
    allocation counters for [Popen] and [Lock] objects, and the call log. *)
Record World : Type := mkWorld {
  processes : gmap string Pid;
  process_locks : gmap string LockId;
  last_activity : gmap string Z;
  excel_files_path : string;
  cleanup_task : bool;
  next_pid : nat;
  next_lock : nat;
  trace : list Event
}.

(** [self.idle_timeout = 300]; assigned in [__init__] and nowhere else. *)
Definition idle_timeout : Z := 300.

(** [StdioSubprocessManager(excel_files_path)]. *)
Definition new_manager (path : string) : World :=
  mkWorld ∅ ∅ ∅ path false 0 0 [].

Definition set_processes (f : gmap string Pid → gmap string Pid) (w : World) : World :=
  mkWorld (f (processes w)) (process_locks w) (last_activity w)
          (excel_files_path w) (cleanup_task w) (next_pid w) (next_lock w) (trace w).

Definition set_process_locks (f : gmap string LockId → gmap string LockId) (w : World) : World :=
  mkWorld (processes w) (f (process_locks w)) (last_activity w)
          (excel_files_path w) (cleanup_task w) (next_pid w) (next_lock w) (trace w).

Definition set_last_activity (f : gmap string Z → gmap string Z) (w : World) : World :=
  mkWorld (processes w) (process_locks w) (f (last_activity w))
          (excel_files_path w) (cleanup_task w) (next_pid w) (next_lock w) (trace w).

Definition set_cleanup_task (b : bool) (w : World) : World :=
  mkWorld (processes w) (process_locks w) (last_activity w)
          (excel_files_path w) b (next_pid w) (next_lock w) (trace w).

Definition alloc_pid (w : World) : World :=
  mkWorld (processes w) (process_locks w) (last_activity w)
          (excel_files_path w) (cleanup_task w) (S (next_pid w)) (next_lock w) (trace w).

Definition alloc_lock (w : World) : World :=
  mkWorld (processes w) (process_locks w) (last_activity w)
          (excel_files_path w) (cleanup_task w) (next_pid w) (S (next_lock w)) (trace w).

Definition add_event (e : Event) (w : World) : World :=
  mkWorld (processes w) (process_locks w) (last_activity w)
          (excel_files_path w) (cleanup_task w) (next_pid w) (next_lock w) (trace w ++ [e]).

(** ** A state and exception monad for the methods *)

Definition M (A : Type) : Type := World → Result A * World.

Definition ret {A} (a : A) : M A := fun w => (Ok a, w).

Definition raise {A} (e : exn) : M A := fun w => (Raise e, w).

Definition bind {A B} (c : M A) (k : A → M B) : M B :=
  fun w => match c w with
           | (Ok a, w') => k a w'
           | (Raise e, w') => (Raise e, w')
           end.

Declare Scope py_scope.
Delimit Scope py_scope with py.
Notation "'let*' x ':=' c 'in' k" := (bind c (fun x => k))
  (at level 10, x pattern, c at level 100, k at level 200) : py_scope.
Notation "c ';;' k" := (bind c (fun _ => k))
  (at level 100, k at level 200, right associativity) : py_scope.
Local Open Scope py_scope.

Definition lift {A} (r : Result A) : M A := fun w => (r, w).

Definition gets {A} (f : World → A) : M A := fun w => (Ok (f w), w).

Definition modify (f : World → World) : M unit := fun w => (Ok tt, f w).

(** [try: c  except Exception as e: h e]. *)
Definition try_except {A} (c : M A) (h : exn → M A) : M A :=
  fun w => match c w with
           | (Ok a, w') => (Ok a, w')
           | (Raise e, w') => h e w'
           end.

(** A call into the environment: logged, then it returns or raises as the
    environment decides. *)
Definition call (e : Event) (outcome : option exn) : M unit :=
  modify (add_event e) ;;
  match outcome with
  | None => ret tt
  | Some x => raise x
  end.

(** [with lock: c]: the lock is released on every way out of the block. *)
Definition with_lock {A} (l : LockId) (c : M A) : M A :=
  modify (add_event (EvAcquire l)) ;;
  fun w => let '(r, w') := c w in (r, add_event (EvRelease l) w').

(** [for x in xs: body x]. *)
Fixpoint for_each {A} (xs : list A) (body : A → M unit) : M unit :=
  match xs with
  | [] => ret tt
  | x :: rest => body x ;; for_each rest body
  end.

(** ** What the operating system answers *)

(** How one process reacts to being shut down: what [terminate()],
    [wait(timeout=5)] and [kill()] do when called ([None]: the call
    returns; [Some e]: it raises [e], [TimeoutExpired] being the case of a
    process that is still alive after the grace period). *)
Record Shutdown : Type := mkShutdown {
  on_terminate : option exn;
  on_wait : option exn;
  on_kill : option exn
}.

(** ** StdioSubprocessManager *)

(** [get_or_create_process] (lines 58-87).  [now] is the value of the one
    [time.time()] call the method makes, [launch] is what [Popen] does
    ([None]: the process starts). *)
Definition get_or_create_process (now : Z) (launch : option exn)
    (session_id : string) : M Pid :=
  let* registered := gets (fun w => processes w !! session_id) in
  match registered with
  | Some process =>
      modify (set_last_activity <[session_id := now]>) ;;
      ret process
  | None =>
      let* path := gets excel_files_path in
      match launch with
      | Some e =>
          modify (add_event (EvPopen path None)) ;;
          raise e
      | None =>
          let* process := gets next_pid in
          modify alloc_pid ;;
          modify (add_event (EvPopen path (Some process))) ;;
          modify (set_processes <[session_id := process]>) ;;
          let* lock := gets next_lock in
          modify alloc_lock ;;
          modify (set_process_locks <[session_id := lock]>) ;;
          modify (set_last_activity <[session_id := now]>) ;;
          ret process
      end
  end.

(** [get_process_lock] (lines 89-93). *)
Definition get_process_lock (session_id : string) : M LockId :=
  let* present := gets (fun w => process_locks w !! session_id) in
  match present with
  | Some lock => ret lock
  | None =>
      let* lock := gets next_lock in
      modify alloc_lock ;;
      modify (set_process_locks <[session_id := lock]>) ;;
      ret lock
  end.

(** The body of the [try] of [terminate_process] (lines 99-108). *)
Definition shutdown_process (os : Pid → Shutdown) (process : Pid) : M unit :=
  call (EvTerminate process) (on_terminate (os process)) ;;
  try_except
    (call (EvWait process 5) (on_wait (os process)))
    (fun e => match e with
              | TimeoutExpired _ => call (EvKill process) (on_kill (os process))
              | _ => raise e
              end).

(** [terminate_process] (lines 95-115). *)
Definition terminate_process (os : Pid → Shutdown) (session_id : string) : M unit :=
  let* registered := gets (fun w => processes w !! session_id) in
  match registered with
  | Some process =>
      try_except (shutdown_process os process) (fun _ => ret tt) ;;
      modify (set_processes (delete session_id)) ;;
      modify (set_process_locks (delete session_id)) ;;
      modify (set_last_activity (delete session_id))
  | None => ret tt
  end.

(** [cleanup_idle_processes] (lines 50-56).  The loop runs over a copy of
    the dictionary's items taken before the first iteration; the copy
    lists them in the map's order of keys, where Python lists them in
    order of insertion.  A turn of the loop touches the entries and the
    process of its own session only. *)
Definition cleanup_idle_processes (os : Pid → Shutdown) (current_time : Z) : M unit :=
  let* items := gets (fun w => map_to_list (last_activity w)) in
  for_each items (fun '(session_id, last_time) =>
    if decide (current_time - last_time > idle_timeout)%Z
    then terminate_process os session_id
    else ret tt).

(** [start_cleanup_task] (lines 40-48): stores the task that runs
    [cleanup_idle_processes] once a minute. *)
Definition start_cleanup_task : M unit := modify (set_cleanup_task true).

(** [terminate_all] (lines 117-123). *)
Definition terminate_all (os : Pid → Shutdown) : M unit :=
  let* keys := gets (fun w => (map_to_list (processes w)).*1) in
  for_each keys (terminate_process os) ;;
  let* task := gets cleanup_task in
  if task then modify (add_event EvCancelCleanupTask) else ret tt.

(** ** The Python library the handlers call *)

(** [json] and the exception classes' [__str__] belong to CPython and
    Starlette, not to this repository: the handlers are written against
    this interface.  [json_loads] gives the parsed value, or raises
    [JSONDecodeError], or raises something else ([RecursionError] on deep
    nesting, ...). *)
Class PyRuntime : Type := {
  json_value : Type;
  json_loads : string → Result json_value;
  json_dumps : json_value → string;
  str_HTTPException : Z → string → string;
  str_UnicodeDecodeError : bytes → string
}.

(** [str(e)]. *)
Definition str_exn `{PyRuntime} (e : exn) : string :=
  match e with
  | TimeoutExpired msg => msg
  | JSONDecodeError msg => msg
  | HTTPException status_code detail => str_HTTPException status_code detail
  | Error msg => msg
  end.

Definition byte_in (lo hi : nat) (c : ascii) : bool :=
  (lo <=? nat_of_ascii c)%nat && (nat_of_ascii c <=? hi)%nat.

Definition utf8_tail (c : ascii) : bool := byte_in 128 191 c.

(** Well-formed UTF-8 (Unicode, table 3-7): no overlong form, no
    surrogate, nothing above U+10FFFF; what [bytes.decode("utf-8")]
    accepts. *)
Fixpoint utf8_valid (s : string) : bool :=
  match s with
  | EmptyString => true
  | String b0 s1 =>
      if byte_in 0 127 b0 then utf8_valid s1
      else if byte_in 194 223 b0 then
        match s1 with
        | String b1 s2 => utf8_tail b1 && utf8_valid s2
        | _ => false
        end
      else if byte_in 224 239 b0 then
        match s1 with
        | String b1 (String b2 s3) =>
            (if byte_in 224 224 b0 then byte_in 160 191 b1
             else if byte_in 237 237 b0 then byte_in 128 159 b1
             else utf8_tail b1)
            && utf8_tail b2 && utf8_valid s3
        | _ => false
        end
      else if byte_in 240 244 b0 then
        match s1 with
        | String b1 (String b2 (String b3 s4)) =>
            (if byte_in 240 240 b0 then byte_in 144 191 b1
             else if byte_in 244 244 b0 then byte_in 128 143 b1
             else utf8_tail b1)
            && utf8_tail b2 && utf8_tail b3 && utf8_valid s4
        | _ => false
        end
      else false
  end.

(** [line.decode("utf-8")]. *)
Definition decode_utf8 `{PyRuntime} (line : bytes) : Result string :=
  if utf8_valid line then Ok line
  else Raise (Error (str_UnicodeDecodeError line)).

(** ** Pipes *)

Definition stdin_write (process : Pid) (data : bytes) (outcome : option exn) : M unit :=
  call (EvWrite process data) outcome.

Definition stdin_flush (process : Pid) (outcome : option exn) : M unit :=
  call (EvFlush process) outcome.

Definition stdout_readline (process : Pid) (outcome : Result bytes) : M bytes :=
  modify (add_event (EvReadline process)) ;;
  match outcome with
  | Ok line => ret line
  | Raise e => raise e
  end.

Definition newline : string := String (ascii_of_nat 10) EmptyString.

(** ** The unary handler *)

(** What the worker's pipes do during one unary exchange. *)
Record UnaryIO : Type := mkUnaryIO {
  on_write : option exn;
  on_flush : option exn;
  on_readline : Result bytes
}.

(** A [fastapi.Response]: the constructor's arguments, [status_code]
    defaulting to 200. *)
Record Response : Type := mkResponse {
  status : Z;
  content : bytes;
  media_type : option string;
  headers : list (string * string)
}.

(** The inner [try] of [handle_request] (lines 183-201): the response
    for a worker's line that is not empty.  It touches no state. *)
Definition response_for `{PyRuntime} (session_id : string)
    (response_line : bytes) : Result Response :=
  let attempt :=
    match decode_utf8 response_line with
    | Ok text =>
        match json_loads text with
        | Ok parsed_response =>
            Ok (mkResponse 200 (json_dumps parsed_response)
                  (Some "application/json") [("X-Session-ID", session_id)])
        | Raise e => Raise e
        end
    | Raise e => Raise e
    end in
  match attempt with
  | Raise (JSONDecodeError _) =>
      Ok (mkResponse 200 response_line None [("X-Session-ID", session_id)])
  | _ => attempt
  end.

(** The outer [try] of [handle_request] (lines 167-206): one exchange
    with the worker under its lock, and the handler of what it raises. *)
Definition exchange `{PyRuntime} (os : Pid → Shutdown) (session_id : string)
    (process : Pid) (process_lock : LockId) (body : bytes) (io : UnaryIO)
    : M Response :=
  try_except
    (with_lock process_lock
       (stdin_write process (body +:+ newline) (on_write io) ;;
        stdin_flush process (on_flush io) ;;
        let* response_line := stdout_readline process (on_readline io) in
        if decide (response_line = "") then
          terminate_process os session_id ;;
          raise (HTTPException 500 "Subprocess terminated unexpectedly")
        else lift (response_for session_id response_line)))
    (fun e =>
       terminate_process os session_id ;;
       raise (HTTPException 500 ("Error processing request: " +:+ str_exn e))).

(** [handle_request] (lines 154-206).  [header] is the request's
    [X-Session-ID] header if it has one, [uuid] the value of
    [str(uuid.uuid4())]. *)
Definition handle_request `{PyRuntime} (os : Pid → Shutdown)
    (header : option string) (uuid : string) (body : bytes)
    (now : Z) (launch : option exn) (io : UnaryIO) : M Response :=
  let session_id := default uuid header in
  let* process := get_or_create_process now launch session_id in
  let* process_lock := get_process_lock session_id in
  exchange os session_id process process_lock body io.

(** The status line the client sees: the response's own, the status of an
    [HTTPException], and 500 for any other exception that leaves the
    handler. *)
Definition client_status (r : Result Response) : Z :=
  match r with
  | Ok resp => status resp
  | Raise (HTTPException status_code _) => status_code
  | Raise _ => 500
  end.

(** ** The stream handler *)

(** What the worker's pipes do during one streamed exchange: the lines it
    writes, each with the value [time.time()] has when the line has been
    read, and how the read after the last line ends ([None]: the empty
    read; [Some e]: it raises). *)
Record StreamIO : Type := mkStreamIO {
  s_on_write : option exn;
  s_on_flush : option exn;
  s_lines : list (bytes * Z);
  s_ending : option exn
}.

(** The [while True] loop of [response_generator] (lines 290-300). *)
Fixpoint read_lines (session_id : string) (process : Pid)
    (lines : list (bytes * Z)) (ending : option exn) : M unit :=
  match lines with
  | [] =>
      let* response_line :=
        stdout_readline process
          (match ending with None => Ok "" | Some e => Raise e end) in
      ret tt
  | (line, now) :: rest =>
      let* response_line := stdout_readline process (Ok line) in
      if decide (response_line = "") then ret tt
      else
        modify (set_last_activity <[session_id := now]>) ;;
        modify (add_event (EvYield response_line)) ;;
        read_lines session_id process rest ending
  end.

(** [response_generator] (lines 281-305), run until it is exhausted. *)
Definition response_generator `{PyRuntime} (os : Pid → Shutdown)
    (session_id : string) (process : Pid) (process_lock : LockId)
    (body : bytes) (io : StreamIO) : M unit :=
  try_except
    (with_lock process_lock
       (stdin_write process (body +:+ newline) (s_on_write io) ;;
        stdin_flush process (s_on_flush io) ;;
        read_lines session_id process (s_lines io) (s_ending io)))
    (fun e =>
       terminate_process os session_id ;;
       modify (add_event (EvYield ("Error: " +:+ str_exn e)))).

(** A [StreamingResponse]: its generator, still to be run, and the
    constructor's other arguments. *)
Record StreamingResponse : Type := mkStreamingResponse {
  stream_status : Z;
  stream_media_type : string;
  stream_headers : list (string * string);
  stream_generator : StreamIO → M unit
}.

(** [handle_stream_request] (lines 267-312). *)
Definition handle_stream_request `{PyRuntime} (os : Pid → Shutdown)
    (header : option string) (uuid : string) (body : bytes)
    (now : Z) (launch : option exn) : M StreamingResponse :=
  let session_id := default uuid header in
  let* process := get_or_create_process now launch session_id in
  let* process_lock := get_process_lock session_id in
  ret (mkStreamingResponse 200 "application/jsonl"
         [("X-Session-ID", session_id)]
         (response_generator os session_id process process_lock body)).

(** The request served to the end: the handler, then the generator run to
    exhaustion by the server. *)
Definition serve_stream `{PyRuntime} (os : Pid → Shutdown)
    (header : option string) (uuid : string) (body : bytes)
    (now : Z) (launch : option exn) (io : StreamIO) : M StreamingResponse :=
  let* response := handle_stream_request os header uuid body now launch in
  stream_generator response io ;;
  ret response.

(** The chunks of a streamed body, read off the log. *)
Definition chunks_of (events : list Event) : list bytes :=
  omap (fun e => match e with EvYield chunk => Some chunk | _ => None end) events.

(** ** The WebSocket handler *)

(** What [websocket_endpoint] keeps in local variables for the lifetime of
    one connection. *)
Record WsConn : Type := mkWsConn {
  ws_session_id : string;
  ws_process : Pid;
  ws_process_lock : LockId
}.

(** Lines 212-219: the connection is accepted and gets a worker of its
    own under a generated session id. *)
Definition ws_accept (uuid : string) (now : Z) (launch : option exn) : M WsConn :=
  let session_id := uuid in
  let* process := get_or_create_process now launch session_id in
  let* process_lock := get_process_lock session_id in
  ret (mkWsConn session_id process process_lock).

(** One turn of the receive loop (lines 243-252), for a frame [data] that
    arrived at time [now].  It raises when the loop is left. *)
Definition ws_on_message (c : WsConn) (data : bytes) (now : Z)
    (write flush : option exn) : M unit :=
  modify (set_last_activity <[ws_session_id c := now]>) ;;
  with_lock (ws_process_lock c)
    (stdin_write (ws_process c) (data +:+ newline) write ;;
     stdin_flush (ws_process c) flush).

(** One turn of [read_subprocess_output] (lines 224-234), the background
    task: a line of the worker's output is forwarded to the client.  The
    task ends on an empty read. *)
Definition ws_on_output (c : WsConn) (line : bytes) (now : Z) : M unit :=
  let* response_line := stdout_readline (ws_process c) (Ok line) in
  if decide (response_line = "") then ret tt
  else
    modify (set_last_activity <[ws_session_id c := now]>) ;;
    modify (add_event (EvWsSend response_line)).

(** The [finally] blocks (lines 255-264), reached when the client
    disconnects or a turn of the receive loop raises: the reader task is
    cancelled, then the worker is shut down. *)
Definition ws_teardown (os : Pid → Shutdown) (c : WsConn) : M unit :=
  terminate_process os (ws_session_id c).

(** ** Sequences of manager calls *)

Inductive Op : Type :=
| OpGetOrCreateProcess (session_id : string) (now : Z) (launch : option exn)
| OpGetProcessLock (session_id : string)
| OpTerminateProcess (session_id : string)
| OpCleanupIdleProcesses (now : Z)
| OpTerminateAll.

Definition run_op (os : Pid → Shutdown) (o : Op) : M unit :=
  match o with
  | OpGetOrCreateProcess session_id now launch =>
      get_or_create_process now launch session_id ;; ret tt
  | OpGetProcessLock session_id => get_process_lock session_id ;; ret tt
  | OpTerminateProcess session_id => terminate_process os session_id
  | OpCleanupIdleProcesses now => cleanup_idle_processes os now
  | OpTerminateAll => terminate_all os
  end.

(** The manager after a sequence of calls; a call that raises (a failed
    [Popen]) leaves the manager to the next call as it is. *)
Fixpoint run_ops (os : Pid → Shutdown) (ops : list Op) (w : World) : World :=
  match ops with
  | [] => w
  | o :: rest => run_ops os rest (run_op os o w).2
  end.

(** The worlds a manager can be in: a new manager, after any calls. *)
Definition reachable (w : World) : Prop :=
  ∃ os path ops, w = run_ops os ops (new_manager path).

(** No [Popen] object is registered before it is created, and none is
    registered under two session ids. *)
Definition pids_allocated (w : World) : Prop :=
  ∀ session_id p, processes w !! session_id = Some p → (p < next_pid w)%nat.

Definition one_session_per_process (w : World) : Prop :=
  ∀ s1 s2 p, processes w !! s1 = Some p → processes w !! s2 = Some p → s1 = s2.

Definition locks_allocated (w : World) : Prop :=
  ∀ session_id l, process_locks w !! session_id = Some l → (l < next_lock w)%nat.

Definition registry_ok (w : World) : Prop :=
  pids_allocated w ∧ one_session_per_process w ∧ locks_allocated w.

(** The process, if any, that a logged call is made on. *)
Definition event_pid (e : Event) : option Pid :=
  match e with
  | EvPopen _ started => started
  | EvTerminate p | EvWait p _ | EvKill p | EvWrite p _ | EvFlush p | EvReadline p => Some p
  | _ => None
  end.

(** ** A small instance of the library *)

Definition json_space (c : ascii) : bool :=
  byte_in 32 32 c || byte_in 9 9 c || byte_in 10 10 c || byte_in 13 13 c.

Fixpoint lstrip (s : string) : string :=
  match s with
  | String c rest => if json_space c then lstrip rest else s
  | EmptyString => EmptyString
  end.

Definition strip (s : string) : string :=
  String.rev (lstrip (String.rev (lstrip s))).

Definition digit (c : ascii) : option Z :=
  if byte_in 48 57 c then Some (Z.of_nat (nat_of_ascii c) - 48)%Z else None.

Fixpoint digits (acc : Z) (s : string) : option Z :=
  match s with
  | EmptyString => Some acc
  | String c rest =>
      match digit c with
      | Some d => digits (10 * acc + d)%Z rest
      | None => None
      end
  end.

(** JSON's [int] production: [0], or a digit from 1 to 9 followed by
    digits. *)
Definition json_natural (s : string) : option Z :=
  match s with
  | EmptyString => None
  | String c rest =>
      if byte_in 48 48 c then
        match rest with EmptyString => Some 0%Z | _ => None end
      else digits 0 s
  end.

Definition json_integer (s : string) : option Z :=
  match s with
  | String c rest =>
      if byte_in 45 45 c then Z.opp <$> json_natural rest else json_natural s
  | EmptyString => None
  end.

(** CPython's [json] on the documents that are one integer between
    optional white space ([json.loads] gives the [int], [json.dumps]
    prints it in decimal), and Starlette's [HTTPException.__str__].  Any
    other text is answered with [JSONDecodeError]; that is what CPython
    does for a text that is not JSON, and it is not what CPython does
    for JSON of another shape, which the examples below never parse. *)
#[local] Instance integer_json : PyRuntime := {
  json_value := Z;
  json_loads text :=
    match json_integer (strip text) with
    | Some n => Ok n
    | None => Raise (JSONDecodeError "Expecting value")
    end;
  json_dumps n := pretty n;
  str_HTTPException status_code detail := pretty status_code +:+ ": " +:+ detail;
  str_UnicodeDecodeError _ := "'utf-8' codec can't decode byte"
}.

(** A process that exits on [terminate()]. *)
Definition obedient : Pid → Shutdown := fun _ => mkShutdown None None None.

(** A process that ignores [terminate()] and has to be killed. *)
Definition stubborn : Pid → Shutdown :=
  fun _ => mkShutdown None (Some (TimeoutExpired "timed out after 5 seconds")) None.

(** A WebSocket connection opened at time 0 on a new manager, and the
    manager after its opening. *)
Definition ws_conn : WsConn := mkWsConn "ws-1" 0 0.

Definition ws_world : World :=
  (ws_accept "ws-1" 0 None (new_manager "/data")).2.

(** A manager with two sessions, last active at times 0 and 200. *)
Definition two_sessions : World :=
  run_ops obedient
    [OpGetOrCreateProcess "old" 0 None; OpGetOrCreateProcess "new" 200 None]
    (new_manager "/data").


(** ** Requests served concurrently *)

(** The handlers interleaved: every call on a pipe, every lock operation
    and every call of a manager method is one step of its own, and the
    steps of different requests and of the reaper alternate in any order.
    The manager's methods contain no [await], so each runs as one step;
    [get_or_create_process] and [get_process_lock] are called back to back
    with no [await] between them (lines 164-165 and 277-278) and form one
    step too.  [Lock.acquire] is the step that needs the lock free. *)

Inductive Kind : Type := Unary | Stream.

(** Where a request is inside the [with process_lock] block; [Leaving]
    is the way out, with the exception that is being raised if there is
    one. *)
Inductive Stage : Type :=
| BeforeWrite
| BeforeFlush
| Reading
| Leaving (raised : option exn).

Inductive Pc : Type :=
| Arrived
| Resolved (process : Pid) (lock : LockId)
| Holding (process : Pid) (lock : LockId) (stage : Stage)
| Handling (e : exn)
| Finished.

Record Request : Type := mkRequest {
  kind : Kind;
  session : string;
  body_of : bytes;
  pc : Pc
}.

Definition at_pc (r : Request) (pc' : Pc) : Request :=
  mkRequest (kind r) (session r) (body_of r) pc'.

(** The server: the manager, which request holds which lock, the requests
    in order of arrival (a request is named by its position), and, newest
    first, which request touched which worker's pipes. *)
Record Config : Type := mkConfig {
  world : World;
  held : gmap LockId nat;
  requests : list Request;
  pipe_log : list (nat * Pid)
}.

Definition initial (path : string) : Config :=
  mkConfig (new_manager path) ∅ [] [].

(** Lines 164-165 and 277-278. *)
Definition resolve (now : Z) (launch : option exn) (session_id : string)
    : M (Pid * LockId) :=
  let* process := get_or_create_process now launch session_id in
  let* process_lock := get_process_lock session_id in
  ret (process, process_lock).

(** What follows a [readline] inside the block: lines 177-180 and the
    return for the unary handler, lines 293-300 for the stream. *)
Definition after_read `{PyRuntime} (os : Pid → Shutdown) (r : Request)
    (outcome : Result bytes) (now : Z) (w : World) : World * Stage :=
  match outcome with
  | Raise e => (w, Leaving (Some e))
  | Ok line =>
      match kind r with
      | Unary =>
          if decide (line = "") then
            ((terminate_process os (session r) w).2,
             Leaving (Some (HTTPException 500 "Subprocess terminated unexpectedly")))
          else
            match response_for (session r) line with
            | Ok _ => (w, Leaving None)
            | Raise e => (w, Leaving (Some e))
            end
      | Stream =>
          if decide (line = "") then (w, Leaving None)
          else (add_event (EvYield line)
                  (set_last_activity <[session r := now]> w), Reading)
      end
  end.

(** The [except Exception] blocks: lines 202-206 and 301-305. *)
Definition handle_exception `{PyRuntime} (os : Pid → Shutdown) (r : Request)
    (e : exn) : M unit :=
  terminate_process os (session r) ;;
  match kind r with
  | Unary => ret tt
  | Stream => modify (add_event (EvYield ("Error: " +:+ str_exn e)))
  end.

Inductive step `{PyRuntime} (os : Pid → Shutdown) : Config → Config → Prop :=
| step_arrive c k session_id body :
    step os c
      (mkConfig (world c) (held c)
         (requests c ++ [mkRequest k session_id body Arrived]) (pipe_log c))
| step_resolve c t r now launch res w' :
    requests c !! t = Some r →
    pc r = Arrived →
    resolve now launch (session r) (world c) = (res, w') →
    step os c
      (mkConfig w' (held c)
         (<[t := at_pc r (match res with
                          | Ok (p, l) => Resolved p l
                          | Raise _ => Finished
                          end)]> (requests c))
         (pipe_log c))
| step_acquire c t r p l :
    requests c !! t = Some r →
    pc r = Resolved p l →
    held c !! l = None →
    step os c
      (mkConfig (add_event (EvAcquire l) (world c)) (<[l := t]> (held c))
         (<[t := at_pc r (Holding p l BeforeWrite)]> (requests c))
         (pipe_log c))
| step_write c t r p l outcome :
    requests c !! t = Some r →
    pc r = Holding p l BeforeWrite →
    step os c
      (mkConfig (stdin_write p (body_of r +:+ newline) outcome (world c)).2
         (held c)
         (<[t := at_pc r (Holding p l
                            (match outcome with
                             | None => BeforeFlush
                             | Some e => Leaving (Some e)
                             end))]> (requests c))
         ((t, p) :: pipe_log c))
| step_flush c t r p l outcome :
    requests c !! t = Some r →
    pc r = Holding p l BeforeFlush →
    step os c
      (mkConfig (stdin_flush p outcome (world c)).2 (held c)
         (<[t := at_pc r (Holding p l
                            (match outcome with
                             | None => Reading
                             | Some e => Leaving (Some e)
                             end))]> (requests c))
         ((t, p) :: pipe_log c))
| step_read c t r p l outcome now :
    requests c !! t = Some r →
    pc r = Holding p l Reading →
    step os c
      (mkConfig
         (after_read os r outcome now (add_event (EvReadline p) (world c))).1
         (held c)
         (<[t := at_pc r (Holding p l
              (after_read os r outcome now
                 (add_event (EvReadline p) (world c))).2)]> (requests c))
         ((t, p) :: pipe_log c))
| step_release c t r p l raised :
    requests c !! t = Some r →
    pc r = Holding p l (Leaving raised) →
    step os c
      (mkConfig (add_event (EvRelease l) (world c)) (delete l (held c))
         (<[t := at_pc r (match raised with
                          | Some e => Handling e
                          | None => Finished
                          end)]> (requests c))
         (pipe_log c))
| step_handle c t r e :
    requests c !! t = Some r →
    pc r = Handling e →
    step os c
      (mkConfig (handle_exception os r e (world c)).2 (held c)
         (<[t := at_pc r Finished]> (requests c)) (pipe_log c))
| step_reaper c now :
    step os c
      (mkConfig (cleanup_idle_processes os now (world c)).2 (held c)
         (requests c) (pipe_log c)).

(** The requests that touched the pipes of [p], newest first. *)
Definition users_of (p : Pid) (log : list (nat * Pid)) : list nat :=
  (filter (fun e => e.2 = p) log).*1.

(** No request appears, leaves and appears again: between two calls of
    one request on a worker's pipes there is no call of another. *)
Definition uninterrupted (l : list nat) : Prop :=
  ∀ i j k t, (i < j < k)%nat → l !! i = Some t → l !! k = Some t → l !! j = Some t.

(** The calls [terminate_process] makes on a registered process, by how
    the process reacts. *)
Definition shutdown_calls (os : Pid → Shutdown) (p : Pid) : list Event :=
  match on_terminate (os p) with
  | Some _ => [EvTerminate p]
  | None =>
      match on_wait (os p) with
      | Some (TimeoutExpired _) => [EvTerminate p; EvWait p 5; EvKill p]
      | _ => [EvTerminate p; EvWait p 5]
      end
  end.

(** The manager without the entries of one session. *)
Definition forget (session_id : string) (extra : list Event) (w : World) : World :=
  mkWorld (delete session_id (processes w)) (delete session_id (process_locks w))
          (delete session_id (last_activity w)) (excel_files_path w)
          (cleanup_task w) (next_pid w) (next_lock w) (trace w ++ extra).

(** ** Vocabulary of the statements *)

(** One session's entries in the three dictionaries. *)
Definition entries (w : World) (sid : string) : option Pid * option LockId * option Z :=
  (processes w !! sid, process_locks w !! sid, last_activity w !! sid).

(** [w'] is [w] after the sessions in [victim] that have a process were
    shut down and forgotten: every session either keeps its entries, or is
    a victim whose entries are gone and whose process got the shutdown
    calls; nothing else changed, and the log grew by shutdown calls of
    victims' processes only. *)
Definition reaps (os : Pid → Shutdown) (victim : string → Prop) (w w' : World) : Prop :=
  ∃ extra,
    trace w' = trace w ++ extra
    ∧ excel_files_path w' = excel_files_path w
    ∧ cleanup_task w' = cleanup_task w
    ∧ next_pid w' = next_pid w
    ∧ next_lock w' = next_lock w
    ∧ (∀ sid,
         (entries w' sid = entries w sid
          ∧ (victim sid → processes w !! sid = None))
         ∨ (∃ p, victim sid ∧ processes w !! sid = Some p
                 ∧ entries w' sid = (None, None, None)
                 ∧ ∀ e, e ∈ shutdown_calls os p → e ∈ extra))
    ∧ (∀ e, e ∈ extra →
         ∃ sid p, victim sid ∧ processes w !! sid = Some p ∧ e ∈ shutdown_calls os p).

(** Every session with a process has a time stamp and a lock, and every
    session with a time stamp has a process. *)
Definition in_step (w : World) : Prop :=
  ∀ sid, (is_Some (processes w !! sid) ↔ is_Some (last_activity w !! sid))
         ∧ (is_Some (processes w !! sid) → is_Some (process_locks w !! sid)).

Definition add_events (es : list Event) (w : World) : World :=
  mkWorld (processes w) (process_locks w) (last_activity w)
          (excel_files_path w) (cleanup_task w) (next_pid w) (next_lock w)
          (trace w ++ es).

(** The exchange does not go through: a write or the flush raises, or
    the read raises or returns the empty string (end of stream). *)
Definition exchange_fails (io : UnaryIO) : Prop :=
  on_write io ≠ None ∨ on_flush io ≠ None
  ∨ on_readline io = Ok "" ∨ ∃ e, on_readline io = Raise e.

(** The request bodies written to workers, and the launches, in a log. *)
Definition writes_of (events : list Event) : list (Pid * bytes) :=
  omap (fun e => match e with EvWrite p data => Some (p, data) | _ => None end) events.

Definition launches_of (events : list Event) : list (option Pid) :=
  omap (fun e => match e with EvPopen _ started => Some started | _ => None end) events.

(** The lines the loop of [response_generator] gets to read: those before
    the first empty one. *)
Fixpoint lines_read (lines : list (bytes * Z)) : list (bytes * Z) :=
  match lines with
  | [] => []
  | (line, now) :: rest =>
      if decide (line = "") then [] else (line, now) :: lines_read rest
  end.

(** Whether the loop is left at an empty line of the script. *)
Fixpoint stops_early (lines : list (bytes * Z)) : bool :=
  match lines with
  | [] => false
  | (line, _) :: rest => if decide (line = "") then true else stops_early rest
  end.

(** The exception, if any, that the write, the flush or a read raises
    inside the generator's [try]. *)
Definition stream_raises (io : StreamIO) : option exn :=
  match s_on_write io with
  | Some e => Some e
  | None =>
      match s_on_flush io with
      | Some e => Some e
      | None => if stops_early (s_lines io) then None else s_ending io
      end
  end.

(** The lines that reach the client. *)
Definition stream_lines (io : StreamIO) : list (bytes * Z) :=
  match s_on_write io, s_on_flush io with
  | None, None => lines_read (s_lines io)
  | _, _ => []
  end.

(** The calls of the loop: a read and a [yield] for each line, and the
    read that ends it. *)
Definition loop_events (p : Pid) (lines : list (bytes * Z)) : list Event :=
  flat_map (fun '(line, _) => [EvReadline p; EvYield line]) (lines_read lines)
  ++ [EvReadline p].

(** The calls of the [with] block of the generator. *)
Definition stream_events (p : Pid) (l : LockId) (body : bytes) (io : StreamIO)
    : list Event :=
  [EvAcquire l; EvWrite p (body +:+ newline)]
  ++ match s_on_write io with
     | Some _ => []
     | None =>
         EvFlush p ::
         match s_on_flush io with
         | Some _ => []
         | None => loop_events p (s_lines io)
         end
     end
  ++ [EvRelease l].

(** The time stamp after the loop: that of the last line read. *)
Definition touched (sid : string) (lines : list (bytes * Z)) (m : gmap string Z)
    : gmap string Z :=
  match last lines with
  | Some (_, now) => <[sid := now]> m
  | None => m
  end.

(** A call that shuts a process down. *)
Definition is_shutdown_call (e : Event) : Prop :=
  match e with
  | EvTerminate _ | EvWait _ _ | EvKill _ => True
  | _ => False
  end.

(** The process and lock a request has in hand, from the moment it has
    resolved its session until it leaves the [with] block. *)
Definition working_on (r : Request) : option (Pid * LockId) :=
  match pc r with
  | Resolved p l | Holding p l _ => Some (p, l)
  | _ => None
  end.

(** The process and lock of a request that is inside the [with] block. *)
Definition inside (r : Request) : option (Pid * LockId) :=
  match pc r with
  | Holding p l _ => Some (p, l)
  | _ => None
  end.

(** A request that has left the [with] block. *)
Definition past_exchange (r : Request) : Prop :=
  match pc r with
  | Handling _ | Finished => True
  | _ => False
  end.

(** [w'] registers no process and no lock that [w] does not, and has
    created no object since. *)
Definition shrinks (w w' : World) : Prop :=
  next_pid w' = next_pid w ∧ next_lock w' = next_lock w
  ∧ ∀ sid, (processes w' !! sid = processes w !! sid
            ∧ process_locks w' !! sid = process_locks w !! sid)
           ∨ (processes w' !! sid = None ∧ process_locks w' !! sid = None).

(** The registry and the requests agree: a registered process has a lock;
    a request's process was created, and where it is still registered it
    is registered under the request's session id, with the request's
    lock; two requests with the same process have the same lock. *)
Definition consistent (w : World) (rs : list Request) : Prop :=
  registry_ok w
  ∧ (∀ sid p, processes w !! sid = Some p → is_Some (process_locks w !! sid))
  ∧ (∀ t r p l, rs !! t = Some r → working_on r = Some (p, l) →
       (p < next_pid w)%nat
       ∧ ∀ sid, processes w !! sid = Some p →
                sid = session r ∧ process_locks w !! sid = Some l)
  ∧ (∀ t t' r r' p l l', rs !! t = Some r → rs !! t' = Some r' →
       working_on r = Some (p, l) → working_on r' = Some (p, l') → l = l').

(** A request inside the [with] block is the holder of its lock. *)
Definition locked (h : gmap LockId nat) (rs : list Request) : Prop :=
  ∀ t r p l, rs !! t = Some r → inside r = Some (p, l) → h !! l = Some t.

(** The log of each worker's pipes is uninterrupted, and a request that
    is in it is either the latest user and still inside the block on that
    worker, or has left the block. *)
Definition logged (rs : list Request) (log : list (nat * Pid)) : Prop :=
  ∀ p, uninterrupted (users_of p log)
       ∧ ∀ t, t ∈ users_of p log →
           ∃ r, rs !! t = Some r
                ∧ (((∃ l, inside r = Some (p, l)) ∧ head (users_of p log) = Some t)
                   ∨ past_exchange r).

Definition invariant (c : Config) : Prop :=
  consistent (world c) (requests c)
  ∧ locked (held c) (requests c)
  ∧ logged (requests c) (pipe_log c).

(** A run: one unary request for session [alice] arrives, resolves its
    worker, takes the lock and writes its body. *)
Definition alice (at_ : Pc) : Request := mkRequest Unary "alice" "{}" at_.

Definition run1 : Config :=
  mkConfig (new_manager "/data") ∅ [alice Arrived] [].

Definition run2 : Config :=
  mkConfig (resolve 5 None "alice" (new_manager "/data")).2 ∅
    [alice (Resolved 0 0)] [].

Definition run3 : Config :=
  mkConfig (add_event (EvAcquire 0) (world run2)) (<[0%nat := 0%nat]> ∅)
    [alice (Holding 0 0 BeforeWrite)] [].

Definition run4 : Config :=
  mkConfig (stdin_write 0 ("{}" +:+ newline) None (world run3)).2 (held run3)
    [alice (Holding 0 0 BeforeFlush)] [(0, 0)%nat].

(** A request that is the only one, at some place of its handler. *)
Definition solo (w : World) (h : gmap LockId nat) (r : Request)
    (log : list (nat * Pid)) : Config :=
  mkConfig w h [r] log.

(** ** The server's life *)

(** [startup_event] (lines 141-145) and [shutdown_event] (lines
    147-151), without their log lines. *)
Definition startup_event : M unit := start_cleanup_task.

Definition shutdown_event (os : Pid → Shutdown) : M unit := terminate_all os.

(** [cleanup_loop] (lines 42-45), for as many turns as [times] has
    entries: a turn sleeps and then scans, [times] giving the value of
    [time.time()] at each scan. *)
Definition cleanup_loop (os : Pid → Shutdown) (times : list Z) : M unit :=
  for_each times (cleanup_idle_processes os).

(** The life of the server: [startup_event], then the calls that the
    handlers and the cleanup task make on the manager, then
    [shutdown_event]. *)
Definition server_life (os : Pid → Shutdown) (ops : list Op) : M unit :=
  startup_event ;;
  modify (run_ops os ops) ;;
  shutdown_event os.

(** ** The directory of the workbooks *)

Definition ends_with_slash (s : string) : bool :=
  match String.rev s with
  | String c _ => byte_in 47 47 c
  | EmptyString => false
  end.

(** [os.path.join] of two components, as [posixpath] has it. *)
Definition path_join (a b : string) : string :=
  match b with
  | String c _ =>
      if byte_in 47 47 c then b
      else if decide (a = "") then b
      else if ends_with_slash a then a +:+ b
      else a +:+ "/" +:+ b
  | EmptyString =>
      if decide (a = "") then b
      else if ends_with_slash a then a
      else a +:+ "/"
  end.

(** [get_excel_files_path] (lines 129-136).  [env] is the value of the
    environment variable [EXCEL_FILES_PATH] if it is set, [tmpdir] what
    [tempfile.gettempdir()] returns, [makedirs] what [os.makedirs] does. *)
Definition get_excel_files_path (env : option string) (tmpdir : string)
    (makedirs : option exn) : Result string :=
  let excel_files_path :=
    match env with
    | Some value =>
        if decide (value = "") then path_join tmpdir "excel_mcp_files" else value
    | None => path_join tmpdir "excel_mcp_files"
    end in
  match makedirs with
  | Some e => Raise e
  | None => Ok excel_files_path
  end.

(** Line 139: the module's manager. *)
Definition process_manager (env : option string) (tmpdir : string)
    (makedirs : option exn) : Result World :=
  match get_excel_files_path env tmpdir makedirs with
  | Ok path => Ok (new_manager path)
  | Raise e => Raise e
  end.

(** ** A WebSocket connection from its opening to its end *)

(** How the task [read_subprocess_output] of a connection stands: still
    in its loop, returned (the worker's output has ended), or ended by an
    exception. *)
Inductive ReaderState : Type :=
| ReaderRunning
| ReaderEnded
| ReaderFailed (e : exn).

(** What happens while a connection is open, one entry for each time
    the event loop resumes a coroutine: [receive_bytes] returns a frame,
    at time [now], and [write] and [flush] tell what the worker's pipe
    does with it; or the reader task runs one turn of its loop, [outcome]
    being what [readline] does, [now] the time after it and [send] what
    [send_bytes] does; or, while both coroutines of the connection wait
    (lines 234 and 243), the rest of the server runs, the cleanup task
    and the handlers of other requests, and makes the calls [ops] on the
    manager.  No coroutine of the connection awaits inside a turn. *)
Inductive WsTurn : Type :=
| WsFrame (data : bytes) (now : Z) (write flush : option exn)
| WsOutput (outcome : Result bytes) (now : Z) (send : option exn)
| WsElsewhere (ops : list Op).

(** One turn of the loop of [read_subprocess_output] (lines 224-234);
    the result tells whether the loop goes on. *)
Definition read_subprocess_output (c : WsConn) (outcome : Result bytes)
    (now : Z) (send : option exn) : M bool :=
  let* response_line := stdout_readline (ws_process c) outcome in
  if decide (response_line = "") then ret false
  else
    modify (set_last_activity <[ws_session_id c := now]>) ;;
    call (EvWsSend response_line) send ;;
    ret true.

(** The receive loop (lines 241-254) with the reader task beside it.
    The loop is left when a turn of it raises, which [except Exception]
    catches, or when the turns are over: [receive_bytes] raises, the
    client being gone.  A task that has ended takes no turn. *)
Fixpoint ws_loop (os : Pid → Shutdown) (c : WsConn) (turns : list WsTurn)
    (reader : ReaderState) : M ReaderState :=
  match turns with
  | [] => ret reader
  | WsFrame data now write flush :: rest =>
      let* went :=
        try_except (ws_on_message c data now write flush ;; ret true)
                   (fun _ => ret false) in
      if went : bool then ws_loop os c rest reader else ret reader
  | WsOutput outcome now send :: rest =>
      match reader with
      | ReaderRunning =>
          let* reader' :=
            try_except
              (let* more := read_subprocess_output c outcome now send in
               ret (if more : bool then ReaderRunning else ReaderEnded))
              (fun e => ret (ReaderFailed e)) in
          ws_loop os c rest reader'
      | _ => ws_loop os c rest reader
      end
  | WsElsewhere ops :: rest =>
      modify (run_ops os ops) ;;
      ws_loop os c rest reader
  end.

(** [websocket_endpoint] (lines 209-264).  The inner [finally] cancels
    the reader task and awaits it: a task that is running is cancelled
    and the [CancelledError] is passed over, a task that has returned
    gives nothing, a task that an exception has ended gives that
    exception, which leaves the handler after the outer [finally] has
    shut the worker down.  [last] are the calls that the rest of the
    server makes on the manager while the handler awaits the reader task
    (line 259). *)
Definition websocket_endpoint (os : Pid → Shutdown) (uuid : string) (now : Z)
    (launch : option exn) (turns : list WsTurn) (last : list Op) : M unit :=
  let* c := ws_accept uuid now launch in
  let* reader := ws_loop os c turns ReaderRunning in
  modify (run_ops os last) ;;
  ws_teardown os c ;;
  match reader with
  | ReaderFailed e => raise e
  | _ => ret tt
  end.

(** The unary and the stream handler interleaved as in [step], together
    with the reader task of the WebSocket connection [conn]: a turn of
    [read_subprocess_output] is one more step, and its call on the pipe
    is logged under the number [reader]. *)
Inductive duplex_step `{PyRuntime} (os : Pid → Shutdown) (conn : WsConn)
    (reader : nat) : Config → Config → Prop :=
| duplex_http c c' :
    step os c c' → duplex_step os conn reader c c'
| duplex_output c outcome now send :
    duplex_step os conn reader c
      (mkConfig (read_subprocess_output conn outcome now send (world c)).2
         (held c) (requests c) ((reader, ws_process conn) :: pipe_log c)).

(** ** The routes *)

(** The three handlers, and the routes that their decorators add to
    [app], in the order of the module (lines 154, 209 and 267).  Each
    path is a literal prefix followed by the parameter [{path:path}]. *)
Inductive Endpoint : Type :=
| HandleRequest
| WebsocketEndpoint
| HandleStreamRequest.

Inductive RouteKind : Type :=
| HttpRoute (methods : list string)
| WebSocketRoute.

Record Route : Type := mkRoute {
  route_kind : RouteKind;
  route_prefix : string;
  route_endpoint : Endpoint
}.

Definition routes : list Route :=
  [ mkRoute (HttpRoute ["POST"]) "/" HandleRequest;
    mkRoute WebSocketRoute "/ws/" WebsocketEndpoint;
    mkRoute (HttpRoute ["POST"]) "/stream/" HandleStreamRequest ].

(** A request as the router sees it. *)
Inductive Scope : Type :=
| Http (method path : string)
| WebSocket (path : string).

Fixpoint strip_prefix (prefix s : string) : option string :=
  match prefix, s with
  | EmptyString, _ => Some s
  | String a prefix', String b s' =>
      if decide (a = b) then strip_prefix prefix' s' else None
  | String _ _, EmptyString => None
  end.

(** What the parameter [{path:path}] takes: the rest of the path, of any
    characters with no line feed among them except for one at the very
    end (the dot and the dollar sign of the regular expression that
    Starlette compiles the path to). *)
Fixpoint path_param (s : string) : bool :=
  match s with
  | EmptyString => true
  | String c rest =>
      if byte_in 10 10 c then bool_decide (rest = "") else path_param rest
  end.

Definition path_matches (prefix path : string) : bool :=
  match strip_prefix prefix path with
  | Some rest => path_param rest
  | None => false
  end.

(** Starlette's [Route.matches] and [WebSocketRoute.matches]. *)
Inductive Match : Type := MatchNone | MatchPartial | MatchFull.

Definition matches (r : Route) (s : Scope) : Match :=
  match route_kind r, s with
  | HttpRoute methods, Http method path =>
      if path_matches (route_prefix r) path then
        if bool_decide (method ∈ methods) then MatchFull else MatchPartial
      else MatchNone
  | WebSocketRoute, WebSocket path =>
      if path_matches (route_prefix r) path then MatchFull else MatchNone
  | _, _ => MatchNone
  end.

(** Starlette's [Router.app]: the first route that matches in full
    handles the request; failing that, a route that matches the path but
    not the method answers 405; failing that, the router's default. *)
Inductive Dispatch : Type :=
| Calls (e : Endpoint)
| MethodNotAllowed
| NoRoute.

Fixpoint dispatch_from (partial : bool) (rs : list Route) (s : Scope) : Dispatch :=
  match rs with
  | [] => if partial then MethodNotAllowed else NoRoute
  | r :: rest =>
      match matches r s with
      | MatchFull => Calls (route_endpoint r)
      | MatchPartial => dispatch_from true rest s
      | MatchNone => dispatch_from partial rest s
      end
  end.

Definition dispatch (s : Scope) : Dispatch := dispatch_from false routes s.

(** ** More vocabulary *)

(** What one scan at time [now] makes of a session's entries. *)
Definition scanned (now : Z) (e : option Pid * option LockId * option Z)
    : option Pid * option LockId * option Z :=
  match e with
  | (Some _, _, Some last_time) =>
      if decide (now - last_time > idle_timeout)%Z then (None, None, None) else e
  | _ => e
  end.

(** A call of [get_or_create_process] for session [sid]. *)
Definition creates (sid : string) (o : Op) : Prop :=
  match o with
  | OpGetOrCreateProcess session_id _ _ => session_id = sid
  | _ => False
  end.

(** A call on a worker's pipes, and a call on a lock. *)
Definition is_pipe_call (e : Event) : Prop :=
  match e with
  | EvWrite _ _ | EvFlush _ | EvReadline _ => True
  | _ => False
  end.

Definition is_lock_call (e : Event) : Prop :=
  match e with
  | EvAcquire _ | EvRelease _ => True
  | _ => False
  end.

(** The calls of a request that takes lock [l] once: the lock is taken
    and released, in this order, and every call on a pipe is made in
    between. *)
Definition under_lock (l : LockId) (events : list Event) : Prop :=
  ∃ pre mid post,
    events = pre ++ EvAcquire l :: mid ++ EvRelease l :: post
    ∧ Forall (fun e => ¬ is_pipe_call e ∧ ¬ is_lock_call e) (pre ++ post)
    ∧ Forall (fun e => ¬ is_lock_call e) mid.

(** A call that is made on process [p] if it is made on a process at
    all, and is no call on a lock. *)
Definition tame (p : Pid) (e : Event) : Prop :=
  ¬ is_lock_call e ∧ ∀ q, event_pid e = Some q → q = p.

(** What the body of a handler that works on process [p] under lock [l]
    makes of the manager: the block's calls, then calls that are not on
    the pipes; the other sessions keep their entries; the session keeps
    its process and lock, or is forgotten. *)
Definition handled (sid : string) (p : Pid) (l : LockId) (w1 w' : World) : Prop :=
  ∃ mid post,
    trace w' = trace w1 ++ EvAcquire l :: mid ++ EvRelease l :: post
    ∧ Forall (tame p) mid
    ∧ Forall (fun e => tame p e ∧ ¬ is_pipe_call e) post
    ∧ next_pid w' = next_pid w1 ∧ next_lock w' = next_lock w1
    ∧ excel_files_path w' = excel_files_path w1
    ∧ (∀ sid', sid' ≠ sid → entries w' sid' = entries w1 sid')
    ∧ (entries w' sid = (None, None, None)
       ∨ (processes w' !! sid = processes w1 !! sid
          ∧ process_locks w' !! sid = process_locks w1 !! sid
          ∧ is_Some (last_activity w' !! sid))).

(** The manager after a handler that resolves the session and then works
    on its process under its lock. *)
Definition served (now : Z) (launch : option exn) (sid : string) (w w' : World) : Prop :=
  match resolve now launch sid w with
  | (Ok (p, l), w1) => handled sid p l w1 w'
  | (Raise _, w1) => w' = w1
  end.

(** [w'] is [w] after a request for another session than [sid']: the
    entries of [sid'] are as they were, and no call was made on its
    process. *)
Definition leaves_alone (sid' : string) (w w' : World) : Prop :=
  entries w' sid' = entries w sid'
  ∧ ∃ new, trace w' = trace w ++ new
      ∧ ∀ p', processes w !! sid' = Some p' →
              Forall (fun e => event_pid e ≠ Some p') new.

(** The frames the receive loop takes from the client: those up to the
    first whose write or flush raises, this one included. *)
Fixpoint frames_taken (turns : list WsTurn) : list bytes :=
  match turns with
  | [] => []
  | WsFrame data _ write flush :: rest =>
      data :: match write, flush with
              | None, None => frames_taken rest
              | _, _ => []
              end
  | WsOutput _ _ _ :: rest => frames_taken rest
  | WsElsewhere _ :: rest => frames_taken rest
  end.

(** A turn of the reader task in which [readline] or [send_bytes]
    raises [e]. *)
Definition reader_fails (e : exn) (t : WsTurn) : Prop :=
  match t with
  | WsOutput (Raise e') _ _ => e' = e
  | WsOutput (Ok line) _ (Some e') => line ≠ "" ∧ e' = e
  | _ => False
  end.

(** The directories that the launches in a log give their workers. *)
Definition launch_paths (events : list Event) : list string :=
  omap (fun e => match e with EvPopen path _ => Some path | _ => None end) events.

(** Every process that a launch in the log has started is registered, or
    has got [terminate()]. *)
Definition accounted (w : World) : Prop :=
  ∀ path p, EvPopen path (Some p) ∈ trace w →
    (∃ sid, processes w !! sid = Some p) ∨ EvTerminate p ∈ trace w.

(** A turn in which the connection itself runs. *)
Definition own_turn (t : WsTurn) : Prop :=
  match t with
  | WsElsewhere _ => False
  | _ => True
  end.

(** A call on the manager that leaves alone a session last active at
    time [now]: a call for another session, or a scan at most 300 later. *)
Definition spares (sid : string) (now : Z) (o : Op) : Prop :=
  match o with
  | OpGetOrCreateProcess session_id _ _ => session_id ≠ sid
  | OpGetProcessLock _ => True
  | OpTerminateProcess session_id => session_id ≠ sid
  | OpCleanupIdleProcesses current_time => (current_time - now ≤ idle_timeout)%Z
  | OpTerminateAll => False
  end.

(** A streamed request under the session id of the connection [ws_conn],
    and a run on the manager that the opening of the connection left:
    the reader task of the connection reads a first line; the request
    arrives, finds the connection's worker, takes the lock, writes and
    flushes its body and reads a line; the reader task reads a line; the
    request reads a line.  The reader's calls are logged under number 1,
    the request is number 0. *)
Definition intruder (at_ : Pc) : Request := mkRequest Stream "ws-1" "{}" at_.

Definition duplex0 : Config := mkConfig ws_world ∅ [] [].

Definition duplex1 : Config :=
  mkConfig (read_subprocess_output ws_conn (Ok "0") 1 None (world duplex0)).2
    (held duplex0) (requests duplex0) ((1, 0)%nat :: pipe_log duplex0).

Definition duplex2 : Config :=
  mkConfig (world duplex1) ∅ [intruder Arrived] (pipe_log duplex1).

Definition duplex3 : Config :=
  mkConfig (resolve 5 None "ws-1" (world duplex2)).2 ∅ [intruder (Resolved 0 0)]
    (pipe_log duplex2).

Definition duplex4 : Config :=
  mkConfig (add_event (EvAcquire 0) (world duplex3)) (<[0%nat := 0%nat]> ∅)
    [intruder (Holding 0 0 BeforeWrite)] (pipe_log duplex3).

Definition duplex5 : Config :=
  mkConfig (stdin_write 0 ("{}" +:+ newline) None (world duplex4)).2 (held duplex4)
    [intruder (Holding 0 0 BeforeFlush)] ((0, 0)%nat :: pipe_log duplex4).

Definition duplex6 : Config :=
  mkConfig (stdin_flush 0 None (world duplex5)).2 (held duplex5)
    [intruder (Holding 0 0 Reading)] ((0, 0)%nat :: pipe_log duplex5).

Definition duplex7 : Config :=
  mkConfig (add_event (EvYield "1")
              (set_last_activity <["ws-1" := 6%Z]>
                 (add_event (EvReadline 0) (world duplex6))))
    (held duplex6) [intruder (Holding 0 0 Reading)]
    ((0, 0)%nat :: pipe_log duplex6).

Definition duplex8 : Config :=
  mkConfig (read_subprocess_output ws_conn (Ok "2") 7 None (world duplex7)).2
    (held duplex7) (requests duplex7) ((1, 0)%nat :: pipe_log duplex7).

Definition duplex9 : Config :=
  mkConfig (add_event (EvYield "3")
              (set_last_activity <["ws-1" := 8%Z]>
                 (add_event (EvReadline 0) (world duplex8))))
    (held duplex8) [intruder (Holding 0 0 Reading)]
    ((0, 0)%nat :: pipe_log duplex8).

(** The manager knows the process of the connection [c]: it was started
    by a launch in the log, it is registered under the connection's
    session id if it is registered at all, and every process of the log
    is accounted for. *)
Definition attached (c : WsConn) (w : World) : Prop :=
  accounted w
  ∧ (ws_process c < next_pid w)%nat
  ∧ (∀ sid, processes w !! sid = Some (ws_process c) → sid = ws_session_id c)
  ∧ ∃ dir, EvPopen dir (Some (ws_process c)) ∈ trace w.

(** What one turn makes of the reader task. *)
Definition reader_after (reader : ReaderState) (t : WsTurn) : ReaderState :=
  match reader, t with
  | ReaderRunning, WsOutput (Raise e) _ _ => ReaderFailed e
  | ReaderRunning, WsOutput (Ok line) _ send =>
      if decide (line = "") then ReaderEnded
      else match send with
           | Some e => ReaderFailed e
           | None => ReaderRunning
           end
  | _, _ => reader
  end.

(** What one turn makes of the manager, and whether the receive loop goes
    on after it. *)
Definition turn_world (os : Pid → Shutdown) (c : WsConn) (reader : ReaderState)
    (t : WsTurn) (w : World) : World :=
  match t with
  | WsFrame data now write flush => (ws_on_message c data now write flush w).2
  | WsOutput outcome now send =>
      match reader with
      | ReaderRunning => (read_subprocess_output c outcome now send w).2
      | _ => w
      end
  | WsElsewhere ops => run_ops os ops w
  end.

Definition goes_on (t : WsTurn) : bool :=
  match t with
  | WsFrame _ _ (Some _) _ | WsFrame _ _ None (Some _) => false
  | _ => true
  end.

(** The manager after a unary request of session [alice] that was
    answered. *)
Definition alice_answered : World :=
  (handle_request obedient (Some "alice") "uuid-1" "{}" 3 None
     (mkUnaryIO None None (Ok ("17" +:+ newline))) (new_manager "/data")).2.

(** * Properties *)

(** ** The manager's methods, case by case *)

Lemma get_or_create_process_hit now launch session_id w p :
  processes w !! session_id = Some p →
  get_or_create_process now launch session_id w
  = (Ok p, set_last_activity <[session_id := now]> w).
Proof.
  intros Hp. unfold get_or_create_process, bind, gets. cbn. now rewrite Hp.
Qed.

Lemma get_or_create_process_spawn now session_id w :
  processes w !! session_id = None →
  get_or_create_process now None session_id w
  = (Ok (next_pid w),
     mkWorld (<[session_id := next_pid w]> (processes w))
             (<[session_id := next_lock w]> (process_locks w))
             (<[session_id := now]> (last_activity w))
             (excel_files_path w) (cleanup_task w)
             (S (next_pid w)) (S (next_lock w))
             (trace w ++ [EvPopen (excel_files_path w) (Some (next_pid w))])).
Proof.
  intros Hp. unfold get_or_create_process, bind, gets. cbn. now rewrite Hp.
Qed.

Lemma get_or_create_process_fail now e session_id w :
  processes w !! session_id = None →
  get_or_create_process now (Some e) session_id w
  = (Raise e, add_event (EvPopen (excel_files_path w) None) w).
Proof.
  intros Hp. unfold get_or_create_process, bind, gets. cbn. now rewrite Hp.
Qed.

Lemma get_process_lock_hit session_id w l :
  process_locks w !! session_id = Some l →
  get_process_lock session_id w = (Ok l, w).
Proof.
  intros Hl. unfold get_process_lock, bind, gets. cbn. now rewrite Hl.
Qed.

Lemma get_process_lock_miss session_id w :
  process_locks w !! session_id = None →
  get_process_lock session_id w
  = (Ok (next_lock w),
     alloc_lock (set_process_locks <[session_id := next_lock w]> w)).
Proof.
  intros Hl. unfold get_process_lock, bind, gets. cbn. now rewrite Hl.
Qed.

Lemma shutdown_process_trace os p w :
  trace (try_except (shutdown_process os p) (fun _ => ret tt) w).2
  = trace w ++ shutdown_calls os p
  ∧ (try_except (shutdown_process os p) (fun _ => ret tt) w).1 = Ok tt.
Proof.
  unfold try_except, shutdown_process, shutdown_calls, call, bind, modify, ret, raise.
  destruct (on_terminate (os p)) as [e1|]; cbn; [done|].
  destruct (on_wait (os p)) as [[m|m|sc d|m]|]; cbn;
    try destruct (on_kill (os p)); cbn; rewrite <- ?app_assoc; done.
Qed.

Lemma terminate_process_hit os session_id w p :
  processes w !! session_id = Some p →
  terminate_process os session_id w
  = (Ok tt, forget session_id (shutdown_calls os p) w).
Proof.
  intros Hp. unfold terminate_process, bind, gets. cbn. rewrite Hp.
  destruct (shutdown_process_trace os p w) as [Ht Hr].
  destruct (try_except _ _ w) as [r w1] eqn:E. cbn in *. subst r.
  unfold forget, modify. cbn. rewrite <- Ht. f_equal.
  unfold try_except, shutdown_process, call, bind, modify, ret, raise in E.
  destruct (on_terminate (os p)); cbn in E.
  - injection E as <-. done.
  - destruct (on_wait (os p)) as [[m|m|sc d|m]|]; cbn in E;
      try destruct (on_kill (os p)); cbn in E; injection E as <-; done.
Qed.

Lemma terminate_process_ok os session_id w :
  (terminate_process os session_id w).1 = Ok tt.
Proof.
  destruct (processes w !! session_id) as [p|] eqn:Hp.
  - by rewrite (terminate_process_hit _ _ _ _ Hp).
  - unfold terminate_process, bind, gets. cbn. now rewrite Hp.
Qed.

Lemma terminate_process_miss os session_id w :
  processes w !! session_id = None →
  terminate_process os session_id w = (Ok tt, w).
Proof.
  intros Hp. unfold terminate_process, bind, gets. cbn. now rewrite Hp.
Qed.

(** ** Shutting down a set of sessions *)

Lemma reaps_nothing os w : reaps os (fun _ => False) w w.
Proof.
  exists []. rewrite app_nil_r. repeat split; try done.
  - intros sid. left. done.
  - intros e He. inversion He.
Qed.

Lemma reaps_terminate_process os session_id w :
  reaps os (fun sid => sid = session_id) w (terminate_process os session_id w).2.
Proof.
  destruct (processes w !! session_id) as [p|] eqn:Hp.
  - rewrite (terminate_process_hit _ _ _ _ Hp). cbn.
    exists (shutdown_calls os p). repeat split; cbn; try done.
    + intros sid. destruct (decide (sid = session_id)) as [->|Hne].
      * right. exists p. unfold entries. cbn.
        rewrite !lookup_delete_eq. done.
      * left. unfold entries. cbn.
        rewrite !lookup_delete_ne by done. done.
    + intros e He. exists session_id, p. done.
  - rewrite (terminate_process_miss _ _ _ Hp). cbn.
    exists []. rewrite app_nil_r. repeat split; try done.
    + intros sid. left. split; [done|]. intros ->. done.
    + intros e He. inversion He.
Qed.

Lemma reaps_weaken os (V V' : string → Prop) w w' :
  (∀ sid, V sid → V' sid) →
  (∀ sid, V' sid → is_Some (processes w !! sid) → V sid) →
  reaps os V w w' → reaps os V' w w'.
Proof.
  intros HV HV' (extra & Ht & Hpath & Htask & Hnp & Hnl & Hsid & Hext).
  exists extra. repeat split; try done.
  - intros sid. destruct (Hsid sid) as [[He Hv]|(p & Hv & Hp & He & Hc)].
    + left. split; [done|]. intros Hv'.
      destruct (processes w !! sid) as [p|] eqn:Hp; [|done].
      apply Hv, HV'; [done|]. rewrite Hp. eauto.
    + right. exists p. split; [by apply HV|done].
  - intros e He. destruct (Hext e He) as (sid & p & Hs & Hp & Hin).
    exists sid, p. split; [by apply HV | done].
Qed.

Lemma reaps_then os (V1 V2 : string → Prop) w w1 w2 :
  reaps os V1 w w1 → reaps os V2 w1 w2 →
  reaps os (fun sid => V1 sid ∨ V2 sid) w w2.
Proof.
  intros (x1 & Ht1 & Hpath1 & Htask1 & Hnp1 & Hnl1 & Hsid1 & Hext1)
         (x2 & Ht2 & Hpath2 & Htask2 & Hnp2 & Hnl2 & Hsid2 & Hext2).
  exists (x1 ++ x2). repeat split; try congruence.
  - rewrite Ht2, Ht1. by rewrite app_assoc.
  - intros sid.
    destruct (Hsid1 sid) as [[He1 Hv1]|(p & Hv1 & Hp & He1 & Hc1)].
    + destruct (Hsid2 sid) as [[He2 Hv2]|(p & Hv2 & Hp & He2 & Hc2)].
      * left. split; [congruence|]. intros [Hv|Hv]; [by apply Hv1|].
        specialize (Hv2 Hv). unfold entries in He1. congruence.
      * right. exists p. repeat split; try done.
        -- by right.
        -- unfold entries in He1. congruence.
        -- intros e He. apply elem_of_app. right. by apply Hc2.
    + right. exists p. repeat split; try done.
      * by left.
      * destruct (Hsid2 sid) as [[He2 Hv2]|(p' & Hv2 & Hp' & He2 & Hc2)].
        -- congruence.
        -- unfold entries in He1. congruence.
      * intros e He. apply elem_of_app. left. by apply Hc1.
  - intros e He. apply elem_of_app in He as [He|He].
    + destruct (Hext1 e He) as (sid & p & Hv & Hp & Hin).
      exists sid, p. split; [by left|done].
    + destruct (Hext2 e He) as (sid & p & Hv & Hp & Hin).
      exists sid, p. split; [by right|]. split; [|done].
      destruct (Hsid1 sid) as [[He1 _]|(p' & _ & _ & He1 & _)];
        unfold entries in He1; congruence.
Qed.

(** A loop whose every turn shuts one session down or does nothing. *)
Lemma for_each_reaps {A} os (items : list A) (body : A → M unit)
    (target : A → option string) :
  (∀ a, body a = match target a with
                 | Some sid => terminate_process os sid
                 | None => ret tt
                 end) →
  ∀ w, (for_each items body w).1 = Ok tt
       ∧ reaps os (fun sid => ∃ a, a ∈ items ∧ target a = Some sid) w
           (for_each items body w).2.
Proof.
  intros Hbody. induction items as [|a rest IH]; intros w; cbn.
  - split; [done|]. eapply reaps_weaken; [| |apply reaps_nothing].
    + done.
    + intros sid (a & Ha & _) _. inversion Ha.
  - unfold bind. rewrite Hbody.
    assert (Hstep : ∃ w1, (match target a with
                           | Some sid => terminate_process os sid
                           | None => ret tt
                           end) w = (Ok tt, w1)
                          ∧ reaps os (fun sid => target a = Some sid) w w1).
    { destruct (target a) as [sid|].
      - exists (terminate_process os sid w).2. split.
        + destruct (processes w !! sid) eqn:Hp.
          * by rewrite (terminate_process_hit _ _ _ _ Hp).
          * by rewrite (terminate_process_miss _ _ _ Hp).
        + eapply reaps_weaken; [| |apply reaps_terminate_process].
          * by intros ? ->.
          * intros ? [= ->] _. done.
      - exists w. split; [done|].
        eapply reaps_weaken; [| |apply reaps_nothing]; [done|].
        intros ? [=]. }
    destruct Hstep as (w1 & -> & H1).
    destruct (IH w1) as [Hr H2]. split; [done|].
    eapply reaps_weaken; [| |exact (reaps_then _ _ _ _ _ _ H1 H2)].
    + intros sid [Hs|(b & Hb & Hs)].
      * exists a. split; [apply elem_of_cons; by left|done].
      * exists b. split; [apply elem_of_cons; by right|done].
    + intros sid (b & Hb & Hs) _. apply elem_of_cons in Hb as [->|Hb].
      * by left.
      * right. eauto.
Qed.

Lemma cleanup_idle_processes_reaps os now w :
  (cleanup_idle_processes os now w).1 = Ok tt
  ∧ reaps os (fun sid => ∃ t, last_activity w !! sid = Some t
                              ∧ (now - t > idle_timeout)%Z)
      w (cleanup_idle_processes os now w).2.
Proof.
  unfold cleanup_idle_processes, bind, gets. cbn.
  destruct (for_each_reaps os (map_to_list (last_activity w))
              (fun '(session_id, last_time) =>
                 if decide (now - last_time > idle_timeout)%Z
                 then terminate_process os session_id else ret tt)
              (fun '(session_id, last_time) =>
                 if decide (now - last_time > idle_timeout)%Z
                 then Some session_id else None)) with (w := w) as [Hr Hreaps].
  { intros [sid t]. by destruct (decide _). }
  split; [done|].
  eapply reaps_weaken; [| |exact Hreaps].
  - intros sid ([sid' t] & Hin & Ht). apply elem_of_map_to_list in Hin.
    destruct (decide _); [|done]. injection Ht as ->. eauto.
  - intros sid (t & Hl & Ht) _. exists (sid, t). split.
    + by apply elem_of_map_to_list.
    + by destruct (decide _).
Qed.

Lemma terminate_all_reaps os w :
  (terminate_all os w).1 = Ok tt
  ∧ ∃ w1, reaps os (fun _ => True) w w1
          ∧ (terminate_all os w).2
            = (if cleanup_task w then add_event EvCancelCleanupTask w1 else w1).
Proof.
  unfold terminate_all, bind, gets. cbn.
  destruct (for_each_reaps os (map_to_list (processes w)).*1
              (terminate_process os) Some) with (w := w) as [Hr Hreaps]; [done|].
  destruct (for_each _ _ w) as [r w1]. cbn in *. subst r.
  assert (Htask : cleanup_task w1 = cleanup_task w).
  { by destruct Hreaps as (? & _ & _ & ? & _). }
  rewrite Htask. split.
  - by destruct (cleanup_task w).
  - exists w1. split; [|by destruct (cleanup_task w)].
    eapply reaps_weaken; [| |exact Hreaps]; [done|].
    intros sid _ [p Hp]. exists sid. split; [|done].
    apply list_elem_of_fmap. exists (sid, p). split; [done|].
    by apply elem_of_map_to_list.
Qed.

(** ** Processes are registered once *)

Lemma registry_ok_new path : registry_ok (new_manager path).
Proof. repeat split; intros ?; intros; cbn in *; by rewrite ?lookup_empty in *. Qed.

Lemma registry_ok_reaps os V w w' :
  registry_ok w → reaps os V w w' → registry_ok w'.
Proof.
  intros (Ha & Hi & Hl) (extra & _ & _ & _ & Hnp & Hnl & Hsid & _).
  assert (Hsub : ∀ sid p, processes w' !! sid = Some p → processes w !! sid = Some p).
  { intros sid p Hp.
    destruct (Hsid sid) as [[He _]|(p' & _ & _ & He & _)];
      unfold entries in He; congruence. }
  assert (Hsubl : ∀ sid l, process_locks w' !! sid = Some l → process_locks w !! sid = Some l).
  { intros sid l Hp.
    destruct (Hsid sid) as [[He _]|(p' & _ & _ & He & _)];
      unfold entries in He; congruence. }
  repeat split.
  - intros sid p Hp. rewrite Hnp. eapply Ha, Hsub, Hp.
  - intros s1 s2 p H1 H2. eapply Hi; eauto.
  - intros sid l H. rewrite Hnl. eapply Hl, Hsubl, H.
Qed.

Lemma registry_ok_same_processes w w' :
  processes w' = processes w → process_locks w' = process_locks w →
  (next_pid w ≤ next_pid w')%nat → (next_lock w ≤ next_lock w')%nat →
  registry_ok w → registry_ok w'.
Proof.
  intros Hp Hl Hn Hn' (Ha & Hi & Hla). repeat split.
  - intros sid p H. rewrite Hp in H. specialize (Ha _ _ H). lia.
  - intros s1 s2 p H1 H2. rewrite Hp in H1, H2. eauto.
  - intros sid l H. rewrite Hl in H. specialize (Hla _ _ H). lia.
Qed.

Lemma registry_ok_get_or_create_process now launch session_id w :
  registry_ok w →
  registry_ok (get_or_create_process now launch session_id w).2.
Proof.
  intros Hok. destruct (processes w !! session_id) as [p|] eqn:Hp.
  - rewrite (get_or_create_process_hit _ _ _ _ _ Hp). cbn.
    by apply (registry_ok_same_processes w).
  - destruct launch as [e|].
    + rewrite (get_or_create_process_fail _ _ _ _ Hp). cbn.
      by apply (registry_ok_same_processes w).
    + rewrite (get_or_create_process_spawn _ _ _ Hp). cbn.
      destruct Hok as (Ha & Hi & Hl). repeat split.
      * intros sid p. cbn. rewrite lookup_insert.
        case_decide; [intros [= <-]; lia|].
        intros H'. specialize (Ha _ _ H'). lia.
      * intros s1 s2 p. cbn. rewrite !lookup_insert.
        repeat case_decide; try congruence.
        -- intros [= <-] H2. specialize (Ha _ _ H2). lia.
        -- intros H1 [= <-]. specialize (Ha _ _ H1). lia.
        -- eauto.
      * intros sid l. cbn. rewrite lookup_insert.
        case_decide; [intros [= <-]; lia|].
        intros H'. specialize (Hl _ _ H'). lia.
Qed.

Lemma registry_ok_get_process_lock session_id w :
  registry_ok w → registry_ok (get_process_lock session_id w).2.
Proof.
  intros Hok. destruct (process_locks w !! session_id) as [l|] eqn:Hl.
  - by rewrite (get_process_lock_hit _ _ _ Hl).
  - rewrite (get_process_lock_miss _ _ Hl). cbn.
    destruct Hok as (Ha & Hi & Hla). repeat split; try done.
    intros sid l. cbn. rewrite lookup_insert.
    case_decide; [intros [= <-]; lia|].
    intros H'. specialize (Hla _ _ H'). lia.
Qed.

Lemma registry_ok_terminate_process os session_id w :
  registry_ok w → registry_ok (terminate_process os session_id w).2.
Proof.
  intros Hok. eapply registry_ok_reaps; [done|apply reaps_terminate_process].
Qed.

Lemma registry_ok_cleanup_idle_processes os now w :
  registry_ok w → registry_ok (cleanup_idle_processes os now w).2.
Proof.
  intros Hok. eapply registry_ok_reaps; [done|apply cleanup_idle_processes_reaps].
Qed.

Lemma registry_ok_terminate_all os w :
  registry_ok w → registry_ok (terminate_all os w).2.
Proof.
  intros Hok. destruct (terminate_all_reaps os w) as (_ & w1 & Hr & ->).
  pose proof (registry_ok_reaps _ _ _ _ Hok Hr) as Hok1.
  destruct (cleanup_task w); [|done].
  by apply (registry_ok_same_processes w1).
Qed.

Lemma registry_ok_run_op os o w :
  registry_ok w → registry_ok (run_op os o w).2.
Proof.
  intros Hok. destruct o as [sid now launch|sid|sid|now|]; cbn.
  - unfold bind. pose proof (registry_ok_get_or_create_process now launch sid w Hok).
    by destruct (get_or_create_process now launch sid w) as [[?|?] ?].
  - unfold bind. pose proof (registry_ok_get_process_lock sid w Hok).
    by destruct (get_process_lock sid w) as [[?|?] ?].
  - by apply registry_ok_terminate_process.
  - by apply registry_ok_cleanup_idle_processes.
  - by apply registry_ok_terminate_all.
Qed.

Lemma registry_ok_run_ops os ops w :
  registry_ok w → registry_ok (run_ops os ops w).
Proof.
  revert w. induction ops as [|o rest IH]; intros w Hok; cbn; [done|].
  by apply IH, registry_ok_run_op.
Qed.

Lemma reachable_registry_ok w : reachable w → registry_ok w.
Proof.
  intros (os & path & ops & ->). apply registry_ok_run_ops, registry_ok_new.
Qed.

Lemma shutdown_calls_pid os p e : e ∈ shutdown_calls os p → event_pid e = Some p.
Proof.
  unfold shutdown_calls.
  destruct (on_terminate (os p)); [|destruct (on_wait (os p)) as [[]|]];
    intros He; repeat (apply elem_of_cons in He as [->|He]; [done|]);
    inversion He.
Qed.

Lemma shutdown_calls_terminate os p : EvTerminate p ∈ shutdown_calls os p.
Proof.
  unfold shutdown_calls.
  destruct (on_terminate (os p)); [|destruct (on_wait (os p)) as [[]|]];
    apply elem_of_cons; by left.
Qed.

(** ** Resolving a session *)

(** C4.  [get_or_create_process] returns the registered process of a
    session and starts none (only the session's time stamp changes); for a
    session with no process it calls [Popen] once and, when the process
    starts, registers the new process, a new lock and the time stamp, the
    process and the lock being objects no session had before; a launch that
    fails registers nothing.  After [terminate_process] has removed a
    session's process, the next call for that session starts a different
    process. *)
Theorem C4_get_or_create_process now launch session_id w :
  registry_ok w →
  (∀ p, processes w !! session_id = Some p →
     get_or_create_process now launch session_id w
     = (Ok p, set_last_activity <[session_id := now]> w))
  ∧ (processes w !! session_id = None → launch = None →
     ∃ w', get_or_create_process now launch session_id w = (Ok (next_pid w), w')
       ∧ trace w' = trace w ++ [EvPopen (excel_files_path w) (Some (next_pid w))]
       ∧ processes w' = <[session_id := next_pid w]> (processes w)
       ∧ process_locks w' = <[session_id := next_lock w]> (process_locks w)
       ∧ last_activity w' = <[session_id := now]> (last_activity w)
       ∧ (∀ sid, processes w !! sid ≠ Some (next_pid w))
       ∧ (∀ sid, process_locks w !! sid ≠ Some (next_lock w)))
  ∧ (processes w !! session_id = None → ∀ e, launch = Some e →
     get_or_create_process now launch session_id w
     = (Raise e, add_event (EvPopen (excel_files_path w) None) w))
  ∧ (∀ os p, processes w !! session_id = Some p → launch = None →
     ∃ p' w', get_or_create_process now launch session_id
                (terminate_process os session_id w).2 = (Ok p', w')
       ∧ p' ≠ p
       ∧ processes w' !! session_id = Some p'
       ∧ trace w' = trace w ++ shutdown_calls os p
                     ++ [EvPopen (excel_files_path w) (Some p')]).
Proof.
  intros (Ha & Hi & Hl). repeat split.
  - intros p Hp. by apply get_or_create_process_hit.
  - intros Hp ->. eexists. split; [by apply get_or_create_process_spawn|].
    cbn. repeat split; try done.
    + intros sid Hs. specialize (Ha _ _ Hs). lia.
    + intros sid Hs. specialize (Hl _ _ Hs). lia.
  - intros Hp e ->. by apply get_or_create_process_fail.
  - intros os p Hp ->. rewrite (terminate_process_hit _ _ _ _ Hp). cbn [snd].
    eexists _, _. split.
    + apply get_or_create_process_spawn. cbn. apply lookup_delete_eq.
    + cbn. repeat split.
      * specialize (Ha _ _ Hp). lia.
      * apply lookup_insert_eq.
      * by rewrite app_assoc.
Qed.

Lemma C4_witness :
  registry_ok (new_manager "/data")
  ∧ ∃ w', get_or_create_process 7 None "alice" (new_manager "/data") = (Ok 0%nat, w')
          ∧ processes w' !! "alice" = Some 0%nat
          ∧ get_or_create_process 9 None "alice" w'
            = (Ok 0%nat, set_last_activity <["alice" := 9%Z]> w').
Proof.
  split; [apply registry_ok_new|].
  destruct (C4_get_or_create_process 7 None "alice" (new_manager "/data")
              (registry_ok_new _)) as (_ & Hnew & _).
  destruct Hnew as (w' & Hrun & _ & Hp & _); [done|done|].
  exists w'. split; [exact Hrun|].
  assert (Hreg : processes w' !! "alice" = Some 0%nat).
  { rewrite Hp. apply lookup_insert_eq. }
  split; [exact Hreg|].
  assert (Hok : registry_ok w').
  { pose proof (registry_ok_get_or_create_process 7 None "alice" _
                  (registry_ok_new "/data")) as H.
    by rewrite Hrun in H. }
  destruct (C4_get_or_create_process 9 None "alice" w' Hok) as (Hhit & _).
  by apply Hhit.
Defined.

(** ** The idle reaper *)

(** C5.  One run of [cleanup_idle_processes] at time [now] never raises.
    Every session that has a process and whose last activity is more than
    300 before [now] loses its three entries, and its process gets the
    shutdown calls ([terminate()] first).  Every session whose last
    activity is at most 300 before [now], or that has no time stamp, keeps
    its process, lock and time stamp as they are, and no call is made on
    its process. *)
Theorem C5_cleanup_idle_processes os now w :
  (cleanup_idle_processes os now w).1 = Ok tt
  ∧ ∃ calls,
      trace (cleanup_idle_processes os now w).2 = trace w ++ calls
      ∧ (∀ sid p t,
           processes w !! sid = Some p → last_activity w !! sid = Some t →
           (now - t > 300)%Z →
           entries (cleanup_idle_processes os now w).2 sid = (None, None, None)
           ∧ EvTerminate p ∈ calls
           ∧ ∀ e, e ∈ shutdown_calls os p → e ∈ calls)
      ∧ (∀ sid,
           (∀ t, last_activity w !! sid = Some t → (now - t ≤ 300)%Z) →
           entries (cleanup_idle_processes os now w).2 sid = entries w sid
           ∧ ∀ p, one_session_per_process w → processes w !! sid = Some p →
                  ∀ e, e ∈ calls → event_pid e ≠ Some p).
Proof.
  destruct (cleanup_idle_processes_reaps os now w) as [Hr Hreaps].
  split; [done|].
  destruct Hreaps as (calls & Ht & _ & _ & _ & _ & Hsid & Hext).
  exists calls. split; [done|]. unfold idle_timeout in *. split.
  - intros sid p t Hp Hl Hidle.
    destruct (Hsid sid) as [[_ Hv]|(p' & _ & Hp' & He & Hc)].
    + assert (processes w !! sid = None) by (apply Hv; eauto). congruence.
    + assert (p' = p) as -> by congruence.
      split; [done|]. split; [|done]. apply Hc, shutdown_calls_terminate.
  - intros sid Hfresh.
    assert (Hnv : ¬ ∃ t, last_activity w !! sid = Some t ∧ (now - t > 300)%Z).
    { intros (t & Hl & Hidle). specialize (Hfresh _ Hl). lia. }
    split.
    + destruct (Hsid sid) as [[He _]|(p' & Hv & _)]; [done|]. by destruct Hnv.
    + intros p Hinj Hp e He Hpid.
      destruct (Hext e He) as (sid' & p' & Hv & Hp' & Hin).
      apply shutdown_calls_pid in Hin.
      assert (p' = p) as -> by congruence.
      assert (sid' = sid) as -> by eauto.
      by destruct Hnv.
Qed.

Lemma C5_witness :
  entries (cleanup_idle_processes stubborn 350 two_sessions).2 "old"
  = (None, None, None)
  ∧ entries (cleanup_idle_processes stubborn 350 two_sessions).2 "new"
    = entries two_sessions "new".
Proof.
  destruct (C5_cleanup_idle_processes stubborn 350 two_sessions)
    as (_ & calls & _ & Hidle & Hfresh).
  split.
  - refine (proj1 (Hidle "old" 0%nat 0%Z _ _ _)); [reflexivity|reflexivity|lia].
  - refine (proj1 (Hfresh "new" _)). intros t Ht.
    vm_compute in Ht. injection Ht as <-. lia.
Defined.

(** ** Shutting one session down *)

(** C8, as the code has it.  [terminate_process] never raises.  For a
    session with a process it calls [terminate()], then [wait(timeout=5)]
    if that returned, then [kill()] if the wait timed out; whatever these
    calls do, the session is afterwards in none of the three dictionaries
    and the other sessions are as before.  For a session with no process
    it does nothing at all: the manager is left as it is, so an entry that
    the session has in the lock or the time-stamp dictionary stays.  In
    all cases the session has no process afterwards, and a second call
    changes nothing. *)
Theorem C8_terminate_process os session_id w :
  (terminate_process os session_id w).1 = Ok tt
  ∧ (processes w !! session_id = None → (terminate_process os session_id w).2 = w)
  ∧ (∀ p, processes w !! session_id = Some p →
       entries (terminate_process os session_id w).2 session_id = (None, None, None)
       ∧ (∀ sid, sid ≠ session_id →
            entries (terminate_process os session_id w).2 sid = entries w sid)
       ∧ ∃ calls,
           trace (terminate_process os session_id w).2 = trace w ++ calls
           ∧ (on_terminate (os p) ≠ None → calls = [EvTerminate p])
           ∧ (on_terminate (os p) = None → on_wait (os p) = None →
                calls = [EvTerminate p; EvWait p 5])
           ∧ (on_terminate (os p) = None →
                (∃ msg, on_wait (os p) = Some (TimeoutExpired msg)) →
                calls = [EvTerminate p; EvWait p 5; EvKill p])
           ∧ (on_terminate (os p) = None →
                (∃ e, on_wait (os p) = Some e ∧ ∀ msg, e ≠ TimeoutExpired msg) →
                calls = [EvTerminate p; EvWait p 5]))
  ∧ processes (terminate_process os session_id w).2 !! session_id = None
  ∧ terminate_process os session_id (terminate_process os session_id w).2
    = (Ok tt, (terminate_process os session_id w).2).
Proof.
  destruct (processes w !! session_id) as [p|] eqn:Hp.
  - rewrite (terminate_process_hit _ _ _ _ Hp). cbn [fst snd].
    split; [done|]. split; [done|]. split; [|split].
    + intros ? [= <-]. split; [|split].
      * unfold entries. cbn. by rewrite !lookup_delete_eq.
      * intros sid Hne. unfold entries. cbn. by rewrite !lookup_delete_ne.
      * exists (shutdown_calls os p). split; [done|]. unfold shutdown_calls.
        repeat split.
        -- by destruct (on_terminate (os p)).
        -- by intros -> ->.
        -- by intros -> [msg ->].
        -- intros -> (e & -> & Hne). destruct e; try done. by destruct (Hne msg).
    + cbn. apply lookup_delete_eq.
    + apply terminate_process_miss. cbn. apply lookup_delete_eq.
  - rewrite (terminate_process_miss _ _ _ Hp). cbn [fst snd].
    repeat split; try done. by apply terminate_process_miss.
Qed.

Lemma C8_witness :
  entries (terminate_process stubborn "old" two_sessions).2 "old" = (None, None, None)
  ∧ entries (terminate_process stubborn "old" two_sessions).2 "new"
    = entries two_sessions "new".
Proof.
  destruct (C8_terminate_process stubborn "old" two_sessions) as (_ & _ & Hreg & _).
  destruct (Hreg 0%nat eq_refl) as (Hgone & Hrest & _).
  split; [exact Hgone|]. apply Hrest. discriminate.
Defined.

(** C8 as the specification states it fails for a session that has a lock and no
    process: [get_process_lock] makes such an entry, and
    [terminate_process] then leaves it in the lock dictionary. *)
Lemma C8_counterexample :
  ∃ w l, get_process_lock "s" (new_manager "/data") = (Ok l, w)
         ∧ terminate_process stubborn "s" w = (Ok tt, w)
         ∧ process_locks (terminate_process stubborn "s" w).2 !! "s" = Some l.
Proof.
  eexists _, _. split; [reflexivity|]. split; [reflexivity|]. reflexivity.
Qed.

(** ** The three dictionaries *)

Lemma in_step_reaps os V w w' : in_step w → reaps os V w w' → in_step w'.
Proof.
  intros Hw (extra & _ & _ & _ & _ & _ & Hsid & _) sid.
  destruct (Hsid sid) as [[He _]|(p & _ & _ & He & _)];
    unfold entries in He; injection He as -> -> ->.
  - apply Hw.
  - split; [split|]; intros [? ?]; done.
Qed.

Lemma in_step_run_op os o w : in_step w → in_step (run_op os o w).2.
Proof.
  intros Hw. destruct o as [sid now launch|sid|sid|now|]; cbn [run_op].
  - unfold bind. destruct (processes w !! sid) as [p|] eqn:Hp.
    + rewrite (get_or_create_process_hit _ _ _ _ _ Hp). cbn.
      intros sid'. cbn. destruct (Hw sid') as [H1 H2]. split; [|done].
      rewrite lookup_insert. case_decide as Hd; [subst sid'|done].
      rewrite Hp. split; eauto.
    + destruct launch as [e|].
      * rewrite (get_or_create_process_fail _ _ _ _ Hp). cbn. apply Hw.
      * rewrite (get_or_create_process_spawn _ _ _ Hp). cbn.
        intros sid'. cbn. destruct (Hw sid') as [H1 H2].
        rewrite !lookup_insert. case_decide; [|done].
        split; [split|]; intros _; by eexists.
  - unfold bind. destruct (process_locks w !! sid) as [l|] eqn:Hl.
    + rewrite (get_process_lock_hit _ _ _ Hl). cbn. apply Hw.
    + rewrite (get_process_lock_miss _ _ Hl). cbn.
      intros sid'. cbn. destruct (Hw sid') as [H1 H2]. split; [done|].
      rewrite lookup_insert. case_decide; eauto.
  - eapply in_step_reaps; [done|apply reaps_terminate_process].
  - eapply in_step_reaps; [done|apply cleanup_idle_processes_reaps].
  - destruct (terminate_all_reaps os w) as (_ & w1 & Hr & ->).
    pose proof (in_step_reaps _ _ _ _ Hw Hr). by destruct (cleanup_task w).
Qed.

Lemma in_step_new path : in_step (new_manager path).
Proof.
  intros sid. cbn. rewrite !lookup_empty. split; [split|]; intros [? ?]; done.
Qed.

Lemma in_step_run_ops os ops w : in_step w → in_step (run_ops os ops w).
Proof.
  revert w. induction ops as [|o rest IH]; intros w Hw; cbn; [done|].
  by apply IH, in_step_run_op.
Qed.

(** C9, as the code has it.  After any sequence of calls of
    [get_or_create_process], [get_process_lock], [terminate_process],
    [cleanup_idle_processes] and [terminate_all] on a new manager, the
    process dictionary and the time-stamp dictionary have the same keys,
    and each of these keys is a key of the lock dictionary. *)
Theorem C9_dictionaries_in_step os path ops :
  dom (processes (run_ops os ops (new_manager path)))
  = dom (last_activity (run_ops os ops (new_manager path)))
  ∧ dom (processes (run_ops os ops (new_manager path)))
    ⊆ dom (process_locks (run_ops os ops (new_manager path))).
Proof.
  pose proof (in_step_run_ops os ops _ (in_step_new path)) as Hstep.
  split.
  - apply set_eq. intros sid. rewrite !elem_of_dom. apply Hstep.
  - intros sid. rewrite !elem_of_dom. apply Hstep.
Qed.

(** C9 as the specification states it fails: [get_process_lock] gives a session that
    has no process a lock of its own. *)
Lemma C9_counterexample :
  "s" ∈ dom (process_locks (run_ops obedient [OpGetProcessLock "s"] (new_manager "/data")))
  ∧ "s" ∉ dom (processes (run_ops obedient [OpGetProcessLock "s"] (new_manager "/data"))).
Proof.
  rewrite !elem_of_dom. split.
  - exists 0%nat. reflexivity.
  - intros [p Hp]. discriminate Hp.
Qed.

(** ** WebSocket sessions and the reaper *)

Lemma ws_accept_registered uuid now launch w c w' :
  ws_accept uuid now launch w = (Ok c, w') →
  ws_session_id c = uuid
  ∧ processes w' !! uuid = Some (ws_process c)
  ∧ last_activity w' !! uuid = Some now.
Proof.
  unfold ws_accept, bind. destruct (processes w !! uuid) as [p|] eqn:Hp.
  - rewrite (get_or_create_process_hit _ _ _ _ _ Hp).
    destruct (process_locks w !! uuid) as [l|] eqn:Hl.
    + rewrite get_process_lock_hit with (l := l) by done.
      intros [= <- <-]. cbn. by rewrite lookup_insert_eq.
    + rewrite get_process_lock_miss by done.
      intros [= <- <-]. cbn. by rewrite lookup_insert_eq.
  - destruct launch as [e|].
    + by rewrite (get_or_create_process_fail _ _ _ _ Hp).
    + rewrite (get_or_create_process_spawn _ _ _ Hp).
      rewrite get_process_lock_hit with (l := next_lock w)
        by (cbn; apply lookup_insert_eq).
      intros [= <- <-]. cbn. by rewrite !lookup_insert_eq.
Qed.

(** C2, as the code has it.  The reaper treats a WebSocket session like
    any other.  A scan at time [now] leaves the session's entries as they
    are when its last activity is at most 300 before [now], and shuts its
    worker down and forgets the session when the last activity is more
    than 300 before [now], whether or not the connection is still open.
    The last activity is the time of the connection's opening, of the
    last frame received from the client, or of the last line forwarded to
    the client.  When the connection ends, the handler shuts the worker
    down and forgets the session if it is still registered. *)
Theorem C2_duplex_session_and_reaper os (c : WsConn) now w :
  (∀ t, last_activity w !! ws_session_id c = Some t → (now - t ≤ 300)%Z →
     entries (cleanup_idle_processes os now w).2 (ws_session_id c)
     = entries w (ws_session_id c))
  ∧ (∀ t, processes w !! ws_session_id c = Some (ws_process c) →
          last_activity w !! ws_session_id c = Some t → (now - t > 300)%Z →
     entries (cleanup_idle_processes os now w).2 (ws_session_id c) = (None, None, None)
     ∧ ∃ calls, trace (cleanup_idle_processes os now w).2 = trace w ++ calls
                ∧ EvTerminate (ws_process c) ∈ calls)
  ∧ (∀ uuid launch w0, ws_accept uuid now launch w0 = (Ok c, w) →
       processes w !! ws_session_id c = Some (ws_process c)
       ∧ last_activity w !! ws_session_id c = Some now)
  ∧ (∀ data write flush,
       last_activity (ws_on_message c data now write flush w).2 !! ws_session_id c
       = Some now)
  ∧ (∀ line, line ≠ "" →
       last_activity (ws_on_output c line now w).2 !! ws_session_id c = Some now)
  ∧ (ws_teardown os c w).1 = Ok tt
  ∧ processes (ws_teardown os c w).2 !! ws_session_id c = None
  ∧ (processes w !! ws_session_id c = Some (ws_process c) →
       entries (ws_teardown os c w).2 (ws_session_id c) = (None, None, None)
       ∧ trace (ws_teardown os c w).2 = trace w ++ shutdown_calls os (ws_process c)).
Proof.
  destruct (cleanup_idle_processes_reaps os now w) as [_ Hreaps].
  destruct Hreaps as (calls & Ht & _ & _ & _ & _ & Hsid & _).
  unfold idle_timeout in *. split_and!.
  - intros t Hl Hfresh.
    destruct (Hsid (ws_session_id c)) as [[He _]|(p & (t' & Hl' & Hidle) & _)]; [done|].
    assert (t' = t) by congruence. lia.
  - intros t Hp Hl Hidle.
    destruct (Hsid (ws_session_id c)) as [[_ Hv]|(p & _ & Hp' & He & Hc)].
    + assert (processes w !! ws_session_id c = None) by (apply Hv; eauto). congruence.
    + split; [done|]. exists calls. split; [done|].
      assert (p = ws_process c) as -> by congruence.
      apply Hc, shutdown_calls_terminate.
  - intros uuid launch w0 Hacc.
    apply ws_accept_registered in Hacc as (<- & Hp & Hl). done.
  - intros data write flush.
    unfold ws_on_message, with_lock, stdin_write, stdin_flush, call, bind, modify, ret, raise.
    cbn. destruct write; cbn; [by rewrite lookup_insert_eq|].
    destruct flush; cbn; by rewrite lookup_insert_eq.
  - intros line Hline.
    unfold ws_on_output, stdout_readline, bind, modify, ret. cbv beta iota.
    destruct (decide (line = "")); [done|]. cbn. by rewrite lookup_insert_eq.
  - apply terminate_process_ok.
  - unfold ws_teardown. destruct (processes w !! ws_session_id c) eqn:Hp.
    + rewrite (terminate_process_hit _ _ _ _ Hp). cbn. apply lookup_delete_eq.
    + by rewrite (terminate_process_miss _ _ _ Hp).
  - intros Hp. unfold ws_teardown. rewrite (terminate_process_hit _ _ _ _ Hp).
    unfold entries. cbn. by rewrite !lookup_delete_eq.
Qed.

Lemma C2_witness :
  entries (cleanup_idle_processes stubborn 300 ws_world).2 "ws-1"
  = entries ws_world "ws-1".
Proof.
  refine (proj1 (C2_duplex_session_and_reaper stubborn ws_conn 300 ws_world) 0%Z _ _);
    [reflexivity|lia].
Defined.

(** C2 as the specification states it fails: a connection opened at time 0 and left
    silent loses its worker to the scan at time 301, with no teardown of
    the connection in between. *)
Lemma C2_counterexample :
  ∃ c w,
    ws_accept "ws-1" 0 None (new_manager "/data") = (Ok c, w)
    ∧ processes w !! "ws-1" = Some (ws_process c)
    ∧ processes (cleanup_idle_processes stubborn 301 w).2 !! "ws-1" = None
    ∧ trace (cleanup_idle_processes stubborn 301 w).2
      = trace w ++ [EvTerminate (ws_process c); EvWait (ws_process c) 5;
                    EvKill (ws_process c)].
Proof.
  eexists _, _. split; [reflexivity|]. split; [reflexivity|].
  split; vm_compute; reflexivity.
Qed.

(** ** One unary exchange, path by path *)

Ltac same_world :=
  unfold forget, add_events, add_event, set_last_activity, set_processes,
    set_process_locks, alloc_pid, alloc_lock;
  cbn; rewrite <- ?app_assoc; reflexivity.

Ltac run_exchange :=
  unfold exchange, try_except, with_lock, stdin_write, stdin_flush,
    stdout_readline, call, bind, modify, ret, raise, lift;
  cbv beta iota.

Section Unary.
Context `{PyRuntime}.

Lemma exchange_write_raises os sid p l body io w e :
  on_write io = Some e → processes w !! sid = Some p →
  exchange os sid p l body io w
  = (Raise (HTTPException 500 ("Error processing request: " +:+ str_exn e)),
     forget sid ([EvAcquire l; EvWrite p (body +:+ newline); EvRelease l]
                 ++ shutdown_calls os p) w).
Proof.
  intros Hw Hp. run_exchange. rewrite Hw. cbv beta iota.
  rewrite terminate_process_hit with (p := p) by exact Hp.
  cbv beta iota. same_world.
Qed.

Lemma exchange_flush_raises os sid p l body io w e :
  on_write io = None → on_flush io = Some e → processes w !! sid = Some p →
  exchange os sid p l body io w
  = (Raise (HTTPException 500 ("Error processing request: " +:+ str_exn e)),
     forget sid ([EvAcquire l; EvWrite p (body +:+ newline); EvFlush p; EvRelease l]
                 ++ shutdown_calls os p) w).
Proof.
  intros Hw Hf Hp. run_exchange. rewrite Hw, Hf. cbv beta iota.
  rewrite terminate_process_hit with (p := p) by exact Hp.
  cbv beta iota. same_world.
Qed.

Lemma exchange_read_raises os sid p l body io w e :
  on_write io = None → on_flush io = None → on_readline io = Raise e →
  processes w !! sid = Some p →
  exchange os sid p l body io w
  = (Raise (HTTPException 500 ("Error processing request: " +:+ str_exn e)),
     forget sid ([EvAcquire l; EvWrite p (body +:+ newline); EvFlush p;
                  EvReadline p; EvRelease l] ++ shutdown_calls os p) w).
Proof.
  intros Hw Hf Hr Hp. run_exchange. rewrite Hw, Hf, Hr. cbv beta iota.
  rewrite terminate_process_hit with (p := p) by exact Hp.
  cbv beta iota. same_world.
Qed.

Lemma exchange_eof os sid p l body io w :
  on_write io = None → on_flush io = None → on_readline io = Ok "" →
  processes w !! sid = Some p →
  exchange os sid p l body io w
  = (Raise (HTTPException 500
              ("Error processing request: "
               +:+ str_HTTPException 500 "Subprocess terminated unexpectedly")),
     forget sid ([EvAcquire l; EvWrite p (body +:+ newline); EvFlush p;
                  EvReadline p] ++ shutdown_calls os p ++ [EvRelease l]) w).
Proof.
  intros Hw Hf Hr Hp. run_exchange. rewrite Hw, Hf, Hr. cbv beta iota.
  rewrite decide_True by done.
  rewrite terminate_process_hit with (p := p) by exact Hp.
  cbv beta iota.
  rewrite terminate_process_miss by (cbn; apply lookup_delete_eq).
  cbv beta iota. same_world.
Qed.

Lemma exchange_line os sid p l body io w line :
  on_write io = None → on_flush io = None → on_readline io = Ok line →
  line ≠ "" → processes w !! sid = Some p →
  exchange os sid p l body io w
  = match response_for sid line with
    | Ok resp =>
        (Ok resp,
         add_events [EvAcquire l; EvWrite p (body +:+ newline); EvFlush p;
                     EvReadline p; EvRelease l] w)
    | Raise e =>
        (Raise (HTTPException 500 ("Error processing request: " +:+ str_exn e)),
         forget sid ([EvAcquire l; EvWrite p (body +:+ newline); EvFlush p;
                      EvReadline p; EvRelease l] ++ shutdown_calls os p) w)
    end.
Proof.
  intros Hw Hf Hr Hline Hp. run_exchange. rewrite Hw, Hf, Hr. cbv beta iota.
  rewrite decide_False by done.
  destruct (response_for sid line) as [resp|e]; cbv beta iota.
  - same_world.
  - rewrite terminate_process_hit with (p := p) by exact Hp.
    cbv beta iota. same_world.
Qed.

(** Lines 164-165, when the worker is there or starts. *)
Lemma resolve_ok now launch sid w :
  is_Some (processes w !! sid) ∨ launch = None →
  ∃ p l w1,
    resolve now launch sid w = (Ok (p, l), w1)
    ∧ processes w1 !! sid = Some p
    ∧ last_activity w1 !! sid = Some now
    ∧ (∀ p0, processes w !! sid = Some p0 →
         p = p0 ∧ trace w1 = trace w ∧ next_pid w1 = next_pid w
         ∧ processes w1 = processes w)
    ∧ (processes w !! sid = None →
         p = next_pid w ∧ l = next_lock w
         ∧ process_locks w1 !! sid = Some l
         ∧ trace w1 = trace w ++ [EvPopen (excel_files_path w) (Some p)])
    ∧ (registry_ok w → registry_ok w1)
    ∧ (next_pid w ≤ next_pid w1)%nat.
Proof.
  intros Hres. unfold resolve, bind.
  destruct (processes w !! sid) as [p|] eqn:Hp.
  - rewrite (get_or_create_process_hit _ _ _ _ _ Hp).
    destruct (process_locks w !! sid) as [l|] eqn:Hl.
    + rewrite get_process_lock_hit with (l := l) by done.
      eexists p, l, _. split; [done|]. cbn.
      rewrite lookup_insert_eq. split_and!; try done.
      by intros ? [= <-].
    + rewrite get_process_lock_miss by done.
      eexists p, _, _. split; [done|]. cbn.
      rewrite lookup_insert_eq. split_and!; try done.
      * by intros ? [= <-].
      * intros Hok.
        pose proof (registry_ok_get_process_lock sid
                      (set_last_activity <[sid:=now]> w)) as Hgl.
        rewrite get_process_lock_miss in Hgl by done. apply Hgl.
        by apply (registry_ok_same_processes w).
  - destruct Hres as [[? ?]| ->]; [done|].
    rewrite (get_or_create_process_spawn _ _ _ Hp).
    rewrite get_process_lock_hit with (l := next_lock w)
      by (cbn; apply lookup_insert_eq).
    eexists _, _, _. split; [done|]. cbn.
    rewrite !lookup_insert_eq. split_and!; try done.
    + intros Hok.
      pose proof (registry_ok_get_or_create_process now None sid w Hok) as Hg.
      by rewrite (get_or_create_process_spawn _ _ _ Hp) in Hg.
    + lia.
Qed.

Lemma handle_request_resolved os header uuid body now launch io w p l w1 :
  resolve now launch (default uuid header) w = (Ok (p, l), w1) →
  handle_request os header uuid body now launch io w
  = exchange os (default uuid header) p l body io w1.
Proof.
  unfold resolve, handle_request, bind.
  destruct (get_or_create_process _ _ _ w) as [[p'|e] w2]; [|done].
  destruct (get_process_lock _ w2) as [[l'|e] w3]; [|done].
  by intros [= -> -> ->].
Qed.

Lemma writes_of_app a b : writes_of (a ++ b) = writes_of a ++ writes_of b.
Proof. apply omap_app. Qed.

Lemma launches_of_app a b : launches_of (a ++ b) = launches_of a ++ launches_of b.
Proof. apply omap_app. Qed.

Lemma shutdown_calls_quiet os p :
  writes_of (shutdown_calls os p) = [] ∧ launches_of (shutdown_calls os p) = [].
Proof.
  unfold shutdown_calls.
  destruct (on_terminate (os p)); [|destruct (on_wait (os p)) as [[]|]]; done.
Qed.

(** C3.  When the exchange of a unary request fails (a write or the flush
    raises, or the read raises or hits the end of the stream), the handler
    raises [HTTPException] with status 500; the session's worker has got
    the shutdown calls and the session is in none of the dictionaries; the
    request body was written once and no process was started after the
    failure, so nothing was retried.  The session id stays usable: the
    next request with it whose exchange goes through is answered, by a
    worker that is a different process. *)
Theorem C3_failed_exchange os header uuid body now launch io w :
  registry_ok w →
  is_Some (processes w !! default uuid header) ∨ launch = None →
  exchange_fails io →
  ∃ p l w1 detail calls,
    resolve now launch (default uuid header) w = (Ok (p, l), w1)
    ∧ handle_request os header uuid body now launch io w
      = (Raise (HTTPException 500 detail), forget (default uuid header) calls w1)
    ∧ client_status (handle_request os header uuid body now launch io w).1 = 500%Z
    ∧ entries (handle_request os header uuid body now launch io w).2
        (default uuid header) = (None, None, None)
    ∧ EvTerminate p ∈ calls
    ∧ (∀ e, e ∈ shutdown_calls os p → e ∈ calls)
    ∧ writes_of calls = [(p, body +:+ newline)]
    ∧ launches_of calls = []
    ∧ ∀ uuid' body' now' io' line resp,
        on_write io' = None → on_flush io' = None → on_readline io' = Ok line →
        line ≠ "" → response_for (default uuid header) line = Ok resp →
        ∃ p' w2,
          handle_request os (Some (default uuid header)) uuid' body' now' None io'
            (forget (default uuid header) calls w1) = (Ok resp, w2)
          ∧ processes w2 !! default uuid header = Some p'
          ∧ p' ≠ p.
Proof.
  intros Hok Hres Hfail. unfold exchange_fails in Hfail.
  destruct (resolve_ok now launch (default uuid header) w Hres)
    as (p & l & w1 & Hr & Hp1 & _ & _ & _ & Hok1 & _).
  specialize (Hok1 Hok).
  rewrite (handle_request_resolved _ _ _ _ _ _ _ _ _ _ _ Hr).
  assert (Hex : ∃ detail calls,
    exchange os (default uuid header) p l body io w1
    = (Raise (HTTPException 500 detail), forget (default uuid header) calls w1)
    ∧ (∀ e, e ∈ shutdown_calls os p → e ∈ calls)
    ∧ writes_of calls = [(p, body +:+ newline)]
    ∧ launches_of calls = []).
  { destruct (shutdown_calls_quiet os p) as [Hq1 Hq2].
    destruct (on_write io) as [e|] eqn:Hw.
    { eexists _, _. split; [by apply exchange_write_raises|].
      rewrite writes_of_app, launches_of_app, Hq1, Hq2. split_and!; try done.
      intros e' He'. apply elem_of_app. by right. }
    destruct (on_flush io) as [e|] eqn:Hf.
    { eexists _, _. split; [by apply exchange_flush_raises|].
      rewrite writes_of_app, launches_of_app, Hq1, Hq2. split_and!; try done.
      intros e' He'. apply elem_of_app. by right. }
    destruct (on_readline io) as [line|e] eqn:Hrd.
    - destruct Hfail as [?|[?|[Hl|[e He]]]]; try done.
      injection Hl as ->.
      eexists _, _. split; [by apply exchange_eof|].
      rewrite writes_of_app, launches_of_app, writes_of_app, launches_of_app, Hq1, Hq2.
      split_and!; try done.
      intros e' He'. apply elem_of_app. right. apply elem_of_app. by left.
    - eexists _, _. split; [by apply exchange_read_raises|].
      rewrite writes_of_app, launches_of_app, Hq1, Hq2. split_and!; try done.
      intros e' He'. apply elem_of_app. by right. }
  destruct Hex as (detail & calls & Hex & Hcalls & Hwr & Hla).
  exists p, l, w1, detail, calls. rewrite Hex. cbn [fst snd client_status].
  split_and!; try done.
  - unfold entries. cbn. by rewrite !lookup_delete_eq.
  - apply Hcalls, shutdown_calls_terminate.
  - intros uuid' body' now' io' line resp Hw' Hf' Hr' Hline Hresp.
    set (w' := forget (default uuid header) calls w1).
    assert (Hgone : processes w' !! default uuid header = None).
    { cbn. apply lookup_delete_eq. }
    destruct (resolve_ok now' None (default uuid header) w' (or_intror eq_refl))
      as (p' & l' & w2 & Hr2 & Hp2 & _ & _ & Hnew & _).
    destruct (Hnew Hgone) as (-> & _).
    pose proof (handle_request_resolved os (Some (default uuid header)) uuid' body'
                  now' None io' w' _ _ _ Hr2) as Hh.
    change (default uuid' (Some (default uuid header)))
      with (default uuid header) in Hh.
    rewrite Hh.
    rewrite (exchange_line _ _ _ _ _ _ _ line) by done. rewrite Hresp.
    eexists _, _. split; [done|]. split; [exact Hp2|].
    destruct Hok1 as (Ha & _). specialize (Ha _ _ Hp1). cbn. lia.
Qed.

End Unary.

Lemma C3_witness :
  registry_ok (new_manager "/data")
  ∧ exchange_fails (mkUnaryIO None None (Ok ""))
  ∧ ∃ detail w',
      handle_request stubborn (Some "alice") "uuid-1" "{}" 3 None
        (mkUnaryIO None None (Ok "")) (new_manager "/data")
      = (Raise (HTTPException 500 detail), w')
      ∧ entries w' "alice" = (None, None, None).
Proof.
  assert (Hf : exchange_fails (mkUnaryIO None None (Ok ""))).
  { right. right. left. reflexivity. }
  split; [apply registry_ok_new|]. split; [exact Hf|].
  destruct (C3_failed_exchange stubborn (Some "alice") "uuid-1" "{}" 3 None
              (mkUnaryIO None None (Ok "")) (new_manager "/data")
              (registry_ok_new _) (or_intror eq_refl) Hf)
    as (p & l & w1 & detail & calls & _ & Hrun & _ & Hent & _).
  exists detail, (forget "alice" calls w1). split; [exact Hrun|].
  rewrite Hrun in Hent. exact Hent.
Defined.

(** ** The answer to a unary request *)

Section UnaryAnswer.
Context `{PyRuntime}.

Lemma response_for_cases sid line resp :
  response_for sid line = Ok resp →
  utf8_valid line = true
  ∧ ((∃ v, json_loads line = Ok v
           ∧ resp = mkResponse 200 (json_dumps v) (Some "application/json")
                      [("X-Session-ID", sid)])
     ∨ (∃ msg, json_loads line = Raise (JSONDecodeError msg)
               ∧ resp = mkResponse 200 line None [("X-Session-ID", sid)])).
Proof.
  unfold response_for, decode_utf8.
  destruct (utf8_valid line); [|done].
  destruct (json_loads line) as [v|[]]; try done.
  - intros [= <-]. split; [done|]. left. eauto.
  - intros [= <-]. split; [done|]. right. eauto.
Qed.

(** The handler answers only after a complete exchange. *)
Lemma handle_request_answer os header uuid body now launch io w resp w' :
  handle_request os header uuid body now launch io w = (Ok resp, w') →
  ∃ line, on_write io = None ∧ on_flush io = None ∧ on_readline io = Ok line
          ∧ line ≠ "" ∧ response_for (default uuid header) line = Ok resp
          ∧ last_activity w' !! default uuid header = Some now.
Proof.
  intros Hrun.
  assert (Hres : is_Some (processes w !! default uuid header) ∨ launch = None).
  { destruct (processes w !! default uuid header) as [p|] eqn:Hp; [left; eauto|].
    destruct launch as [e|]; [|by right].
    unfold handle_request, bind in Hrun.
    by rewrite (get_or_create_process_fail _ _ _ _ Hp) in Hrun. }
  destruct (resolve_ok now launch _ w Hres)
    as (p & l & w1 & Hr & Hp1 & Hl1 & _).
  rewrite (handle_request_resolved _ _ _ _ _ _ _ _ _ _ _ Hr) in Hrun.
  destruct (on_write io) as [e|] eqn:Hw.
  { by rewrite (exchange_write_raises _ _ _ _ _ _ _ _ Hw Hp1) in Hrun. }
  destruct (on_flush io) as [e|] eqn:Hf.
  { by rewrite (exchange_flush_raises _ _ _ _ _ _ _ _ Hw Hf Hp1) in Hrun. }
  destruct (on_readline io) as [line|e] eqn:Hrd.
  2: { by rewrite (exchange_read_raises _ _ _ _ _ _ _ _ Hw Hf Hrd Hp1) in Hrun. }
  destruct (decide (line = "")) as [->|Hline].
  { by rewrite (exchange_eof _ _ _ _ _ _ _ Hw Hf Hrd Hp1) in Hrun. }
  rewrite (exchange_line _ _ _ _ _ _ _ _ Hw Hf Hrd Hline Hp1) in Hrun.
  destruct (response_for _ line) as [resp'|e] eqn:Hresp; [|done].
  injection Hrun as <- <-. exists line. by split_and!.
Qed.

(** C6, as the code has it.  A unary request that is answered gets
    status 200 and the header [X-Session-ID] with the session id (the
    request's header, or the generated id when it has none).  The worker's
    line was not empty and is valid UTF-8, and the body is: when the line
    parses as JSON, the value printed again by [json.dumps], with content
    type [application/json]; when [json.loads] raises [JSONDecodeError],
    the line's bytes as they are, with no content type set.  Conversely a
    complete exchange with such a line is answered in that way. *)
Theorem C6_unary_response os header uuid body now launch io w :
  (∀ resp w',
     handle_request os header uuid body now launch io w = (Ok resp, w') →
     status resp = 200%Z
     ∧ headers resp = [("X-Session-ID", default uuid header)]
     ∧ ∃ line,
         on_readline io = Ok line ∧ line ≠ "" ∧ utf8_valid line = true
         ∧ ((∃ v, json_loads line = Ok v
                  ∧ media_type resp = Some "application/json"
                  ∧ content resp = json_dumps v)
            ∨ (∃ msg, json_loads line = Raise (JSONDecodeError msg)
                      ∧ media_type resp = None
                      ∧ content resp = line)))
  ∧ (∀ line,
       is_Some (processes w !! default uuid header) ∨ launch = None →
       on_write io = None → on_flush io = None → on_readline io = Ok line →
       line ≠ "" → utf8_valid line = true →
       (∀ v, json_loads line = Ok v →
          (handle_request os header uuid body now launch io w).1
          = Ok (mkResponse 200 (json_dumps v) (Some "application/json")
                  [("X-Session-ID", default uuid header)]))
       ∧ (∀ msg, json_loads line = Raise (JSONDecodeError msg) →
          (handle_request os header uuid body now launch io w).1
          = Ok (mkResponse 200 line None
                  [("X-Session-ID", default uuid header)]))).
Proof.
  split.
  - intros resp w' Hrun.
    destruct (handle_request_answer _ _ _ _ _ _ _ _ _ _ Hrun)
      as (line & _ & _ & Hrd & Hline & Hresp & _).
    destruct (response_for_cases _ _ _ Hresp) as [Hutf [(v & Hv & ->)|(msg & Hm & ->)]].
    + split; [done|]. split; [done|]. exists line. split_and!; try done.
      left. exists v. done.
    + split; [done|]. split; [done|]. exists line. split_and!; try done.
      right. exists msg. done.
  - intros line Hres Hw Hf Hrd Hline Hutf.
    destruct (resolve_ok now launch _ w Hres) as (p & l & w1 & Hr & Hp1 & _).
    rewrite (handle_request_resolved _ _ _ _ _ _ _ _ _ _ _ Hr).
    rewrite (exchange_line _ _ _ _ _ _ _ _ Hw Hf Hrd Hline Hp1).
    unfold response_for, decode_utf8. rewrite Hutf. split.
    + intros v ->. done.
    + intros msg ->. done.
Qed.

End UnaryAnswer.

Lemma C6_witness :
  (handle_request obedient (Some "alice") "uuid-1" "{}" 3 None
     (mkUnaryIO None None (Ok ("17" +:+ newline))) (new_manager "/data")).1
  = Ok (mkResponse 200 "17" (Some "application/json") [("X-Session-ID", "alice")]).
Proof.
  destruct (C6_unary_response obedient (Some "alice") "uuid-1" "{}" 3 None
              (mkUnaryIO None None (Ok ("17" +:+ newline))) (new_manager "/data"))
    as [_ Hanswer].
  refine (proj1 (Hanswer ("17" +:+ newline) (or_intror eq_refl) eq_refl eq_refl
                   eq_refl _ eq_refl) 17%Z eq_refl).
  discriminate.
Defined.

(** C6 as the specification states it fails: the worker answers the line [17]
    followed by a newline; it parses as JSON, and the body is [17] without
    the newline, not the worker's line. *)
Lemma C6_counterexample :
  ∃ resp w',
    handle_request obedient (Some "alice") "uuid-1" "{}" 3 None
      (mkUnaryIO None None (Ok ("17" +:+ newline))) (new_manager "/data")
    = (Ok resp, w')
    ∧ media_type resp = Some "application/json"
    ∧ content resp = "17"
    ∧ content resp ≠ "17" +:+ newline.
Proof.
  eexists _, _. split; [vm_compute; reflexivity|]. cbn. split_and!; done.
Qed.

(** ** One streamed exchange *)

Lemma touched_cons sid line now rest m :
  touched sid ((line, now) :: rest) m = touched sid rest (<[sid := now]> m).
Proof.
  unfold touched. destruct rest as [|[l2 t2] rest'] using rev_ind.
  - done.
  - rewrite app_comm_cons, !last_snoc. by rewrite insert_insert_eq.
Qed.

Lemma read_lines_spec sid p lines ending w :
  read_lines sid p lines ending w
  = ((if stops_early lines then Ok tt
      else match ending with None => Ok tt | Some e => Raise e end),
     mkWorld (processes w) (process_locks w)
       (touched sid (lines_read lines) (last_activity w))
       (excel_files_path w) (cleanup_task w) (next_pid w) (next_lock w)
       (trace w ++ loop_events p lines)).
Proof.
  revert w. induction lines as [|[line now] rest IH]; intros w.
  - cbn. unfold stdout_readline, bind, modify, ret, raise.
    destruct ending; cbv beta iota; destruct w; reflexivity.
  - cbn [read_lines lines_read stops_early]. unfold stdout_readline, bind, modify, ret.
    cbv beta iota. destruct (decide (line = "")) as [->|Hline].
    + destruct w; reflexivity.
    + rewrite IH. rewrite touched_cons. f_equal. unfold loop_events. cbn.
      rewrite decide_False by done. cbn. f_equal. by rewrite <- !app_assoc.
Qed.

Section Streaming.
Context `{PyRuntime}.

Lemma response_generator_spec os sid p l body io w :
  processes w !! sid = Some p →
  response_generator os sid p l body io w
  = (Ok tt,
     match stream_raises io with
     | None =>
         mkWorld (processes w) (process_locks w)
           (touched sid (stream_lines io) (last_activity w))
           (excel_files_path w) (cleanup_task w) (next_pid w) (next_lock w)
           (trace w ++ stream_events p l body io)
     | Some e =>
         forget sid (stream_events p l body io ++ shutdown_calls os p
                     ++ [EvYield ("Error: " +:+ str_exn e)]) w
     end).
Proof.
  intros Hp.
  unfold response_generator, stream_raises, stream_lines, stream_events,
    try_except, with_lock, stdin_write, stdin_flush, call, bind, modify, ret, raise.
  cbv beta iota.
  destruct (s_on_write io) as [e|]; cbv beta iota.
  { rewrite terminate_process_hit with (p := p) by exact Hp. same_world. }
  destruct (s_on_flush io) as [e|]; cbv beta iota.
  { rewrite terminate_process_hit with (p := p) by exact Hp. same_world. }
  rewrite read_lines_spec.
  destruct (stops_early (s_lines io)); cbv beta iota.
  { same_world. }
  destruct (s_ending io) as [e|]; cbv beta iota.
  - rewrite terminate_process_hit with (p := p) by exact Hp.
    unfold forget, add_event. cbn. rewrite <- ?app_assoc. cbn. f_equal. f_equal.
    unfold touched. destruct (last _) as [[? ?]|]; [|done].
    apply delete_insert_eq.
  - same_world.
Qed.

Lemma response_generator_ok os sid p l body io w :
  (response_generator os sid p l body io w).1 = Ok tt.
Proof.
  unfold response_generator, try_except.
  destruct (with_lock _ _ w) as [[[]|e] w1]; [done|].
  unfold bind, modify, ret.
  pose proof (terminate_process_ok os sid w1) as Hok.
  destruct (terminate_process os sid w1) as [[[]|e'] w2]; done.
Qed.

Lemma serve_stream_resolved os header uuid body now launch io w p l w1 :
  resolve now launch (default uuid header) w = (Ok (p, l), w1) →
  serve_stream os header uuid body now launch io w
  = (Ok (mkStreamingResponse 200 "application/jsonl"
           [("X-Session-ID", default uuid header)]
           (response_generator os (default uuid header) p l body)),
     (response_generator os (default uuid header) p l body io w1).2).
Proof.
  unfold resolve, serve_stream, handle_stream_request, bind, ret.
  destruct (get_or_create_process _ _ _ w) as [[p'|e] w2]; [|done].
  destruct (get_process_lock _ w2) as [[l'|e] w3]; [|done].
  intros [= -> -> ->]. cbn [stream_generator].
  pose proof (response_generator_ok os (default uuid header) p l body io w1) as Hok.
  destruct (response_generator _ _ _ _ _ _ w1) as [[[]|e] w4]; done.
Qed.

Lemma chunks_of_app a b : chunks_of (a ++ b) = chunks_of a ++ chunks_of b.
Proof. apply omap_app. Qed.

Lemma chunks_of_shutdown_calls os p : chunks_of (shutdown_calls os p) = [].
Proof.
  unfold shutdown_calls.
  destruct (on_terminate (os p)); [|destruct (on_wait (os p)) as [[]|]]; done.
Qed.

Lemma chunks_of_loop_events p lines :
  chunks_of (loop_events p lines) = (lines_read lines).*1.
Proof.
  unfold loop_events. rewrite chunks_of_app. cbn. rewrite app_nil_r.
  unfold chunks_of.
  induction (lines_read lines) as [|[line now] rest IH]; [done|].
  cbn. f_equal. exact IH.
Qed.

Lemma chunks_of_stream_events p l body io :
  chunks_of (stream_events p l body io) = (stream_lines io).*1.
Proof.
  unfold stream_events, stream_lines.
  destruct (s_on_write io); [done|]. destruct (s_on_flush io); [done|].
  cbn. rewrite chunks_of_app, chunks_of_loop_events. cbn. by rewrite app_nil_r.
Qed.

Lemma stream_events_no_shutdown p l body io e :
  e ∈ stream_events p l body io → ¬ is_shutdown_call e.
Proof.
  unfold stream_events, loop_events. intros He.
  repeat (apply elem_of_cons in He as [->|He]; [by intros []|]).
  destruct (s_on_write io).
  { repeat (apply elem_of_cons in He as [->|He]; [by intros []|]). inversion He. }
  apply elem_of_cons in He as [->|He]; [by intros []|].
  destruct (s_on_flush io).
  { repeat (apply elem_of_cons in He as [->|He]; [by intros []|]). inversion He. }
  rewrite !elem_of_app in He. destruct He as [[He|He]|He].
  - induction (lines_read (s_lines io)) as [|[line now] rest IH]; [inversion He|].
    cbn in He. repeat (apply elem_of_cons in He as [->|He]; [by intros []|]). auto.
  - repeat (apply elem_of_cons in He as [->|He]; [by intros []|]). inversion He.
  - repeat (apply elem_of_cons in He as [->|He]; [by intros []|]). inversion He.
Qed.

End Streaming.

Section StreamingClaims.
Context `{PyRuntime}.

(** C10.  The stream handler always answers with status 200 and a body
    that the generator produces.  If the write, the flush or a read
    raises inside the generator, the generator makes the shutdown calls on
    the session's worker, the session is then in none of the dictionaries,
    and the body ends with one more chunk: the bytes [Error: ] followed by
    the exception's message, after the lines read so far.  If the loop is
    left at an empty read, the body is the lines read and nothing else, no
    shutdown call is made, and the worker stays registered. *)
Theorem C10_stream_errors os header uuid body now launch io w :
  is_Some (processes w !! default uuid header) ∨ launch = None →
  ∃ p l w1 resp new,
    resolve now launch (default uuid header) w = (Ok (p, l), w1)
    ∧ (serve_stream os header uuid body now launch io w).1 = Ok resp
    ∧ stream_status resp = 200%Z
    ∧ trace (serve_stream os header uuid body now launch io w).2 = trace w1 ++ new
    ∧ (∀ e, stream_raises io = Some e →
         entries (serve_stream os header uuid body now launch io w).2
           (default uuid header) = (None, None, None)
         ∧ chunks_of new = (stream_lines io).*1 ++ ["Error: " +:+ str_exn e]
         ∧ ∃ before,
             new = before ++ shutdown_calls os p
                   ++ [EvYield ("Error: " +:+ str_exn e)]
             ∧ (∀ c, c ∈ before → ¬ is_shutdown_call c))
    ∧ (stream_raises io = None →
         processes (serve_stream os header uuid body now launch io w).2
           !! default uuid header = Some p
         ∧ chunks_of new = (stream_lines io).*1
         ∧ ∀ c, c ∈ new → ¬ is_shutdown_call c).
Proof.
  intros Hres.
  destruct (resolve_ok now launch _ w Hres) as (p & l & w1 & Hr & Hp1 & _).
  rewrite (serve_stream_resolved _ _ _ _ _ _ io _ _ _ _ Hr).
  rewrite (response_generator_spec _ _ _ _ _ _ _ Hp1). cbn [fst snd].
  destruct (stream_raises io) as [e|]; cbn [trace forget];
    eexists p, l, w1, _, _; (split; [done|]); (split; [done|]); (split; [done|]).
  - split; [reflexivity|]. split; [|done].
    intros ? [= <-]. split_and!.
    + unfold entries. cbn. by rewrite !lookup_delete_eq.
    + rewrite !chunks_of_app, chunks_of_stream_events, chunks_of_shutdown_calls. done.
    + exists (stream_events p l body io). split; [done|].
      apply stream_events_no_shutdown.
  - split; [reflexivity|]. split; [done|].
    intros _. split_and!.
    + done.
    + apply chunks_of_stream_events.
    + apply stream_events_no_shutdown.
Qed.



End StreamingClaims.

Lemma C10_witness :
  stream_raises
    (mkStreamIO None None [("one" +:+ newline, 4%Z)] (Some (Error "Broken pipe")))
  = Some (Error "Broken pipe")
  ∧ entries
      (serve_stream stubborn (Some "alice") "uuid-1" "{}" 3 None
         (mkStreamIO None None [("one" +:+ newline, 4%Z)] (Some (Error "Broken pipe")))
         (new_manager "/data")).2 "alice"
    = (None, None, None).
Proof.
  assert (Hraises : stream_raises
            (mkStreamIO None None [("one" +:+ newline, 4%Z)] (Some (Error "Broken pipe")))
          = Some (Error "Broken pipe")) by reflexivity.
  split; [exact Hraises|].
  destruct (C10_stream_errors stubborn (Some "alice") "uuid-1" "{}" 3 None
              (mkStreamIO None None [("one" +:+ newline, 4%Z)] (Some (Error "Broken pipe")))
              (new_manager "/data") (or_intror eq_refl))
    as (p & l & w1 & resp & new & _ & _ & _ & _ & Herr & _).
  exact (proj1 (Herr _ Hraises)).
Defined.


(** ** Concurrent requests: what stays true at every step *)

Lemma shrinks_refl w : shrinks w w.
Proof. repeat split. intros sid. by left. Qed.

Lemma shrinks_same w w' :
  processes w' = processes w → process_locks w' = process_locks w →
  next_pid w' = next_pid w → next_lock w' = next_lock w → shrinks w w'.
Proof. intros Hp Hl Hn Hn'. repeat split; try done. intros sid. left. by rewrite Hp, Hl. Qed.

Lemma shrinks_trans w1 w2 w3 : shrinks w1 w2 → shrinks w2 w3 → shrinks w1 w3.
Proof.
  intros (Hn1 & Hl1 & H1) (Hn2 & Hl2 & H2). repeat split; try congruence.
  intros sid. destruct (H2 sid) as [[Ha Hb]|[Ha Hb]]; [|by right].
  destruct (H1 sid) as [[Hc Hd]|[Hc Hd]]; [left|right]; split; congruence.
Qed.

Lemma shrinks_reaps os V w w' : reaps os V w w' → shrinks w w'.
Proof.
  intros (extra & _ & _ & _ & Hnp & Hnl & Hsid & _). repeat split; try done.
  intros sid. destruct (Hsid sid) as [[He _]|(p & _ & _ & He & _)];
    unfold entries in He; injection He as -> -> _; [by left|by right].
Qed.

Lemma registry_ok_shrinks w w' : registry_ok w → shrinks w w' → registry_ok w'.
Proof.
  intros (Ha & Hi & Hl) (Hnp & Hnl & Hsid).
  assert (Hsub : ∀ sid p, processes w' !! sid = Some p → processes w !! sid = Some p).
  { intros sid p Hp. destruct (Hsid sid) as [[He _]|[He _]]; congruence. }
  assert (Hsubl : ∀ sid l, process_locks w' !! sid = Some l → process_locks w !! sid = Some l).
  { intros sid l Hp. destruct (Hsid sid) as [[_ He]|[_ He]]; congruence. }
  repeat split.
  - intros sid p Hp. rewrite Hnp. eapply Ha, Hsub, Hp.
  - intros s1 s2 p H1 H2. eapply Hi; eauto.
  - intros sid l H. rewrite Hnl. eapply Hl, Hsubl, H.
Qed.

Lemma consistent_shrinks w w' rs : consistent w rs → shrinks w w' → consistent w' rs.
Proof.
  intros (Hok & Hlk & Hreq & Hsame) Hsh.
  pose proof (registry_ok_shrinks _ _ Hok Hsh) as Hok'.
  destruct Hsh as (Hnp & Hnl & Hsid).
  split; [done|]. split; [|split; [|done]].
  - intros sid p Hp. destruct (Hsid sid) as [[Ha Hb]|[Ha Hb]]; [|congruence].
    rewrite Hb. apply (Hlk sid p). congruence.
  - intros t r p l Ht Hw. destruct (Hreq t r p l Ht Hw) as [Hlt Hreg].
    split; [by rewrite Hnp|].
    intros sid Hp. destruct (Hsid sid) as [[Ha Hb]|[Ha Hb]]; [|congruence].
    rewrite Hb. apply Hreg. congruence.
Qed.

Lemma uninterrupted_nil : uninterrupted [].
Proof. intros i j k t _ Hi. by rewrite lookup_nil in Hi. Qed.

(** Replacing one request. *)
Lemma lookup_replaced (rs : list Request) t r' t' x :
  <[t := r']> rs !! t' = Some x →
  (t' = t ∧ x = r' ∧ is_Some (rs !! t)) ∨ (t' ≠ t ∧ rs !! t' = Some x).
Proof.
  intros Hx. destruct (decide (t' = t)) as [->|Hne].
  - left. assert (t < length rs)%nat as Hlt.
    { apply lookup_lt_Some in Hx. by rewrite length_insert in Hx. }
    rewrite list_lookup_insert_eq in Hx by done. injection Hx as <-.
    split; [done|]. split; [done|]. by apply lookup_lt_is_Some.
  - right. split; [done|]. by rewrite list_lookup_insert_ne in Hx.
Qed.

Lemma uninterrupted_cons t l :
  uninterrupted l → head l = Some t ∨ t ∉ l → uninterrupted (t :: l).
Proof.
  intros Hl Ht i j k u Hijk Hi Hk.
  destruct i as [|i].
  - cbn in Hi. injection Hi as <-.
    destruct k as [|k]; [lia|]. cbn in Hk.
    assert (Hin : t ∈ l) by (by eapply list_elem_of_lookup_2).
    destruct Ht as [Hh|Hn]; [|done].
    destruct j as [|j]; [lia|]. cbn.
    destruct j as [|j].
    + destruct l; [done|]. by injection Hh as ->.
    + destruct l as [|x l']; [done|]. injection Hh as ->.
      apply (Hl 0%nat (S j) k t); [lia|done|done].
  - destruct j as [|j]; [lia|]. destruct k as [|k]; [lia|].
    cbn in *. apply (Hl i j k u); [lia|done|done].
Qed.

Lemma users_of_cons p t q log :
  users_of p ((t, q) :: log)
  = if decide (q = p) then t :: users_of p log else users_of p log.
Proof.
  unfold users_of. rewrite filter_cons. cbn. by destruct (decide (q = p)).
Qed.

Lemma consistent_replace w rs t r r' :
  consistent w rs → rs !! t = Some r → session r' = session r →
  working_on r' = working_on r ∨ working_on r' = None →
  consistent w (<[t := r']> rs).
Proof.
  intros (Hok & Hlk & Hreq & Hsame) Ht Hs Hw.
  assert (Hold : ∀ t' x p l, <[t := r']> rs !! t' = Some x → working_on x = Some (p, l) →
                 ∃ x0, rs !! t' = Some x0 ∧ working_on x0 = Some (p, l)
                       ∧ session x0 = session x).
  { intros t' x p l Hx Hwx. apply lookup_replaced in Hx as [(-> & -> & _)|[Hne Hx]].
    - exists r. split; [done|]. split; [|done]. destruct Hw as [Hw|Hw]; congruence.
    - eauto. }
  split; [done|]. split; [done|]. split.
  - intros t' x p l Hx Hwx. destruct (Hold _ _ _ _ Hx Hwx) as (x0 & H0 & Hw0 & <-). eauto.
  - intros t1 t2 x1 x2 p l l' H1 H2 Hw1 Hw2.
    destruct (Hold _ _ _ _ H1 Hw1) as (y1 & ? & ? & _).
    destruct (Hold _ _ _ _ H2 Hw2) as (y2 & ? & ? & _). eauto.
Qed.

Lemma locked_replace h rs t r r' :
  locked h rs → rs !! t = Some r →
  inside r' = inside r ∨ inside r' = None →
  locked h (<[t := r']> rs).
Proof.
  intros Hlk Ht Hin t' x p l Hx Hix.
  apply lookup_replaced in Hx as [(-> & -> & _)|[Hne Hx]].
  - apply (Hlk t r p l Ht). destruct Hin as [Hin|Hin]; congruence.
  - eauto.
Qed.

Lemma logged_replace rs log t r r' :
  logged rs log → rs !! t = Some r →
  (∀ p l, inside r = Some (p, l) → inside r' = Some (p, l) ∨ past_exchange r') →
  (past_exchange r → past_exchange r') →
  logged (<[t := r']> rs) log.
Proof.
  intros Hlog Ht Hin Hpast p. destruct (Hlog p) as [Hu Hmem]. split; [done|].
  intros t' Ht'. destruct (Hmem t' Ht') as (r0 & Hr0 & Hcase).
  destruct (decide (t' = t)) as [->|Hne].
  - exists r'. split.
    + apply list_lookup_insert_eq. by eapply lookup_lt_Some.
    + assert (r0 = r) as -> by congruence.
      destruct Hcase as [[[l Hl] Hh]|Hp]; [|right; auto].
      destruct (Hin p l Hl) as [Hi|Hp]; [left|by right]. split; eauto.
  - exists r0. split; [|done]. by rewrite list_lookup_insert_ne.
Qed.

Lemma logged_arrive rs log r : logged rs log → logged (rs ++ [r]) log.
Proof.
  intros Hlog p. destruct (Hlog p) as [Hu Hmem]. split; [done|].
  intros t Ht. destruct (Hmem t Ht) as (r0 & Hr0 & Hcase).
  exists r0. split; [|done]. apply lookup_app_l_Some. exact Hr0.
Qed.

Lemma logged_use h w rs log t r r' p l :
  consistent w rs → locked h rs → logged rs log →
  rs !! t = Some r → inside r = Some (p, l) → inside r' = Some (p, l) →
  logged (<[t := r']> rs) ((t, p) :: log).
Proof.
  intros (_ & _ & _ & Hsame) Hlk Hlog Ht Hi Hi' q.
  assert (Hw : ∀ x q' l', inside x = Some (q', l') → working_on x = Some (q', l')).
  { intros x q' l'. unfold inside, working_on. by destruct (pc x). }
  assert (Hnp : ¬ past_exchange r).
  { unfold inside in Hi. unfold past_exchange. intros Hpast. by destruct (pc r). }
  rewrite users_of_cons. destruct (decide (p = q)) as [<-|Hne].
  - destruct (Hlog p) as [Hu Hmem]. split.
    + apply uninterrupted_cons; [done|].
      destruct (decide (t ∈ users_of p log)) as [Hin|Hin]; [left|by right].
      destruct (Hmem t Hin) as (r0 & Hr0 & [[_ Hh]|Hp]); [done|].
      assert (r0 = r) as -> by congruence. done.
    + intros t' Ht'. apply elem_of_cons in Ht' as [->|Ht'].
      * exists r'. split; [apply list_lookup_insert_eq; by eapply lookup_lt_Some|].
        left. split; [eauto|done].
      * destruct (decide (t' = t)) as [->|Hne].
        -- exists r'. split; [apply list_lookup_insert_eq; by eapply lookup_lt_Some|].
           left. split; [eauto|done].
        -- destruct (Hmem t' Ht') as (r0 & Hr0 & [[[l' Hl'] Hh]|Hp]).
           ++ exfalso. apply Hne.
              assert (l' = l) as ->.
              { eapply (Hsame t' t r0 r p l' l); eauto. }
              pose proof (Hlk t r p l Ht Hi). pose proof (Hlk t' r0 p l Hr0 Hl').
              congruence.
           ++ exists r0. split; [by rewrite list_lookup_insert_ne|by right].
  - destruct (Hlog q) as [Hu Hmem]. split; [done|].
    intros t' Ht'. destruct (Hmem t' Ht') as (r0 & Hr0 & Hcase).
    destruct (decide (t' = t)) as [->|Hne'].
    + assert (r0 = r) as -> by congruence.
      destruct Hcase as [[[l' Hl'] _]|Hp]; [congruence|done].
    + exists r0. split; [by rewrite list_lookup_insert_ne|done].
Qed.

Lemma consistent_enter w rs t r r' p l :
  consistent w rs → rs !! t = Some r → working_on r' = Some (p, l) →
  (p < next_pid w)%nat →
  (∀ sid, processes w !! sid = Some p →
          sid = session r' ∧ process_locks w !! sid = Some l) →
  (∀ t' x l', rs !! t' = Some x → working_on x = Some (p, l') → l' = l) →
  consistent w (<[t := r']> rs).
Proof.
  intros (Hok & Hlk & Hreq & Hsame) Ht Hw Hlt Hreg Hothers.
  split; [done|]. split; [done|]. split.
  - intros t' x q l' Hx Hwx. apply lookup_replaced in Hx as [(-> & -> & _)|[Hne Hx]].
    + assert (q = p ∧ l' = l) as [-> ->] by (split; congruence). done.
    + eauto.
  - intros t1 t2 x1 x2 q l1 l2 H1 H2 Hw1 Hw2.
    apply lookup_replaced in H1 as [(-> & -> & _)|[Hne1 H1]];
      apply lookup_replaced in H2 as [(-> & -> & _)|[Hne2 H2]].
    + congruence.
    + assert (q = p ∧ l1 = l) as [-> ->] by (split; congruence).
      symmetry. eauto.
    + assert (q = p ∧ l2 = l) as [-> ->] by (split; congruence). eauto.
    + eauto.
Qed.

Lemma consistent_resolve w rs t r now launch res w' :
  consistent w rs → rs !! t = Some r → pc r = Arrived →
  resolve now launch (session r) w = (res, w') →
  consistent w'
    (<[t := at_pc r (match res with
                     | Ok (p, l) => Resolved p l
                     | Raise _ => Finished
                     end)]> rs).
Proof.
  intros Hc Ht Hpc Hres. pose proof Hc as (Hok & Hlk & Hreq & Hsame).
  assert (Hnone : working_on r = None) by (unfold working_on; by rewrite Hpc).
  unfold resolve, bind in Hres.
  destruct (processes w !! session r) as [p0|] eqn:Hp.
  - rewrite (get_or_create_process_hit _ _ _ _ _ Hp) in Hres.
    destruct (Hlk _ _ Hp) as [l Hl].
    rewrite get_process_lock_hit with (l := l) in Hres by done.
    injection Hres as <- <-.
    assert (Hc' : consistent (set_last_activity <[session r := now]> w) rs).
    { eapply consistent_shrinks; [done|]. by apply shrinks_same. }
    eapply consistent_enter with (p := p0) (l := l); try done.
    + cbn. destruct Hok as (Ha & _). eauto.
    + cbn. intros sid Hs. destruct Hok as (_ & Hi & _).
      by rewrite (Hi _ _ _ Hs Hp).
    + intros t' x l' Hx Hwx. destruct (Hreq _ _ _ _ Hx Hwx) as [_ Hreg].
      destruct (Hreg _ Hp) as [_ Hreg']. congruence.
  - destruct launch as [e|].
    + rewrite (get_or_create_process_fail _ _ _ _ Hp) in Hres.
      injection Hres as <- <-.
      eapply consistent_replace; [|done|done|by right].
      eapply consistent_shrinks; [done|]. by apply shrinks_same.
    + rewrite (get_or_create_process_spawn _ _ _ Hp) in Hres.
      rewrite get_process_lock_hit with (l := next_lock w) in Hres
        by (cbn; apply lookup_insert_eq).
      injection Hres as <- <-.
      pose proof (registry_ok_get_or_create_process now None (session r) w Hok) as Hok'.
      rewrite (get_or_create_process_spawn _ _ _ Hp) in Hok'. cbn [snd] in Hok'.
      destruct Hok as (Ha & Hi & Hla).
      eapply consistent_enter with (p := next_pid w) (l := next_lock w); try done.
      * split; [done|]. split; [|split; [|done]].
        -- intros sid p. cbn. rewrite !lookup_insert.
           case_decide; [eauto|]. apply Hlk.
        -- intros t' x p l Hx Hwx. destruct (Hreq _ _ _ _ Hx Hwx) as [Hlt Hreg].
           cbn. split; [lia|]. intros sid. rewrite !lookup_insert.
           case_decide; [intros [= <-]; lia|]. apply Hreg.
      * cbn. lia.
      * cbn. intros sid. rewrite !lookup_insert.
        case_decide; [done|]. intros Hs. specialize (Ha _ _ Hs). lia.
      * intros t' x l' Hx Hwx. destruct (Hreq _ _ _ _ Hx Hwx) as [Hlt _]. lia.
Qed.

Section Interleaving.
Context `{PyRuntime}.

Lemma after_read_shrinks os r outcome now w :
  shrinks w (after_read os r outcome now w).1.
Proof.
  unfold after_read. destruct outcome as [line|e]; [|apply shrinks_refl].
  destruct (kind r); destruct (decide (line = "")); cbn [fst].
  - eapply shrinks_reaps, reaps_terminate_process.
  - destruct (response_for _ _); apply shrinks_refl.
  - apply shrinks_refl.
  - by apply shrinks_same.
Qed.

Lemma handle_exception_shrinks os r e w :
  shrinks w (handle_exception os r e w).2.
Proof.
  unfold handle_exception, bind.
  pose proof (terminate_process_ok os (session r) w) as Hok.
  pose proof (reaps_terminate_process os (session r) w) as Hr.
  destruct (terminate_process os (session r) w) as [[[]|e'] w1]; [|done].
  cbn in Hr. apply shrinks_reaps in Hr.
  destruct (kind r); cbn; [done|].
  eapply shrinks_trans; [exact Hr|]. by apply shrinks_same.
Qed.

Lemma invariant_initial path : invariant (initial path).
Proof.
  split; [|split].
  - split; [apply registry_ok_new|]. split; [|split].
    + intros sid p. cbn. by rewrite lookup_empty.
    + intros t r p l Ht. cbn in Ht. by rewrite lookup_nil in Ht.
    + intros t t' r r' p l l' Ht. cbn in Ht. by rewrite lookup_nil in Ht.
  - intros t r p l Ht. cbn in Ht. by rewrite lookup_nil in Ht.
  - intros p. split; [apply uninterrupted_nil|]. intros t Ht. inversion Ht.
Qed.

Lemma invariant_step os c c' : invariant c → step os c c' → invariant c'.
Proof.
  intros (Hc & Hlk & Hlog) Hstep.
  destruct Hstep as [c k sid body|c t r now launch res w' Ht Hpc Hres
                    |c t r p l Ht Hpc Hfree|c t r p l outcome Ht Hpc
                    |c t r p l outcome Ht Hpc|c t r p l outcome now Ht Hpc
                    |c t r p l raised Ht Hpc|c t r e Ht Hpc|c now];
    unfold invariant; cbn [world held requests pipe_log].
  - (* arrive *)
    split; [|split].
    + destruct Hc as (Hok & Hl & Hreq & Hsame). split; [done|]. split; [done|].
      assert (Hold : ∀ t x p l,
                 (requests c ++ [mkRequest k sid body Arrived]) !! t = Some x →
                 working_on x = Some (p, l) → requests c !! t = Some x).
      { intros t x p l Hx Hw. apply lookup_app_Some in Hx as [Hx|[_ Hx]]; [done|].
        apply list_lookup_singleton_Some in Hx as [_ <-]. done. }
      split.
      * intros t x p l Hx Hw. apply (Hreq t x p l); [by eapply Hold|done].
      * intros t1 t2 x1 x2 p l1 l2 H1 H2 Hw1 Hw2.
        apply (Hsame t1 t2 x1 x2 p l1 l2); [by eapply Hold|by eapply Hold|done|done].
    + intros t x p l Hx Hi.
      apply lookup_app_Some in Hx as [Hx|[_ Hx]]; [eauto|].
      apply list_lookup_singleton_Some in Hx as [_ <-]. done.
    + by apply logged_arrive.
  - (* resolve *)
    split; [|split].
    + by eapply consistent_resolve.
    + eapply locked_replace; [done|done|]. right.
      unfold inside, at_pc. cbn. by destruct res as [[? ?]|].
    + eapply logged_replace; [done|done| |].
      * intros p l. unfold inside. by rewrite Hpc.
      * unfold past_exchange. by rewrite Hpc.
  - (* acquire *)
    split; [|split].
    + eapply consistent_replace; [|done|done|].
      * eapply consistent_shrinks; [done|]. by apply shrinks_same.
      * left. unfold working_on. cbn. by rewrite Hpc.
    + intros t' x q l' Hx Hi.
      apply lookup_replaced in Hx as [(-> & -> & _)|[Hne Hx]].
      * unfold inside in Hi. cbn in Hi. injection Hi as <- <-.
        apply lookup_insert_eq.
      * specialize (Hlk _ _ _ _ Hx Hi).
        rewrite lookup_insert_ne; [done|]. intros <-. congruence.
    + eapply logged_replace; [done|done| |].
      * intros q l'. unfold inside. by rewrite Hpc.
      * unfold past_exchange. by rewrite Hpc.
  - (* write *)
    assert (Hi : inside r = Some (p, l)) by (unfold inside; by rewrite Hpc).
    split; [|split].
    + eapply consistent_replace; [|done|done|].
      * eapply consistent_shrinks; [done|].
        unfold stdin_write, call, bind, modify, ret, raise.
        destruct outcome; by apply shrinks_same.
      * left. unfold working_on. cbn. by rewrite Hpc.
    + eapply locked_replace; [done|done|]. left. by rewrite Hi.
    + eapply logged_use; try done.
  - (* flush *)
    assert (Hi : inside r = Some (p, l)) by (unfold inside; by rewrite Hpc).
    split; [|split].
    + eapply consistent_replace; [|done|done|].
      * eapply consistent_shrinks; [done|].
        unfold stdin_flush, call, bind, modify, ret, raise.
        destruct outcome; by apply shrinks_same.
      * left. unfold working_on. cbn. by rewrite Hpc.
    + eapply locked_replace; [done|done|]. left. by rewrite Hi.
    + eapply logged_use; try done.
  - (* read *)
    assert (Hi : inside r = Some (p, l)) by (unfold inside; by rewrite Hpc).
    split; [|split].
    + eapply consistent_replace; [|done|done|].
      * eapply consistent_shrinks; [done|].
        eapply shrinks_trans; [|apply after_read_shrinks]. by apply shrinks_same.
      * left. unfold working_on. cbn. by rewrite Hpc.
    + eapply locked_replace; [done|done|]. left. by rewrite Hi.
    + eapply logged_use; try done.
  - (* release *)
    assert (Hi : inside r = Some (p, l)) by (unfold inside; by rewrite Hpc).
    split; [|split].
    + eapply consistent_replace; [|done|done|].
      * eapply consistent_shrinks; [done|]. by apply shrinks_same.
      * right. unfold working_on. cbn. by destruct raised.
    + intros t' x q l' Hx Hi'.
      apply lookup_replaced in Hx as [(-> & -> & _)|[Hne Hx]].
      * unfold inside in Hi'. cbn in Hi'. by destruct raised.
      * pose proof (Hlk _ _ _ _ Hx Hi') as Hh'.
        rewrite lookup_delete_ne; [done|]. intros <-.
        pose proof (Hlk _ _ _ _ Ht Hi). congruence.
    + eapply logged_replace; [done|done| |].
      * intros q l' _. right. unfold past_exchange. cbn. by destruct raised.
      * unfold past_exchange. by rewrite Hpc.
  - (* handle *)
    split; [|split].
    + eapply consistent_replace; [|done|done|by right].
      eapply consistent_shrinks; [done|]. apply handle_exception_shrinks.
    + eapply locked_replace; [done|done|by right].
    + eapply logged_replace; [done|done| |].
      * intros q l'. unfold inside. by rewrite Hpc.
      * done.
  - (* reaper *)
    split; [|split]; try done.
    eapply consistent_shrinks; [done|].
    eapply shrinks_reaps, cleanup_idle_processes_reaps.
Qed.
End Interleaving.

Section Serialized.
Context `{PyRuntime}.

Lemma reachable_invariant os path c :
  rtc (step os) (initial path) c → invariant c.
Proof.
  revert c. apply rtc_ind_r; [apply invariant_initial|].
  intros c c' _ Hstep Hinv. by eapply invariant_step.
Qed.

End Serialized.

Lemma run4_reached : rtc (step obedient) (initial "/data") run4.
Proof.
  eapply rtc_l; [exact (step_arrive obedient (initial "/data") Unary "alice" "{}")|].
  eapply rtc_l.
  { exact (step_resolve obedient run1 0%nat (alice Arrived) 5 None
             (Ok (0, 0)%nat) (world run2) eq_refl eq_refl eq_refl). }
  eapply rtc_l.
  { exact (step_acquire obedient run2 0%nat (alice (Resolved 0 0)) 0%nat 0%nat
             eq_refl eq_refl eq_refl). }
  eapply rtc_l.
  { exact (step_write obedient run3 0%nat (alice (Holding 0 0 BeforeWrite))
             0%nat 0%nat None eq_refl eq_refl). }
  apply rtc_refl.
Qed.

(** ** One request alone *)

Section Alone.
Context `{PyRuntime}.

Lemma handle_request_launch_fails os header uuid body now launch io w e w1 :
  resolve now launch (default uuid header) w = (Raise e, w1) →
  handle_request os header uuid body now launch io w = (Raise e, w1).
Proof.
  unfold resolve, handle_request, bind.
  destruct (get_or_create_process _ _ _ w) as [[p'|e'] w2]; [|by intros [= -> ->]].
  destruct (get_process_lock _ w2) as [[l'|e'] w3]; [done|by intros [= -> ->]].
Qed.

Tactic Notation "solo_next" uconstr(lem) :=
  eapply rtc_l; [eapply lem; reflexivity|];
  cbn [world held requests pipe_log solo at_pc kind session body_of pc
       insert list_insert].

Lemma unary_exchange_alone os sid body io w p l :
  ∃ log,
    rtc (step os)
      (solo w ∅ (mkRequest Unary sid body (Resolved p l)) [])
      (solo (exchange os sid p l body io w).2 ∅
         (mkRequest Unary sid body Finished) log).
Proof.
  assert (Hfree : delete l (<[l := 0%nat]> (∅ : gmap LockId nat)) = ∅).
  { apply map_eq. intros i. rewrite lookup_delete, lookup_insert, lookup_empty.
    by repeat case_decide. }
  cut (∃ log wf,
          rtc (step os)
            (solo w ∅ (mkRequest Unary sid body (Resolved p l)) [])
            (solo wf ∅ (mkRequest Unary sid body Finished) log)
          ∧ wf = (exchange os sid p l body io w).2).
  { intros (log & wf & Hrun & ->). eauto. }
  destruct (on_write io) as [e|] eqn:Hw.
  { eexists _, _. split.
    - solo_next (step_acquire os _ 0%nat).
      solo_next (step_write os _ 0%nat _ _ _ (Some e)).
      solo_next (step_release os _ 0%nat).
      solo_next (step_handle os _ 0%nat).
      rewrite Hfree. apply rtc_refl.
    - run_exchange. rewrite Hw. cbv beta iota.
      unfold handle_exception, bind, ret. cbn [kind session at_pc].
      by destruct (terminate_process _ _ _) as [[[]|?] ?]. }
  destruct (on_flush io) as [e|] eqn:Hf.
  { eexists _, _. split.
    - solo_next (step_acquire os _ 0%nat).
      solo_next (step_write os _ 0%nat _ _ _ None).
      solo_next (step_flush os _ 0%nat _ _ _ (Some e)).
      solo_next (step_release os _ 0%nat).
      solo_next (step_handle os _ 0%nat).
      rewrite Hfree. apply rtc_refl.
    - run_exchange. rewrite Hw, Hf. cbv beta iota.
      unfold handle_exception, bind, ret. cbn [kind session at_pc].
      by destruct (terminate_process _ _ _) as [[[]|?] ?]. }
  destruct (on_readline io) as [line|e] eqn:Hr.
  2: { eexists _, _. split.
    - solo_next (step_acquire os _ 0%nat).
      solo_next (step_write os _ 0%nat _ _ _ None).
      solo_next (step_flush os _ 0%nat _ _ _ None).
      solo_next (step_read os _ 0%nat _ _ _ (Raise e) 0%Z).
      solo_next (step_release os _ 0%nat).
      solo_next (step_handle os _ 0%nat).
      rewrite Hfree. apply rtc_refl.
    - run_exchange. rewrite Hw, Hf, Hr. cbv beta iota.
      unfold handle_exception, bind, ret. cbn [kind session at_pc after_read fst].
      by destruct (terminate_process _ _ _) as [[[]|?] ?]. }
  destruct (decide (line = "")) as [->|Hline].
  { eexists _, _. split.
    - solo_next (step_acquire os _ 0%nat).
      solo_next (step_write os _ 0%nat _ _ _ None).
      solo_next (step_flush os _ 0%nat _ _ _ None).
      solo_next (step_read os _ 0%nat _ _ _ (Ok "") 0%Z).
      unfold after_read. cbn [kind session at_pc]. rewrite decide_True by done. cbn [fst snd].
      solo_next (step_release os _ 0%nat).
      solo_next (step_handle os _ 0%nat).
      rewrite Hfree. apply rtc_refl.
    - run_exchange. rewrite Hw, Hf, Hr. cbv beta iota.
      rewrite decide_True by done.
      unfold handle_exception, bind, ret. cbn [kind session at_pc].
      destruct (terminate_process os sid (add_event (EvReadline p) _))
        as [[[]|?] ?]; cbv beta iota; cbn [fst snd];
        by destruct (terminate_process _ _ _) as [[[]|?] ?]. }
  destruct (response_for sid line) as [resp|e] eqn:Hresp.
  - eexists _, _. split.
    + solo_next (step_acquire os _ 0%nat).
      solo_next (step_write os _ 0%nat _ _ _ None).
      solo_next (step_flush os _ 0%nat _ _ _ None).
      solo_next (step_read os _ 0%nat _ _ _ (Ok line) 0%Z).
      unfold after_read. cbn [kind session at_pc]. rewrite decide_False by done.
      rewrite Hresp. cbn [fst snd].
      solo_next (step_release os _ 0%nat).
      rewrite Hfree. apply rtc_refl.
    + run_exchange. rewrite Hw, Hf, Hr. cbv beta iota.
      rewrite decide_False by done. by rewrite Hresp.
  - eexists _, _. split.
    + solo_next (step_acquire os _ 0%nat).
      solo_next (step_write os _ 0%nat _ _ _ None).
      solo_next (step_flush os _ 0%nat _ _ _ None).
      solo_next (step_read os _ 0%nat _ _ _ (Ok line) 0%Z).
      unfold after_read. cbn [kind session at_pc]. rewrite decide_False by done.
      rewrite Hresp. cbn [fst snd].
      solo_next (step_release os _ 0%nat).
      solo_next (step_handle os _ 0%nat).
      rewrite Hfree. apply rtc_refl.
    + run_exchange. rewrite Hw, Hf, Hr. cbv beta iota.
      rewrite decide_False by done. rewrite Hresp. cbv beta iota.
      unfold handle_exception, bind, ret. cbn [kind session at_pc].
      by destruct (terminate_process _ _ _) as [[[]|?] ?].
Qed.

(** X1.  The steps of the interleaving model are the handler's own: a
    unary request that is served with no other request and no reaper scan
    in between goes, step by step, from its arrival to its end, and
    leaves the manager as [handle_request] does, with no lock held. *)
Theorem unary_request_alone os sid uuid body now launch io w :
  ∃ log,
    rtc (step os)
      (solo w ∅ (mkRequest Unary sid body Arrived) [])
      (solo (handle_request os (Some sid) uuid body now launch io w).2 ∅
         (mkRequest Unary sid body Finished) log).
Proof.
  destruct (resolve now launch sid w) as [[[p l]|e] w1] eqn:Hres.
  - rewrite (handle_request_resolved os (Some sid) uuid body now launch io w p l w1 Hres).
    destruct (unary_exchange_alone os sid body io w1 p l) as [log Hrun].
    exists log. eapply rtc_l; [|exact Hrun].
    exact (step_resolve os (solo w ∅ (mkRequest Unary sid body Arrived) []) 0%nat
             (mkRequest Unary sid body Arrived) now launch (Ok (p, l)) w1
             eq_refl eq_refl Hres).
  - rewrite (handle_request_launch_fails os (Some sid) uuid body now launch io w e w1 Hres).
    exists []. apply rtc_once.
    exact (step_resolve os (solo w ∅ (mkRequest Unary sid body Arrived) []) 0%nat
             (mkRequest Unary sid body Arrived) now launch (Raise e) w1
             eq_refl eq_refl Hres).
Qed.
Lemma serve_stream_launch_fails os header uuid body now launch io w e w1 :
  resolve now launch (default uuid header) w = (Raise e, w1) →
  serve_stream os header uuid body now launch io w = (Raise e, w1).
Proof.
  unfold resolve, serve_stream, handle_stream_request, bind.
  destruct (get_or_create_process _ _ _ w) as [[p'|e'] w2]; [|by intros [= -> ->]].
  destruct (get_process_lock _ w2) as [[l'|e'] w3]; [done|by intros [= -> ->]].
Qed.

Lemma reading_alone os sid body p l lines ending w h log :
  ∃ log',
    rtc (step os)
      (solo w h (mkRequest Stream sid body (Holding p l Reading)) log)
      (solo (read_lines sid p lines ending w).2 h
         (mkRequest Stream sid body
            (Holding p l
               (Leaving match (read_lines sid p lines ending w).1 with
                        | Ok _ => None
                        | Raise e => Some e
                        end))) log').
Proof.
  revert w log. induction lines as [|[line now] rest IH]; intros w log.
  - eexists. eapply rtc_l; [|apply rtc_refl].
    destruct ending as [e|].
    + exact (step_read os (solo w h (mkRequest Stream sid body (Holding p l Reading)) log)
               0%nat _ p l (Raise e) 0%Z eq_refl eq_refl).
    + exact (step_read os (solo w h (mkRequest Stream sid body (Holding p l Reading)) log)
               0%nat _ p l (Ok "") 0%Z eq_refl eq_refl).
  - cbn [read_lines]. unfold stdout_readline, bind, modify, ret. cbv beta iota.
    destruct (decide (line = "")) as [->|Hline].
    + eexists. eapply rtc_l; [|apply rtc_refl].
      exact (step_read os (solo w h (mkRequest Stream sid body (Holding p l Reading)) log)
               0%nat _ p l (Ok "") 0%Z eq_refl eq_refl).
    + destruct (IH (add_event (EvYield line)
                      (set_last_activity <[sid := now]> (add_event (EvReadline p) w)))
                   ((0%nat, p) :: log)) as [log' Hrun].
      exists log'. eapply rtc_l; [|exact Hrun].
      pose proof (step_read os (solo w h (mkRequest Stream sid body (Holding p l Reading)) log)
                    0%nat _ p l (Ok line) now eq_refl eq_refl) as Hs.
      unfold after_read in Hs. cbn [kind session at_pc] in Hs.
      rewrite decide_False in Hs by done. exact Hs.
Qed.

Lemma generator_alone os sid body io w p l :
  ∃ log,
    rtc (step os)
      (solo w ∅ (mkRequest Stream sid body (Resolved p l)) [])
      (solo (response_generator os sid p l body io w).2 ∅
         (mkRequest Stream sid body Finished) log).
Proof.
  assert (Hfree : delete l (<[l := 0%nat]> (∅ : gmap LockId nat)) = ∅).
  { apply map_eq. intros i. rewrite lookup_delete, lookup_insert, lookup_empty.
    by repeat case_decide. }
  cut (∃ log wf,
          rtc (step os)
            (solo w ∅ (mkRequest Stream sid body (Resolved p l)) [])
            (solo wf ∅ (mkRequest Stream sid body Finished) log)
          ∧ wf = (response_generator os sid p l body io w).2).
  { intros (log & wf & Hrun & ->). eauto. }
  destruct (s_on_write io) as [e|] eqn:Hw.
  { eexists _, _. split.
    - solo_next (step_acquire os _ 0%nat).
      solo_next (step_write os _ 0%nat _ _ _ (Some e)).
      solo_next (step_release os _ 0%nat).
      solo_next (step_handle os _ 0%nat).
      rewrite Hfree. apply rtc_refl.
    - unfold response_generator. run_exchange. rewrite Hw. cbv beta iota.
      unfold handle_exception, bind, modify, ret. cbn [kind session at_pc].
      by destruct (terminate_process _ _ _) as [[[]|?] ?]. }
  destruct (s_on_flush io) as [e|] eqn:Hf.
  { eexists _, _. split.
    - solo_next (step_acquire os _ 0%nat).
      solo_next (step_write os _ 0%nat _ _ _ None).
      solo_next (step_flush os _ 0%nat _ _ _ (Some e)).
      solo_next (step_release os _ 0%nat).
      solo_next (step_handle os _ 0%nat).
      rewrite Hfree. apply rtc_refl.
    - unfold response_generator. run_exchange. rewrite Hw, Hf. cbv beta iota.
      unfold handle_exception, bind, modify, ret. cbn [kind session at_pc].
      by destruct (terminate_process _ _ _) as [[[]|?] ?]. }
  set (w3 := add_event (EvFlush p)
               (add_event (EvWrite p (body +:+ newline)) (add_event (EvAcquire l) w))).
  destruct (reading_alone os sid body p l (s_lines io) (s_ending io) w3
              (<[l := 0%nat]> ∅) [(0%nat, p); (0%nat, p)]) as [log Hread].
  destruct (read_lines sid p (s_lines io) (s_ending io) w3) as [[[]|e] w4] eqn:Hloop;
    cbn [fst snd] in Hread.
  - eexists _, _. split.
    + solo_next (step_acquire os _ 0%nat).
      solo_next (step_write os _ 0%nat _ _ _ None).
      solo_next (step_flush os _ 0%nat _ _ _ None).
      eapply rtc_trans; [exact Hread|].
      solo_next (step_release os _ 0%nat).
      rewrite Hfree. apply rtc_refl.
    + unfold response_generator. run_exchange. rewrite Hw, Hf. cbv beta iota.
      fold w3. by rewrite Hloop.
  - eexists _, _. split.
    + solo_next (step_acquire os _ 0%nat).
      solo_next (step_write os _ 0%nat _ _ _ None).
      solo_next (step_flush os _ 0%nat _ _ _ None).
      eapply rtc_trans; [exact Hread|].
      solo_next (step_release os _ 0%nat).
      solo_next (step_handle os _ 0%nat).
      rewrite Hfree. apply rtc_refl.
    + unfold response_generator. run_exchange. rewrite Hw, Hf. cbv beta iota.
      fold w3. rewrite Hloop. cbv beta iota.
      unfold handle_exception, bind, modify, ret. cbn [kind session at_pc].
      by destruct (terminate_process _ _ _) as [[[]|?] ?].
Qed.

(** X2.  The same for a streamed request and [serve_stream]. *)
Theorem stream_request_alone os sid uuid body now launch io w :
  ∃ log,
    rtc (step os)
      (solo w ∅ (mkRequest Stream sid body Arrived) [])
      (solo (serve_stream os (Some sid) uuid body now launch io w).2 ∅
         (mkRequest Stream sid body Finished) log).
Proof.
  destruct (resolve now launch sid w) as [[[p l]|e] w1] eqn:Hres.
  - rewrite (serve_stream_resolved os (Some sid) uuid body now launch io w p l w1 Hres).
    cbn [snd].
    destruct (generator_alone os sid body io w1 p l) as [log Hrun].
    exists log. eapply rtc_l; [|exact Hrun].
    exact (step_resolve os (solo w ∅ (mkRequest Stream sid body Arrived) []) 0%nat
             (mkRequest Stream sid body Arrived) now launch (Ok (p, l)) w1
             eq_refl eq_refl Hres).
  - rewrite (serve_stream_launch_fails os (Some sid) uuid body now launch io w e w1 Hres).
    exists []. apply rtc_once.
    exact (step_resolve os (solo w ∅ (mkRequest Stream sid body Arrived) []) 0%nat
             (mkRequest Stream sid body Arrived) now launch (Raise e) w1
             eq_refl eq_refl Hres).
Qed.
End Alone.

(** ** Shutting everything down *)

Lemma entries_eq w w' :
  (∀ sid, entries w' sid = entries w sid) →
  processes w' = processes w ∧ process_locks w' = process_locks w
  ∧ last_activity w' = last_activity w.
Proof.
  intros He. split_and!; apply map_eq; intros sid; specialize (He sid);
    unfold entries in He; congruence.
Qed.

Lemma cleanup_entries os now w sid :
  entries (cleanup_idle_processes os now w).2 sid = scanned now (entries w sid).
Proof.
  destruct (cleanup_idle_processes_reaps os now w) as [_ Hreaps].
  destruct Hreaps as (calls & _ & _ & _ & _ & _ & Hsid & _).
  destruct (Hsid sid) as [[He Hv]|(p & (t & Hl & Hidle) & Hp & He & _)].
  - rewrite He. unfold scanned, entries.
    destruct (processes w !! sid) as [p|] eqn:Hp; [|done].
    destruct (last_activity w !! sid) as [t|] eqn:Hl; [|done].
    destruct (decide _) as [Hidle|]; [|done].
    assert (Some p = None) by (apply Hv; eauto). done.
  - rewrite He. unfold scanned, entries. rewrite Hp, Hl.
    by rewrite decide_True.
Qed.

(** X3.  [terminate_all] never raises and leaves no session with a
    process: a session that had one has got the shutdown calls on it and
    is in none of the dictionaries, a session that had none keeps its
    entries (a lock or a time stamp without a process stays).  The log
    grows by shutdown calls of registered processes only, followed by the
    cancellation of the cleanup task if that was started.  A second
    [terminate_all] makes no call on any process. *)
Theorem terminate_all_shuts_everything_down os w :
  (terminate_all os w).1 = Ok tt
  ∧ processes (terminate_all os w).2 = ∅
  ∧ (∀ sid p, processes w !! sid = Some p →
       entries (terminate_all os w).2 sid = (None, None, None))
  ∧ (∀ sid, processes w !! sid = None →
       entries (terminate_all os w).2 sid = entries w sid)
  ∧ (∃ calls,
       trace (terminate_all os w).2
       = trace w ++ calls ++ (if cleanup_task w then [EvCancelCleanupTask] else [])
       ∧ (∀ sid p, processes w !! sid = Some p →
            ∀ e, e ∈ shutdown_calls os p → e ∈ calls)
       ∧ (∀ e, e ∈ calls →
            ∃ sid p, processes w !! sid = Some p ∧ e ∈ shutdown_calls os p))
  ∧ trace (terminate_all os (terminate_all os w).2).2
    = trace (terminate_all os w).2
      ++ (if cleanup_task w then [EvCancelCleanupTask] else []).
Proof.
  destruct (terminate_all_reaps os w) as (Hok & w1 & Hr & Hw1).
  assert (Hent : ∀ sid, entries (terminate_all os w).2 sid = entries w1 sid).
  { intros sid. rewrite Hw1. by destruct (cleanup_task w). }
  assert (Htr : trace (terminate_all os w).2
                = trace w1 ++ (if cleanup_task w then [EvCancelCleanupTask] else [])).
  { rewrite Hw1. destruct (cleanup_task w); cbn; [done|by rewrite app_nil_r]. }
  pose proof Hr as (calls & Ht & _ & Htask & _ & _ & Hsid & Hext).
  assert (Hnone : ∀ sid, processes (terminate_all os w).2 !! sid = None).
  { intros sid. specialize (Hent sid). unfold entries in Hent.
    injection Hent as -> _ _.
    destruct (Hsid sid) as [[He Hv]|(p & _ & _ & He & _)];
      unfold entries in He; injection He as -> _ _; [by apply Hv|done]. }
  split_and!.
  - done.
  - by apply map_empty.
  - intros sid p Hp. rewrite Hent.
    destruct (Hsid sid) as [[_ Hv]|(p' & _ & _ & He & _)]; [|done].
    specialize (Hv I). congruence.
  - intros sid Hp. rewrite Hent.
    destruct (Hsid sid) as [[He _]|(p' & _ & Hp' & _)]; [done|congruence].
  - exists calls. split; [by rewrite Htr, Ht, app_assoc|]. split.
    + intros sid p Hp.
      destruct (Hsid sid) as [[_ Hv]|(p' & _ & Hp' & _ & Hc)].
      * specialize (Hv I). congruence.
      * by assert (p' = p) as -> by congruence.
    + intros e He. destruct (Hext e He) as (sid & p & _ & Hp & Hin). eauto.
  - destruct (terminate_all_reaps os (terminate_all os w).2) as (_ & w2 & Hr2 & Hw2).
    destruct Hr2 as (calls2 & Ht2 & _ & Htask2 & _ & _ & _ & Hext2).
    assert (calls2 = []) as ->.
    { destruct calls2 as [|e rest]; [done|].
      destruct (Hext2 e) as (sid & p & _ & Hp & _); [apply elem_of_cons; by left|].
      by rewrite Hnone in Hp. }
    rewrite app_nil_r in Ht2.
    assert (Hsame : cleanup_task (terminate_all os w).2 = cleanup_task w).
    { rewrite Hw1. destruct (cleanup_task w) eqn:E; cbn; congruence. }
    rewrite Hw2, Hsame. destruct (cleanup_task w); cbn; [by rewrite Ht2|].
    by rewrite Ht2, app_nil_r.
Qed.

Lemma shutdown_calls_shutdown os p e : e ∈ shutdown_calls os p → is_shutdown_call e.
Proof.
  unfold shutdown_calls.
  destruct (on_terminate (os p)); [|destruct (on_wait (os p)) as [[]|]];
    intros He; repeat (apply elem_of_cons in He as [->|He]; [done|]);
    inversion He.
Qed.

Lemma accounted_reaps os V w w' : accounted w → reaps os V w w' → accounted w'.
Proof.
  intros Hacc (extra & Ht & _ & _ & _ & _ & Hsid & Hext) path p Hin.
  rewrite Ht in Hin |- *. apply elem_of_app in Hin as [Hin|Hin].
  - destruct (Hacc path p Hin) as [[sid Hp]|Hterm].
    + destruct (Hsid sid) as [[He _]|(p' & _ & Hp' & _ & Hcalls)].
      * left. exists sid. unfold entries in He. injection He as -> _ _. done.
      * right. apply elem_of_app. right. apply Hcalls.
        assert (p' = p) as -> by congruence. apply shutdown_calls_terminate.
    + right. apply elem_of_app. by left.
  - destruct (Hext _ Hin) as (sid & p' & _ & _ & Hcall).
    by apply shutdown_calls_shutdown in Hcall.
Qed.

Lemma accounted_run_op os o w : accounted w → accounted (run_op os o w).2.
Proof.
  intros Hacc. destruct o as [sid now launch|sid|sid|now|]; cbn [run_op].
  - unfold bind. destruct (processes w !! sid) as [p|] eqn:Hp.
    + rewrite (get_or_create_process_hit _ _ _ _ _ Hp). exact Hacc.
    + destruct launch as [e|].
      * rewrite (get_or_create_process_fail _ _ _ _ Hp). cbn [snd].
        intros path p Hin. cbn in Hin. apply elem_of_app in Hin as [Hin|Hin].
        -- destruct (Hacc path p Hin) as [?|?]; [by left|right].
           cbn. apply elem_of_app. by left.
        -- apply elem_of_cons in Hin as [Hin|Hin]; [done|inversion Hin].
      * rewrite (get_or_create_process_spawn _ _ _ Hp). cbn [snd].
        intros path p Hin. cbn in Hin |- *. apply elem_of_app in Hin as [Hin|Hin].
        -- destruct (Hacc path p Hin) as [[sid' Hp']|?].
           ++ left. exists sid'. rewrite lookup_insert_ne; [done|].
              intros <-. congruence.
           ++ right. apply elem_of_app. by left.
        -- apply elem_of_cons in Hin as [Hin|Hin]; [|inversion Hin]. injection Hin as _ ->.
           left. exists sid. apply lookup_insert_eq.
  - unfold bind. destruct (process_locks w !! sid) as [l|] eqn:Hl.
    + by rewrite (get_process_lock_hit _ _ _ Hl).
    + by rewrite (get_process_lock_miss _ _ Hl).
  - eapply accounted_reaps; [done|apply reaps_terminate_process].
  - eapply accounted_reaps; [done|apply cleanup_idle_processes_reaps].
  - destruct (terminate_all_reaps os w) as (_ & w1 & Hr & ->).
    pose proof (accounted_reaps _ _ _ _ Hacc Hr) as Hacc1.
    destruct (cleanup_task w); [|done].
    intros path p Hin. cbn in Hin |- *. apply elem_of_app in Hin as [Hin|Hin].
    + destruct (Hacc1 path p Hin) as [?|?]; [by left|right].
      apply elem_of_app. by left.
    + apply elem_of_cons in Hin as [Hin|Hin]; [done|inversion Hin].
Qed.

Lemma accounted_run_ops os ops w : accounted w → accounted (run_ops os ops w).
Proof.
  revert w. induction ops as [|o rest IH]; intros w Hacc; cbn; [done|].
  by apply IH, accounted_run_op.
Qed.

Lemma cleanup_task_run_op os o w : cleanup_task (run_op os o w).2 = cleanup_task w.
Proof.
  assert (Hreaps : ∀ V w', reaps os V w w' → cleanup_task w' = cleanup_task w).
  { by intros V w' (extra & _ & _ & Htask & _). }
  destruct o as [sid now launch|sid|sid|now|]; cbn [run_op].
  - unfold bind. destruct (processes w !! sid) as [p|] eqn:Hp.
    + by rewrite (get_or_create_process_hit _ _ _ _ _ Hp).
    + destruct launch as [e|].
      * by rewrite (get_or_create_process_fail _ _ _ _ Hp).
      * by rewrite (get_or_create_process_spawn _ _ _ Hp).
  - unfold bind. destruct (process_locks w !! sid) as [l|] eqn:Hl.
    + by rewrite (get_process_lock_hit _ _ _ Hl).
    + by rewrite (get_process_lock_miss _ _ Hl).
  - eapply Hreaps, reaps_terminate_process.
  - eapply Hreaps, cleanup_idle_processes_reaps.
  - destruct (terminate_all_reaps os w) as (_ & w1 & Hr & ->).
    pose proof (Hreaps _ _ Hr) as Htask. by destruct (cleanup_task w).
Qed.

Lemma cleanup_task_run_ops os ops w : cleanup_task (run_ops os ops w) = cleanup_task w.
Proof.
  revert w. induction ops as [|o rest IH]; intros w; cbn; [done|].
  by rewrite IH, cleanup_task_run_op.
Qed.

(** X4.  From [startup_event] to [shutdown_event], whatever calls the
    handlers and the cleanup task make on the manager in between:
    [shutdown_event] does not raise, no process is registered afterwards,
    every process that a [Popen] ever started has got [terminate()], and
    the last thing done is the cancellation of the cleanup task. *)
Theorem no_worker_outlives_the_server os path ops :
  (server_life os ops (new_manager path)).1 = Ok tt
  ∧ processes (server_life os ops (new_manager path)).2 = ∅
  ∧ (∀ dir p,
       EvPopen dir (Some p) ∈ trace (server_life os ops (new_manager path)).2 →
       EvTerminate p ∈ trace (server_life os ops (new_manager path)).2)
  ∧ last (trace (server_life os ops (new_manager path)).2) = Some EvCancelCleanupTask.
Proof.
  unfold server_life, startup_event, shutdown_event, start_cleanup_task, bind, modify.
  cbv beta iota.
  set (w1 := run_ops os ops (set_cleanup_task true (new_manager path))).
  assert (Hacc : accounted w1).
  { apply accounted_run_ops. intros dir p Hin. cbn in Hin. inversion Hin. }
  assert (Htask : cleanup_task w1 = true) by (unfold w1; by rewrite cleanup_task_run_ops).
  destruct (terminate_all_reaps os w1) as (Hok & w2 & Hr & Hw2).
  rewrite Htask in Hw2.
  pose proof (accounted_reaps _ _ _ _ Hacc Hr) as Hacc2.
  assert (Hnone : ∀ sid, processes w2 !! sid = None).
  { destruct Hr as (extra & _ & _ & _ & _ & _ & Hsid & _). intros sid.
    destruct (Hsid sid) as [[He Hv]|(p & _ & _ & He & _)];
      unfold entries in He; injection He as -> _ _; [by apply Hv|done]. }
  split; [done|]. rewrite Hw2. cbn [processes trace add_event]. split_and!.
  - by apply map_empty.
  - intros dir p Hin. apply elem_of_app in Hin as [Hin|Hin].
    + destruct (Hacc2 dir p Hin) as [[sid Hp]|?].
      * by rewrite Hnone in Hp.
      * apply elem_of_app. by left.
    + apply elem_of_cons in Hin as [Hin|Hin]; [done|inversion Hin].
  - apply last_snoc.
Qed.

(** ** Scans of the cleanup task *)

Lemma world_eq w w' :
  processes w' = processes w → process_locks w' = process_locks w →
  last_activity w' = last_activity w → excel_files_path w' = excel_files_path w →
  cleanup_task w' = cleanup_task w → next_pid w' = next_pid w →
  next_lock w' = next_lock w → trace w' = trace w → w' = w.
Proof. destruct w, w'. cbn. by intros -> -> -> -> -> -> -> ->. Qed.

Lemma scanned_fresh now e p l t :
  scanned now e = (Some p, l, Some t) → (now - t ≤ idle_timeout)%Z.
Proof.
  unfold scanned. destruct e as [[[p0|] l0] [t0|]]; try by intros [= ].
  destruct (decide _) as [|Hn]; [done|]. intros [= _ _ <-]. lia.
Qed.

Lemma scanned_again t now e :
  (t ≤ now)%Z → scanned now (scanned t e) = scanned now e.
Proof.
  intros Hle. unfold scanned. destruct e as [[[p|] l] [t0|]]; try done.
  destruct (decide (t - t0 > idle_timeout)%Z) as [Hidle|Hfresh].
  - by rewrite decide_True by lia.
  - done.
Qed.

(** X5.  A scan does not raise.  After a scan at time [now], every
    session that still has a process and a time stamp was active at most
    300 before [now]; and a second scan at the same time changes nothing,
    the log included. *)
Theorem cleanup_leaves_no_idle_worker os now w :
  (cleanup_idle_processes os now w).1 = Ok tt
  ∧ (∀ sid p t,
       processes (cleanup_idle_processes os now w).2 !! sid = Some p →
       last_activity (cleanup_idle_processes os now w).2 !! sid = Some t →
       (now - t ≤ idle_timeout)%Z)
  ∧ cleanup_idle_processes os now (cleanup_idle_processes os now w).2
    = (Ok tt, (cleanup_idle_processes os now w).2).
Proof.
  destruct (cleanup_idle_processes_reaps os now w) as [Hok _].
  split; [done|]. 
  assert (Hfresh : ∀ sid p t,
       processes (cleanup_idle_processes os now w).2 !! sid = Some p →
       last_activity (cleanup_idle_processes os now w).2 !! sid = Some t →
       (now - t ≤ idle_timeout)%Z).
  { intros sid p t Hp Ht. pose proof (cleanup_entries os now w sid) as He.
    unfold entries at 1 in He. rewrite Hp, Ht in He.
    symmetry in He. by apply scanned_fresh in He. }
  split; [done|].
  set (w1 := (cleanup_idle_processes os now w).2) in *.
  destruct (cleanup_idle_processes_reaps os now w1) as [Hok2 Hr].
  destruct Hr as (calls & Ht & Hpath & Htask & Hpid & Hlock & Hsid & Hext).
  assert (calls = []) as ->.
  { destruct calls as [|e rest]; [done|].
    destruct (Hext e) as (sid & p & (t & Hl & Hidle) & Hp & _);
      [apply elem_of_cons; by left|].
    specialize (Hfresh sid p t Hp Hl). lia. }
  rewrite app_nil_r in Ht.
  destruct (cleanup_idle_processes os now w1) as [r w2] eqn:E. cbn in *.
  subst r. f_equal.
  assert (He : ∀ sid, entries w2 sid = entries w1 sid).
  { intros sid. destruct (Hsid sid) as [[He _]|(p & (t & Hl & Hidle) & Hp & _)]; [done|].
    specialize (Hfresh sid p t Hp Hl). lia. }
  destruct (entries_eq _ _ He) as (? & ? & ?). by apply world_eq.
Qed.

Lemma cleanup_loop_entries os times w sid :
  (cleanup_loop os times w).1 = Ok tt
  ∧ entries (cleanup_loop os times w).2 sid
    = foldl (fun e t => scanned t e) (entries w sid) times.
Proof.
  revert w. induction times as [|t rest IH]; intros w; [done|].
  unfold cleanup_loop in *. cbn [for_each foldl]. unfold bind.
  destruct (cleanup_idle_processes_reaps os t w) as [Hok _].
  pose proof (cleanup_entries os t w sid) as He.
  destruct (cleanup_idle_processes os t w) as [r w1]. cbn [fst snd] in Hok, He. subst r.
  cbv beta iota. rewrite <- He. apply IH.
Qed.

Lemma scans_before now times e :
  Forall (fun t => (t ≤ now)%Z) times →
  scanned now (foldl (fun e t => scanned t e) e times) = scanned now e.
Proof.
  intros Hall. revert e. induction Hall as [|t rest Ht _ IH]; intros e; [done|].
  cbn. rewrite IH. by apply scanned_again.
Qed.

(** X6.  The loop of the cleanup task never raises, so no failing
    shutdown ends it.  With no request in between, what it leaves in the
    three dictionaries depends on its last scan only: scans at times up to
    [now] followed by a scan at [now] leave what the one scan at [now]
    leaves. *)
Theorem cleanup_loop_as_last_scan os times now w :
  Forall (fun t => (t ≤ now)%Z) times →
  (cleanup_loop os (times ++ [now]) w).1 = Ok tt
  ∧ processes (cleanup_loop os (times ++ [now]) w).2
    = processes (cleanup_idle_processes os now w).2
  ∧ process_locks (cleanup_loop os (times ++ [now]) w).2
    = process_locks (cleanup_idle_processes os now w).2
  ∧ last_activity (cleanup_loop os (times ++ [now]) w).2
    = last_activity (cleanup_idle_processes os now w).2.
Proof.
  intros Hall. split; [apply (cleanup_loop_entries os _ w "")|].
  apply entries_eq. intros sid.
  rewrite (proj2 (cleanup_loop_entries os _ w sid)), cleanup_entries.
  rewrite foldl_app. cbn. by apply scans_before.
Qed.

Lemma cleanup_loop_as_last_scan_witness :
  Forall (fun t => (t ≤ 1000)%Z) [400; 700]%Z
  ∧ processes (cleanup_loop stubborn ([400; 700]%Z ++ [1000%Z]) two_sessions).2
    = processes (cleanup_idle_processes stubborn 1000 two_sessions).2.
Proof.
  assert (Hall : Forall (fun t => (t ≤ 1000)%Z) [400; 700]%Z)
    by (repeat constructor; lia).
  split; [exact Hall|].
  exact (proj1 (proj2 (cleanup_loop_as_last_scan stubborn [400; 700]%Z 1000
                         two_sessions Hall))).
Defined.

Lemma run_op_keeps_orphan os o w sid :
  ¬ creates sid o → processes w !! sid = None →
  processes (run_op os o w).2 !! sid = None
  ∧ last_activity (run_op os o w).2 !! sid = last_activity w !! sid
  ∧ (∀ l, process_locks w !! sid = Some l →
          process_locks (run_op os o w).2 !! sid = Some l).
Proof.
  intros Hnot Hp.
  assert (Hreaps : ∀ V w', reaps os V w w' →
            processes w' !! sid = None
            ∧ last_activity w' !! sid = last_activity w !! sid
            ∧ (∀ l, process_locks w !! sid = Some l → process_locks w' !! sid = Some l)).
  { intros V w' (calls & _ & _ & _ & _ & _ & Hsid & _).
    destruct (Hsid sid) as [[He _]|(p & _ & Hp' & _)]; [|congruence].
    unfold entries in He. injection He as -> -> ->. by rewrite Hp. }
  destruct o as [sid' now launch|sid'| sid'|now|]; cbn [run_op].
  - assert (sid' ≠ sid) as Hne by (intros ->; by apply Hnot).
    unfold bind. destruct (processes w !! sid') as [p|] eqn:Hp'.
    + rewrite (get_or_create_process_hit _ _ _ _ _ Hp'). cbn.
      by rewrite lookup_insert_ne.
    + destruct launch as [e|].
      * by rewrite (get_or_create_process_fail _ _ _ _ Hp').
      * rewrite (get_or_create_process_spawn _ _ _ Hp'). cbn.
        rewrite !lookup_insert_ne by done. done.
  - unfold bind. destruct (process_locks w !! sid') as [l|] eqn:Hl.
    + by rewrite (get_process_lock_hit _ _ _ Hl).
    + rewrite (get_process_lock_miss _ _ Hl). cbn. split_and!; try done.
      intros l Hl'. rewrite lookup_insert_ne; [done|]. intros ->. congruence.
  - eapply Hreaps, reaps_terminate_process.
  - eapply Hreaps, cleanup_idle_processes_reaps.
  - destruct (terminate_all_reaps os w) as (_ & w1 & Hr & ->).
    destruct (Hreaps _ _ Hr) as (? & ? & ?). by destruct (cleanup_task w).
Qed.

(** X7.  Entries without a process are never cleaned up.  For a
    session that has no process, no call of [get_process_lock],
    [terminate_process], [cleanup_idle_processes] or [terminate_all], and
    no call of [get_or_create_process] for another session, changes that:
    the session still has no process, its time stamp (if it has one) is
    what it was, and a lock it has stays in the lock dictionary. *)
Theorem entries_without_process_stay os ops w sid :
  processes w !! sid = None →
  Forall (fun o => ¬ creates sid o) ops →
  processes (run_ops os ops w) !! sid = None
  ∧ last_activity (run_ops os ops w) !! sid = last_activity w !! sid
  ∧ (∀ l, process_locks w !! sid = Some l →
          process_locks (run_ops os ops w) !! sid = Some l).
Proof.
  intros Hp Hall. revert w Hp.
  induction Hall as [|o rest Ho _ IH]; intros w Hp; [done|].
  cbn [run_ops].
  destruct (run_op_keeps_orphan os o w sid Ho Hp) as (Hp1 & Ht1 & Hl1).
  destruct (IH _ Hp1) as (Hp2 & Ht2 & Hl2).
  split_and!; [done|congruence|]. intros l Hl. by apply Hl2, Hl1.
Qed.

Lemma entries_without_process_stay_witness :
  process_locks
    (run_ops obedient
       [OpTerminateProcess "ghost"; OpCleanupIdleProcesses 1000; OpTerminateAll]
       (run_ops obedient [OpGetProcessLock "ghost"] (new_manager "/data")))
    !! "ghost" = Some 0%nat.
Proof.
  refine (proj2 (proj2 (entries_without_process_stay obedient
            [OpTerminateProcess "ghost"; OpCleanupIdleProcesses 1000; OpTerminateAll]
            (run_ops obedient [OpGetProcessLock "ghost"] (new_manager "/data"))
            "ghost" _ _)) 0%nat _).
  - reflexivity.
  - repeat constructor; intros [].
  - reflexivity.
Defined.

(** ** The directory the workers get *)

Lemma launch_paths_app a b : launch_paths (a ++ b) = launch_paths a ++ launch_paths b.
Proof. apply omap_app. Qed.

Lemma launch_paths_shutdown os (V : string → Prop) (w : World) extra :
  (∀ e, e ∈ extra →
     ∃ sid p, V sid ∧ processes w !! sid = Some p ∧ e ∈ shutdown_calls os p) →
  launch_paths extra = [].
Proof.
  induction extra as [|e rest IH]; intros Hall; [done|].
  destruct (Hall e) as (sid & p & _ & _ & He); [apply elem_of_cons; by left|].
  assert (launch_paths [e] = []) as He'.
  { unfold shutdown_calls in He.
    destruct (on_terminate (os p)); [|destruct (on_wait (os p)) as [[]|]];
      repeat (apply elem_of_cons in He as [->|He]; [done|]); inversion He. }
  change (e :: rest) with ([e] ++ rest). rewrite launch_paths_app, He'. cbn.
  apply IH. intros e' He''. apply Hall. apply elem_of_cons. by right.
Qed.

Lemma run_op_launch_paths os o w :
  excel_files_path (run_op os o w).2 = excel_files_path w
  ∧ ∃ new, trace (run_op os o w).2 = trace w ++ new
           ∧ Forall (fun path => path = excel_files_path w) (launch_paths new).
Proof.
  assert (Hreaps : ∀ V w', reaps os V w w' →
            excel_files_path w' = excel_files_path w
            ∧ ∃ new, trace w' = trace w ++ new ∧ launch_paths new = []).
  { intros V w' (extra & Ht & Hpath & _ & _ & _ & _ & Hext).
    split; [done|]. exists extra. split; [done|].
    by eapply launch_paths_shutdown. }
  assert (Hquiet : ∀ w',
            (excel_files_path w' = excel_files_path w
             ∧ ∃ new, trace w' = trace w ++ new ∧ launch_paths new = []) →
            excel_files_path w' = excel_files_path w
            ∧ ∃ new, trace w' = trace w ++ new
                     ∧ Forall (fun path => path = excel_files_path w) (launch_paths new)).
  { intros w' (Hpath & new & Ht & Hl). split; [done|]. exists new.
    split; [done|]. rewrite Hl. constructor. }
  destruct o as [sid now launch|sid|sid|now|]; cbn [run_op].
  - unfold bind. destruct (processes w !! sid) as [p|] eqn:Hp.
    + rewrite (get_or_create_process_hit _ _ _ _ _ Hp). cbn. split; [done|].
      exists []. by rewrite app_nil_r.
    + destruct launch as [e|].
      * rewrite (get_or_create_process_fail _ _ _ _ Hp). cbn. split; [done|].
        eexists. split; [done|]. by repeat constructor.
      * rewrite (get_or_create_process_spawn _ _ _ Hp). cbn. split; [done|].
        eexists. split; [done|]. by repeat constructor.
  - unfold bind. destruct (process_locks w !! sid) as [l|] eqn:Hl.
    + rewrite (get_process_lock_hit _ _ _ Hl). cbn. split; [done|].
      exists []. by rewrite app_nil_r.
    + rewrite (get_process_lock_miss _ _ Hl). cbn. split; [done|].
      exists []. by rewrite app_nil_r.
  - eapply Hquiet, Hreaps, reaps_terminate_process.
  - eapply Hquiet, Hreaps, cleanup_idle_processes_reaps.
  - destruct (terminate_all_reaps os w) as (_ & w1 & Hr & ->).
    destruct (Hreaps _ _ Hr) as (Hpath & new & Ht & Hl).
    apply Hquiet. destruct (cleanup_task w); cbn.
    + split; [done|]. exists (new ++ [EvCancelCleanupTask]).
      split; [by rewrite Ht, app_assoc|]. by rewrite launch_paths_app, Hl.
    + split; [done|]. by exists new.
Qed.

Lemma run_ops_launch_paths os ops w :
  excel_files_path (run_ops os ops w) = excel_files_path w
  ∧ ∃ new, trace (run_ops os ops w) = trace w ++ new
           ∧ Forall (fun path => path = excel_files_path w) (launch_paths new).
Proof.
  revert w. induction ops as [|o rest IH]; intros w; cbn [run_ops].
  { split; [done|]. exists []. by rewrite app_nil_r. }
  destruct (run_op_launch_paths os o w) as (Hp1 & new1 & Ht1 & Hl1).
  destruct (IH (run_op os o w).2) as (Hp2 & new2 & Ht2 & Hl2).
  split; [congruence|]. exists (new1 ++ new2).
  split; [by rewrite Ht2, Ht1, app_assoc|].
  rewrite launch_paths_app. apply Forall_app. split; [done|].
  by rewrite Hp1 in Hl2.
Qed.

(** X8.  The module's manager exists when [os.makedirs] does not raise;
    its directory is the value of [EXCEL_FILES_PATH] when that is set and
    not empty, and [excel_mcp_files] under the temporary directory
    otherwise (an empty value counts as unset); it is never the empty
    string.  No call on the manager changes it, and every [Popen] of the
    manager hands this directory to its worker. *)
Theorem workers_get_the_managers_directory os env tmpdir makedirs ops w :
  process_manager env tmpdir makedirs = Ok w →
  ∃ path,
    makedirs = None
    ∧ ((env = Some path ∧ path ≠ "")
       ∨ ((env = None ∨ env = Some "") ∧ path = path_join tmpdir "excel_mcp_files"))
    ∧ path ≠ ""
    ∧ excel_files_path (run_ops os ops w) = path
    ∧ Forall (fun p => p = path) (launch_paths (trace (run_ops os ops w))).
Proof.
  unfold process_manager, get_excel_files_path.
  destruct makedirs as [e|]; [done|]. intros [= <-].
  set (path := match env with
               | Some value =>
                   if decide (value = "") then path_join tmpdir "excel_mcp_files"
                   else value
               | None => path_join tmpdir "excel_mcp_files"
               end).
  destruct (run_ops_launch_paths os ops (new_manager path)) as (Hpath & new & Ht & Hl).
  exists path. split; [done|]. split_and!.
  - unfold path. destruct env as [value|]; [|right; split; [by left|done]].
    destruct (decide (value = "")) as [->|Hne]; [right; split; [by right|done]|].
    left. done.
  - assert (Hj : path_join tmpdir "excel_mcp_files" ≠ "").
    { unfold path_join. cbn. destruct (decide (tmpdir = "")); [done|].
      destruct tmpdir; [done|]. by destruct (ends_with_slash _). }
    unfold path. destruct env as [value|]; [|done].
    by destruct (decide (value = "")).
  - exact Hpath.
  - change (Forall (fun p => p = path)
              (launch_paths (trace (run_ops os ops (new_manager path))))).
    rewrite Ht. exact Hl.
Qed.

Lemma workers_get_the_managers_directory_witness :
  excel_files_path
    (run_ops obedient [OpGetOrCreateProcess "alice" 0 None]
       (new_manager "/tmp/excel_mcp_files"))
  = "/tmp/excel_mcp_files".
Proof.
  destruct (workers_get_the_managers_directory obedient (Some "") "/tmp" None
              [OpGetOrCreateProcess "alice" 0 None]
              (new_manager "/tmp/excel_mcp_files") eq_refl)
    as (path & _ & [[[= <-] Hne]|[_ ->]] & _ & Hpath & _).
  - by destruct Hne.
  - exact Hpath.
Defined.

(** ** What a request does to the manager *)

Lemma shutdown_calls_tame os p :
  Forall (fun e => tame p e ∧ ¬ is_pipe_call e) (shutdown_calls os p).
Proof.
  unfold shutdown_calls, tame.
  destruct (on_terminate (os p)); [|destruct (on_wait (os p)) as [[]|]];
    repeat constructor; try (by intros []); by intros q [= <-].
Qed.

Lemma tame_weaken p es :
  Forall (fun e => tame p e ∧ ¬ is_pipe_call e) es → Forall (tame p) es.
Proof. intros Hall. eapply Forall_impl; [exact Hall|]. by intros e [? _]. Qed.

Lemma loop_events_tame p lines : Forall (tame p) (loop_events p lines).
Proof.
  unfold loop_events. apply Forall_app. split.
  - induction (lines_read lines) as [|[line now] rest IH]; [constructor|].
    cbn. repeat constructor; try (by intros []); try (by intros q [= <-]); try done.
  - repeat constructor; try (by intros []); by intros q [= <-].
Qed.

Lemma forget_entries sid es w sid' :
  sid' ≠ sid → entries (forget sid es w) sid' = entries w sid'.
Proof. intros Hne. unfold entries. cbn. by rewrite !lookup_delete_ne. Qed.

Lemma forget_gone sid es w : entries (forget sid es w) sid = (None, None, None).
Proof. unfold entries. cbn. by rewrite !lookup_delete_eq. Qed.

Ltac tame_list :=
  repeat first
    [ apply shutdown_calls_tame
    | apply tame_weaken, shutdown_calls_tame
    | apply loop_events_tame
    | apply Forall_nil_2
    | apply Forall_cons; split
    | apply Forall_app; split ];
  try (split; [|by intros []]);
  try (split; [by intros []|by intros q [= <-]]).
Section Handlers.
Context `{PyRuntime}.

Lemma exchange_handled os sid p l body io w :
  processes w !! sid = Some p → is_Some (last_activity w !! sid) →
  handled sid p l w (exchange os sid p l body io w).2.
Proof.
  intros Hp Hl.
  assert (Hforget : ∀ mid post,
    Forall (tame p) mid → Forall (fun e => tame p e ∧ ¬ is_pipe_call e) post →
    handled sid p l w (forget sid (EvAcquire l :: mid ++ EvRelease l :: post) w)).
  { intros mid post Hmid Hpost. exists mid, post. split_and!; try done.
    - intros sid' Hne. by apply forget_entries.
    - left. apply forget_gone. }
  destruct (on_write io) as [e|] eqn:Hw.
  { rewrite (exchange_write_raises _ _ _ _ _ _ _ _ Hw Hp).
    apply (Hforget [EvWrite p (body +:+ newline)] (shutdown_calls os p)); tame_list. }
  destruct (on_flush io) as [e|] eqn:Hf.
  { rewrite (exchange_flush_raises _ _ _ _ _ _ _ _ Hw Hf Hp).
    apply (Hforget [EvWrite p (body +:+ newline); EvFlush p] (shutdown_calls os p));
      tame_list. }
  destruct (on_readline io) as [line|e] eqn:Hrd.
  2: { rewrite (exchange_read_raises _ _ _ _ _ _ _ _ Hw Hf Hrd Hp).
       apply (Hforget [EvWrite p (body +:+ newline); EvFlush p; EvReadline p]
                (shutdown_calls os p)); tame_list. }
  destruct (decide (line = "")) as [->|Hline].
  { rewrite (exchange_eof _ _ _ _ _ _ _ Hw Hf Hrd Hp). cbn [snd].
    replace ([EvAcquire l; EvWrite p (body +:+ newline); EvFlush p; EvReadline p]
             ++ shutdown_calls os p ++ [EvRelease l])
      with (EvAcquire l :: ([EvWrite p (body +:+ newline); EvFlush p; EvReadline p]
                            ++ shutdown_calls os p) ++ EvRelease l :: [])
      by (cbn; by rewrite <- ?app_assoc).
    apply Hforget; tame_list. }
  rewrite (exchange_line _ _ _ _ _ _ _ _ Hw Hf Hrd Hline Hp).
  destruct (response_for sid line) as [resp|e].
  - exists [EvWrite p (body +:+ newline); EvFlush p; EvReadline p], [].
    split_and!; try done; tame_list. right. done.
  - apply (Hforget [EvWrite p (body +:+ newline); EvFlush p; EvReadline p]
             (shutdown_calls os p)); tame_list.
Qed.

Lemma touched_other sid lines m sid' :
  sid' ≠ sid → touched sid lines m !! sid' = m !! sid'.
Proof.
  intros Hne. unfold touched. destruct (last lines) as [[? ?]|]; [|done].
  by rewrite lookup_insert_ne.
Qed.

Lemma touched_own sid lines m :
  is_Some (m !! sid) → is_Some (touched sid lines m !! sid).
Proof.
  intros Hm. unfold touched. destruct (last lines) as [[? ?]|]; [|done].
  rewrite lookup_insert_eq. eauto.
Qed.

Lemma generator_handled os sid p l body io w :
  processes w !! sid = Some p → is_Some (last_activity w !! sid) →
  handled sid p l w (response_generator os sid p l body io w).2.
Proof.
  intros Hp Hl. rewrite (response_generator_spec _ _ _ _ _ _ _ Hp). cbn [snd].
  assert (Hev : ∃ mid, stream_events p l body io = EvAcquire l :: mid ++ [EvRelease l]
                       ∧ Forall (tame p) mid).
  { unfold stream_events.
    destruct (s_on_write io); [|destruct (s_on_flush io)].
    - exists [EvWrite p (body +:+ newline)]. split; [done|]. tame_list.
    - exists [EvWrite p (body +:+ newline); EvFlush p]. split; [done|]. tame_list.
    - exists (EvWrite p (body +:+ newline) :: EvFlush p :: loop_events p (s_lines io)).
      split; [cbn; by rewrite <- ?app_assoc|]. tame_list. }
  destruct Hev as (mid & -> & Hmid).
  destruct (stream_raises io) as [e|].
  - exists mid, (shutdown_calls os p ++ [EvYield ("Error: " +:+ str_exn e)]).
    split_and!; try done.
    + cbn. by rewrite <- !app_assoc.
    + tame_list.
    + intros sid' Hne. by apply forget_entries.
    + left. apply forget_gone.
  - exists mid, []. split_and!; try done.
    + intros sid' Hne. unfold entries. cbn. by rewrite touched_other.
    + right. cbn. split_and!; try done. by apply touched_own.
Qed.

(** Lines 164-165 and 277-278, case by case. *)
Lemma resolve_frame now launch sid w :
  (∃ p l w1,
     resolve now launch sid w = (Ok (p, l), w1)
     ∧ processes w1 !! sid = Some p
     ∧ process_locks w1 !! sid = Some l
     ∧ last_activity w1 !! sid = Some now
     ∧ excel_files_path w1 = excel_files_path w
     ∧ (∀ sid', sid' ≠ sid → entries w1 sid' = entries w sid')
     ∧ ((processes w !! sid = Some p ∧ trace w1 = trace w
         ∧ next_pid w1 = next_pid w)
        ∨ (processes w !! sid = None ∧ launch = None ∧ p = next_pid w
           ∧ trace w1 = trace w ++ [EvPopen (excel_files_path w) (Some p)])))
  ∨ (∃ e, launch = Some e ∧ processes w !! sid = None
          ∧ resolve now launch sid w
            = (Raise e, add_event (EvPopen (excel_files_path w) None) w)).
Proof.
  unfold resolve, bind. destruct (processes w !! sid) as [p|] eqn:Hp.
  - left. rewrite (get_or_create_process_hit _ _ _ _ _ Hp).
    destruct (process_locks w !! sid) as [l|] eqn:Hl.
    + rewrite get_process_lock_hit with (l := l) by done.
      eexists p, l, _. split; [done|]. cbn. rewrite lookup_insert_eq.
      split_and!; try done.
      * intros sid' Hne. unfold entries. cbn. by rewrite lookup_insert_ne.
      * by left.
    + rewrite get_process_lock_miss by done.
      eexists p, _, _. split; [done|]. cbn. rewrite !lookup_insert_eq.
      split_and!; try done.
      * intros sid' Hne. unfold entries. cbn. by rewrite !lookup_insert_ne.
      * by left.
  - destruct launch as [e|].
    + right. exists e. by rewrite (get_or_create_process_fail _ _ _ _ Hp).
    + left. rewrite (get_or_create_process_spawn _ _ _ Hp).
      rewrite get_process_lock_hit with (l := next_lock w)
        by (cbn; apply lookup_insert_eq).
      eexists _, _, _. split; [done|]. cbn. rewrite !lookup_insert_eq.
      split_and!; try done.
      * intros sid' Hne. unfold entries. cbn. by rewrite !lookup_insert_ne.
      * by right.
Qed.

End Handlers.

Section Served.
Context `{PyRuntime}.

Lemma handle_request_served os header uuid body now launch io w :
  served now launch (default uuid header) w
    (handle_request os header uuid body now launch io w).2.
Proof.
  unfold served.
  destruct (resolve_frame now launch (default uuid header) w)
    as [(p & l & w1 & Hr & Hp & _ & Hl & _)|(e & _ & _ & Hr)]; rewrite Hr.
  - rewrite (handle_request_resolved _ _ _ _ _ _ _ _ _ _ _ Hr).
    apply exchange_handled; [done|]. rewrite Hl. eauto.
  - by rewrite (handle_request_launch_fails _ _ _ _ _ _ _ _ _ _ Hr).
Qed.

Lemma serve_stream_served os header uuid body now launch io w :
  served now launch (default uuid header) w
    (serve_stream os header uuid body now launch io w).2.
Proof.
  unfold served.
  destruct (resolve_frame now launch (default uuid header) w)
    as [(p & l & w1 & Hr & Hp & _ & Hl & _)|(e & _ & _ & Hr)]; rewrite Hr.
  - rewrite (serve_stream_resolved _ _ _ _ _ _ io _ _ _ _ Hr). cbn [snd].
    apply generator_handled; [done|]. rewrite Hl. eauto.
  - by rewrite (serve_stream_launch_fails _ _ _ _ _ _ _ _ _ _ Hr).
Qed.

End Served.

Lemma tame_other p p' es :
  p' ≠ p → Forall (tame p) es → Forall (fun e => event_pid e ≠ Some p') es.
Proof.
  intros Hne Hall. eapply Forall_impl; [exact Hall|].
  intros e [_ He] Hp'. apply Hne. by apply He.
Qed.

Lemma served_leaves_alone now launch sid w w' sid' :
  registry_ok w → sid' ≠ sid → served now launch sid w w' → leaves_alone sid' w w'.
Proof.
  intros (Ha & Hi & _) Hne. unfold served.
  destruct (resolve_frame now launch sid w)
    as [(p & l & w1 & Hr & Hp & _ & _ & _ & Hoth & Hcase)|(e & _ & _ & Hr)];
    rewrite Hr.
  - intros (mid & post & Ht & Hmid & Hpost & _ & _ & _ & Hoth' & _).
    split; [by rewrite Hoth', Hoth|].
    assert (Hother : ∀ p', processes w !! sid' = Some p' → p' ≠ p).
    { intros p' Hp' Heq. destruct Hcase as [(Hp0 & _)|(_ & _ & Hpn & _)].
      - apply Hne. apply (Hi sid' sid p); [by rewrite <- Heq|done].
      - specialize (Ha _ _ Hp'). lia. }
    assert (Hblock : ∀ p', processes w !! sid' = Some p' →
              Forall (fun e => event_pid e ≠ Some p')
                (EvAcquire l :: mid ++ EvRelease l :: post)).
    { intros p' Hp'. specialize (Hother p' Hp').
      apply Forall_cons; split; [done|]. apply Forall_app; split.
      - by apply (tame_other p).
      - apply Forall_cons; split; [done|].
        apply (tame_other p); [done|]. eapply Forall_impl; [exact Hpost|].
        by intros e [? _]. }
    destruct Hcase as [(_ & Ht1 & _)|(_ & _ & Hpn & Ht1)].
    + eexists. split; [by rewrite Ht, Ht1|]. exact Hblock.
    + eexists. split; [by rewrite Ht, Ht1, <- app_assoc|].
      intros p' Hp'. apply Forall_app; split; [|by apply Hblock].
      apply Forall_cons; split; [|done]. cbn. intros [= Heq].
      specialize (Ha _ _ Hp'). lia.
  - intros ->. split; [done|]. exists [EvPopen (excel_files_path w) None].
    split; [done|]. intros p' _. by repeat constructor.
Qed.

Lemma served_in_step now launch sid w w' :
  in_step w → served now launch sid w w' → in_step w'.
Proof.
  intros Hw. unfold served.
  destruct (resolve_frame now launch sid w)
    as [(p & l & w1 & Hr & Hp & Hl & Ht & _ & Hoth & _)|(e & _ & _ & Hr)];
    rewrite Hr.
  - intros (mid & post & _ & _ & _ & _ & _ & _ & Hoth' & Hown) sid'.
    destruct (decide (sid' = sid)) as [->|Hne].
    + destruct Hown as [He|(Hp' & Hl' & Ht')].
      * unfold entries in He. injection He as -> -> ->.
        split; [split|]; intros [? ?]; done.
      * rewrite Hp', Hl', Hp, Hl. split; [split|]; eauto.
    + specialize (Hoth' sid' Hne). specialize (Hoth sid' Hne).
      rewrite Hoth in Hoth'. unfold entries in Hoth'.
      injection Hoth' as -> -> ->. apply Hw.
  - intros ->. exact Hw.
Qed.

Lemma served_registry_ok now launch sid w w' :
  registry_ok w → served now launch sid w w' → registry_ok w'.
Proof.
  intros Hok. unfold served.
  destruct (resolve_frame now launch sid w)
    as [(p & l & w1 & Hr & _ & _ & _ & _ & _ & Hcase)|(e & _ & _ & Hr)];
    rewrite Hr.
  - assert (Hres : is_Some (processes w !! sid) ∨ launch = None).
    { destruct Hcase as [(Hp0 & _)|(_ & Hl & _)]; [left; eauto|by right]. }
    destruct (resolve_ok now launch sid w Hres)
      as (p2 & l2 & w2 & Hr2 & _ & _ & _ & _ & Hok1 & _).
    rewrite Hr in Hr2. injection Hr2 as <- <- <-.
    intros (mid & post & _ & _ & _ & Hnp & Hnl & _ & Hoth & Hown).
    apply (registry_ok_shrinks w1); [by apply Hok1|].
    split; [done|]. split; [done|]. intros sid'.
    destruct (decide (sid' = sid)) as [->|Hne].
    + destruct Hown as [He|(Hp' & Hl' & _)]; [right|by left].
      unfold entries in He. by injection He as -> -> _.
    + left. specialize (Hoth sid' Hne). unfold entries in Hoth.
      by injection Hoth as -> -> _.
  - intros ->. by apply (registry_ok_same_processes w).
Qed.

Lemma served_under_lock now launch sid w w' p l w1 :
  resolve now launch sid w = (Ok (p, l), w1) → served now launch sid w w' →
  ∃ new, trace w' = trace w ++ new ∧ under_lock l new.
Proof.
  intros Hr. unfold served. rewrite Hr.
  intros (mid & post & Ht & Hmid & Hpost & _).
  assert (Hquiet : Forall (fun e => ¬ is_pipe_call e ∧ ¬ is_lock_call e) post).
  { eapply Forall_impl; [exact Hpost|]. by intros e [[? _] ?]. }
  assert (Hm : Forall (fun e => ¬ is_lock_call e) mid).
  { eapply Forall_impl; [exact Hmid|]. by intros e [? _]. }
  destruct (resolve_frame now launch sid w)
    as [(p' & l' & w1' & Hr' & _ & _ & _ & _ & _ & Hcase)|(e & _ & _ & Hr')];
    rewrite Hr in Hr'; [|done]. injection Hr' as <- <- <-.
  destruct Hcase as [(_ & Ht1 & _)|(_ & _ & _ & Ht1)].
  - exists (EvAcquire l :: mid ++ EvRelease l :: post).
    split; [by rewrite Ht, Ht1|]. by exists [], mid, post.
  - exists ([EvPopen (excel_files_path w) (Some p)]
            ++ EvAcquire l :: mid ++ EvRelease l :: post).
    split; [by rewrite Ht, Ht1, <- app_assoc|].
    exists [EvPopen (excel_files_path w) (Some p)], mid, post.
    split_and!; try done. apply Forall_app; split; [|done].
    repeat constructor; by intros [].
Qed.

Section HandlerProperties.
Context `{PyRuntime}.

(** X9.  A request served to its end, unary or streamed, leaves every
    other session alone: the entries of another session in the three
    dictionaries are what they were, and none of the calls the request
    makes (launch, pipe calls, shutdown calls) is on the process of
    another session.  This holds on every path of the handlers, the
    failing launch and the failing exchange included. *)
Theorem http_requests_leave_other_sessions_alone
    os header uuid body now launch w sid' :
  registry_ok w → sid' ≠ default uuid header →
  (∀ io, leaves_alone sid' w (handle_request os header uuid body now launch io w).2)
  ∧ (∀ io, leaves_alone sid' w (serve_stream os header uuid body now launch io w).2).
Proof.
  intros Hok Hne. split; intros io.
  - eapply served_leaves_alone; [done..|apply handle_request_served].
  - eapply served_leaves_alone; [done..|apply serve_stream_served].
Qed.

(** X10.  A request that gets a worker takes the session's lock
    exactly once and releases it on every path: the calls it makes are
    the launch if there was one, the acquisition, calls among which are
    all its calls on the worker's pipes, the release, and then at most
    shutdown calls and a last chunk.  The lock is the one registered for
    the session when the block is entered. *)
Theorem http_requests_work_under_lock os header uuid body now launch w :
  is_Some (processes w !! default uuid header) ∨ launch = None →
  ∃ p l w1,
    resolve now launch (default uuid header) w = (Ok (p, l), w1)
    ∧ process_locks w1 !! default uuid header = Some l
    ∧ (∀ io, ∃ new,
         trace (handle_request os header uuid body now launch io w).2 = trace w ++ new
         ∧ under_lock l new)
    ∧ (∀ io, ∃ new,
         trace (serve_stream os header uuid body now launch io w).2 = trace w ++ new
         ∧ under_lock l new).
Proof.
  intros Hres.
  destruct (resolve_frame now launch (default uuid header) w)
    as [(p & l & w1 & Hr & _ & Hl & _)|(e & -> & Hp & _)].
  - exists p, l, w1. split_and!; try done; intros io.
    + eapply served_under_lock; [exact Hr|apply handle_request_served].
    + eapply served_under_lock; [exact Hr|apply serve_stream_served].
  - rewrite Hp in Hres. by destruct Hres as [[? ?]|?].
Qed.

(** X11.  The handlers keep the manager well formed on every path: the
    registered processes and locks are objects that were created, no
    process is registered under two ids; and the three dictionaries stay
    in step (a session has a process exactly when it has a time stamp,
    and then it has a lock). *)
Theorem http_requests_keep_registry os header uuid body now launch w :
  (registry_ok w →
     (∀ io, registry_ok (handle_request os header uuid body now launch io w).2)
     ∧ (∀ io, registry_ok (serve_stream os header uuid body now launch io w).2))
  ∧ (in_step w →
       (∀ io, in_step (handle_request os header uuid body now launch io w).2)
       ∧ (∀ io, in_step (serve_stream os header uuid body now launch io w).2)).
Proof.
  split; intros Hw; split; intros io.
  - eapply served_registry_ok; [done|apply handle_request_served].
  - eapply served_registry_ok; [done|apply serve_stream_served].
  - eapply served_in_step; [done|apply handle_request_served].
  - eapply served_in_step; [done|apply serve_stream_served].
Qed.

End HandlerProperties.

Lemma http_requests_leave_other_sessions_alone_witness :
  leaves_alone "old" two_sessions
    (handle_request stubborn (Some "new") "uuid-1" "{}" 250 None
       (mkUnaryIO None None (Ok "")) two_sessions).2.
Proof.
  refine (proj1 (http_requests_leave_other_sessions_alone stubborn (Some "new")
                   "uuid-1" "{}" 250 None two_sessions "old" _ _) _).
  - apply reachable_registry_ok. by eexists _, _, _.
  - discriminate.
Defined.

Lemma http_requests_work_under_lock_witness :
  ∃ l new,
    trace (serve_stream obedient (Some "alice") "uuid-1" "{}" 3 None
             (mkStreamIO None None [("1", 4%Z)] None) (new_manager "/data")).2
    = trace (new_manager "/data") ++ new
    ∧ under_lock l new.
Proof.
  destruct (http_requests_work_under_lock obedient (Some "alice") "uuid-1" "{}" 3 None
              (new_manager "/data") (or_intror eq_refl))
    as (p & l & w1 & _ & _ & _ & Hstream).
  destruct (Hstream (mkStreamIO None None [("1", 4%Z)] None)) as (new & Ht & Hu).
  exists l, new. exact (conj Ht Hu).
Defined.

Lemma http_requests_keep_registry_witness :
  in_step (serve_stream stubborn (Some "alice") "uuid-1" "{}" 3 None
             (mkStreamIO None None [("1", 4%Z)] (Some (Error "Broken pipe")))
             (new_manager "/data")).2.
Proof.
  exact (proj2 (proj2 (http_requests_keep_registry stubborn (Some "alice") "uuid-1"
                         "{}" 3 None (new_manager "/data"))
                  (in_step_new "/data")) _).
Defined.

(** ** More on the unary handler *)

Section MoreUnary.
Context `{PyRuntime}.

Lemma exchange_writes os sid p l body io w :
  processes w !! sid = Some p →
  ∃ new, trace (exchange os sid p l body io w).2 = trace w ++ new
         ∧ writes_of new = [(p, body +:+ newline)]
         ∧ launches_of new = [].
Proof.
  intros Hp. destruct (shutdown_calls_quiet os p) as [Hq1 Hq2].
  destruct (on_write io) as [e|] eqn:Hw.
  { rewrite (exchange_write_raises _ _ _ _ _ _ _ _ Hw Hp). eexists. split; [done|].
    by rewrite writes_of_app, launches_of_app, Hq1, Hq2. }
  destruct (on_flush io) as [e|] eqn:Hf.
  { rewrite (exchange_flush_raises _ _ _ _ _ _ _ _ Hw Hf Hp). eexists. split; [done|].
    by rewrite writes_of_app, launches_of_app, Hq1, Hq2. }
  destruct (on_readline io) as [line|e] eqn:Hrd.
  2: { rewrite (exchange_read_raises _ _ _ _ _ _ _ _ Hw Hf Hrd Hp).
       eexists. split; [done|].
       by rewrite writes_of_app, launches_of_app, Hq1, Hq2. }
  destruct (decide (line = "")) as [->|Hline].
  { rewrite (exchange_eof _ _ _ _ _ _ _ Hw Hf Hrd Hp). eexists. split; [done|].
    by rewrite writes_of_app, launches_of_app, writes_of_app, launches_of_app, Hq1, Hq2. }
  rewrite (exchange_line _ _ _ _ _ _ _ _ Hw Hf Hrd Hline Hp).
  destruct (response_for sid line) as [resp|e].
  - eexists. split; [done|]. done.
  - eexists. split; [done|].
    by rewrite writes_of_app, launches_of_app, Hq1, Hq2.
Qed.

(** X12.  A line of the worker that the handler cannot read costs the
    session its worker.  When the exchange is complete and the line is
    not empty but is not valid UTF-8, or [json.loads] raises anything but
    [JSONDecodeError] on it, the line is not passed on: the handler
    raises [HTTPException] with status 500 and the message of that
    exception, after the lock is released the worker gets the shutdown
    calls, and the session is forgotten. *)
Theorem unreadable_line_costs_the_worker os header uuid body now launch io w line :
  is_Some (processes w !! default uuid header) ∨ launch = None →
  on_write io = None → on_flush io = None → on_readline io = Ok line →
  line ≠ "" →
  ∃ p l w1,
    resolve now launch (default uuid header) w = (Ok (p, l), w1)
    ∧ ∀ e,
        (utf8_valid line = false ∧ e = Error (str_UnicodeDecodeError line))
        ∨ (utf8_valid line = true ∧ json_loads line = Raise e
           ∧ ∀ msg, e ≠ JSONDecodeError msg) →
        handle_request os header uuid body now launch io w
        = (Raise (HTTPException 500 ("Error processing request: " +:+ str_exn e)),
           forget (default uuid header)
             ([EvAcquire l; EvWrite p (body +:+ newline); EvFlush p;
               EvReadline p; EvRelease l] ++ shutdown_calls os p) w1).
Proof.
  intros Hres Hw Hf Hrd Hline.
  destruct (resolve_ok now launch _ w Hres) as (p & l & w1 & Hr & Hp1 & _).
  exists p, l, w1. split; [done|]. intros e He.
  rewrite (handle_request_resolved _ _ _ _ _ _ _ _ _ _ _ Hr).
  rewrite (exchange_line _ _ _ _ _ _ _ _ Hw Hf Hrd Hline Hp1).
  assert (response_for (default uuid header) line = Raise e) as ->; [|done].
  unfold response_for, decode_utf8.
  destruct He as [[-> ->]|(-> & -> & Hnot)]; [done|].
  destruct e; try done. by destruct (Hnot msg).
Qed.

End MoreUnary.

Lemma unreadable_line_costs_the_worker_witness :
  client_status
    (handle_request obedient (Some "alice") "uuid-1" "{}" 3 None
       (mkUnaryIO None None (Ok (String (ascii_of_nat 255) newline)))
       (new_manager "/data")).1
  = 500%Z.
Proof.
  destruct (unreadable_line_costs_the_worker obedient (Some "alice") "uuid-1" "{}" 3
              None (mkUnaryIO None None (Ok (String (ascii_of_nat 255) newline)))
              (new_manager "/data") (String (ascii_of_nat 255) newline)
              (or_intror eq_refl) eq_refl eq_refl eq_refl)
    as (p & l & w1 & _ & Hraises); [discriminate|].
  rewrite (Hraises _ (or_introl (conj eq_refl eq_refl))). reflexivity.
Defined.

Lemma run_op_spares os o w sid now p l :
  spares sid now o →
  entries w sid = (Some p, Some l, Some now) →
  entries (run_op os o w).2 sid = (Some p, Some l, Some now).
Proof.
  intros Hsp He.
  assert (Hreaps : ∀ (V : string → Prop) w', ¬ V sid → reaps os V w w' →
            entries w' sid = (Some p, Some l, Some now)).
  { intros V w' Hnot (calls & _ & _ & _ & _ & _ & Hsid & _).
    destruct (Hsid sid) as [[He' _]|(p' & Hv & _)]; [congruence|done]. }
  destruct o as [sid' now' launch|sid'|sid'|t|]; cbn [run_op spares] in *.
  - unfold bind. destruct (processes w !! sid') as [p'|] eqn:Hp'.
    + rewrite (get_or_create_process_hit _ _ _ _ _ Hp'). cbn [snd].
      rewrite <- He. unfold entries. cbn. by rewrite lookup_insert_ne.
    + destruct launch as [e|].
      * rewrite (get_or_create_process_fail _ _ _ _ Hp'). cbn [snd]. exact He.
      * rewrite (get_or_create_process_spawn _ _ _ Hp'). cbn [snd].
        rewrite <- He. unfold entries. cbn. by rewrite !lookup_insert_ne.
  - unfold bind. destruct (process_locks w !! sid') as [l'|] eqn:Hl'.
    + by rewrite (get_process_lock_hit _ _ _ Hl').
    + rewrite (get_process_lock_miss _ _ Hl'). cbn [snd].
      rewrite <- He. unfold entries. cbn. rewrite lookup_insert_ne; [done|].
      intros ->. unfold entries in He. congruence.
  - eapply Hreaps; [|apply reaps_terminate_process]. by intros ->.
  - eapply Hreaps; [|apply cleanup_idle_processes_reaps].
    intros (t' & Ht' & Hidle). unfold entries in He. injection He as _ _ Hla.
    rewrite Hla in Ht'. injection Ht' as <-. lia.
  - done.
Qed.

Lemma run_ops_spares os ops w sid now p l :
  Forall (spares sid now) ops →
  entries w sid = (Some p, Some l, Some now) →
  entries (run_ops os ops w) sid = (Some p, Some l, Some now).
Proof.
  intros Hall. revert w. induction Hall as [|o rest Ho _ IH]; intros w He; [done|].
  cbn [run_ops]. by apply IH, run_op_spares.
Qed.

Section Reuse.
Context `{PyRuntime}.

Lemma handle_request_launches os header uuid body now launch io w :
  processes w !! default uuid header = None →
  ∃ new started,
    trace (handle_request os header uuid body now launch io w).2 = trace w ++ new
    ∧ launches_of new = [started].
Proof.
  intros Hp.
  destruct (resolve_frame now launch (default uuid header) w)
    as [(p & l & w1 & Hr & Hp1 & _ & _ & _ & _ & Hcase)|(e & _ & _ & Hr)].
  - destruct Hcase as [(Hp0 & _)|(_ & _ & _ & Ht1)]; [congruence|].
    rewrite (handle_request_resolved _ _ _ _ _ _ _ _ _ _ _ Hr).
    destruct (exchange_writes os (default uuid header) p l body io w1 Hp1)
      as (new & Ht & _ & Hla).
    eexists _, (Some p). rewrite Ht, Ht1, <- app_assoc. split; [done|].
    by rewrite launches_of_app, Hla.
  - rewrite (handle_request_launch_fails _ _ _ _ _ _ _ _ _ _ Hr).
    by eexists _, None.
Qed.

(** X13.  A session whose unary request was answered has a process, a
    lock, and the time of the request as its time stamp.  It keeps this
    worker for the next request as long as nothing takes it away in
    between: after any calls on the manager that spare the session (calls
    for other sessions, scans of the cleanup task at most 300 after the
    request, no [terminate_all]), the next request with this id, however
    it ends, starts no process ([Popen] is not called, so a launch that
    would fail does not matter), writes its body followed by a line feed
    once, to that same process, and works under that same lock.  A scan
    more than 300 after the request takes the worker away: the next
    request with this id then calls [Popen]. *)
Theorem answered_session_keeps_its_worker
    os sid uuid body now launch io w resp w1 :
  handle_request os (Some sid) uuid body now launch io w = (Ok resp, w1) →
  ∃ p l,
    entries w1 sid = (Some p, Some l, Some now)
    ∧ (∀ ops uuid' body' now' launch' io',
         Forall (spares sid now) ops →
         ∃ new,
           trace (handle_request os (Some sid) uuid' body' now' launch' io'
                    (run_ops os ops w1)).2
           = trace (run_ops os ops w1) ++ new
           ∧ launches_of new = []
           ∧ writes_of new = [(p, body' +:+ newline)]
           ∧ under_lock l new)
    ∧ (∀ current_time uuid' body' now' launch' io',
         (current_time - now > idle_timeout)%Z →
         ∃ new started,
           trace (handle_request os (Some sid) uuid' body' now' launch' io'
                    (cleanup_idle_processes os current_time w1).2).2
           = trace (cleanup_idle_processes os current_time w1).2 ++ new
           ∧ launches_of new = [started]).
Proof.
  intros Hrun.
  destruct (handle_request_answer _ _ _ _ _ _ _ _ _ _ Hrun)
    as (line & _ & _ & _ & _ & _ & Hstamp).
  pose proof (handle_request_served os (Some sid) uuid body now launch io w) as Hs.
  rewrite Hrun in Hs. unfold served in Hs.
  change (default uuid (Some sid)) with sid in *. cbn [snd] in Hs.
  destruct (resolve_frame now launch sid w)
    as [(p & l & w0 & Hr & Hp & Hl & _ & _ & _ & Hcase)|(e & _ & _ & Hr)];
    rewrite Hr in Hs.
  2: { pose proof (handle_request_launch_fails os (Some sid) uuid body now launch io
                     w e _ Hr) as Hfail. congruence. }
  pose proof Hs as (mid & post & _ & _ & _ & Hnp & _ & _ & _ & Hown).
  destruct Hown as [He|(Hp' & Hl' & _)].
  { unfold entries in He. injection He as _ _ He. by rewrite He in Hstamp. }
  rewrite Hp in Hp'. rewrite Hl in Hl'.
  assert (He1 : entries w1 sid = (Some p, Some l, Some now)).
  { unfold entries. by rewrite Hp', Hl', Hstamp. }
  exists p, l. split; [done|]. split.
  - intros ops uuid' body' now' launch' io' Hall.
    pose proof (run_ops_spares os ops w1 sid now p l Hall He1) as He2.
    set (w2 := run_ops os ops w1) in *.
    unfold entries in He2. injection He2 as Hp2 Hl2 _.
    assert (Hr2 : resolve now' launch' sid w2
                  = (Ok (p, l), set_last_activity <[sid := now']> w2)).
    { unfold resolve, bind. rewrite (get_or_create_process_hit _ _ _ _ _ Hp2).
      by rewrite get_process_lock_hit with (l := l). }
    pose proof (handle_request_resolved os (Some sid) uuid' body' now' launch' io'
                  w2 p l _ Hr2) as Hh.
    change (default uuid' (Some sid)) with sid in *. rewrite Hh.
    destruct (exchange_writes os sid p l body' io' (set_last_activity <[sid := now']> w2))
      as (new & Ht & Hwr & Hla); [done|].
    exists new. split; [exact Ht|]. split; [done|]. split; [done|].
    pose proof (handle_request_served os (Some sid) uuid' body' now' launch' io' w2)
      as Hs2.
    destruct (served_under_lock now' launch' sid w2 _ p l _ Hr2 Hs2)
      as (new' & Ht' & Hu).
    rewrite Hh in Ht'. rewrite Ht in Ht'. cbn [trace set_last_activity] in Ht'.
    by apply app_inv_head in Ht' as ->.
  - intros t uuid' body' now' launch' io' Hidle.
    set (w2 := (cleanup_idle_processes os t w1).2).
    assert (Hgone : processes w2 !! sid = None).
    { pose proof (cleanup_entries os t w1 sid) as Hsc. fold w2 in Hsc.
      rewrite He1 in Hsc. unfold scanned in Hsc.
      rewrite decide_True in Hsc by done.
      unfold entries in Hsc. by injection Hsc as -> _ _. }
    pose proof (handle_request_launches os (Some sid) uuid' body' now' launch' io' w2)
      as Hl2.
    change (default uuid' (Some sid)) with sid in *. by apply Hl2.
Qed.

End Reuse.

Lemma answered_session_keeps_its_worker_witness :
  ∃ new,
    trace (handle_request obedient (Some "alice") "uuid-2" "[]" 9
             (Some (Error "out of processes")) (mkUnaryIO None None (Ok ""))
             (run_ops obedient
                [OpCleanupIdleProcesses 303; OpGetOrCreateProcess "bob" 100 None]
                alice_answered)).2
    = trace (run_ops obedient
               [OpCleanupIdleProcesses 303; OpGetOrCreateProcess "bob" 100 None]
               alice_answered) ++ new
    ∧ launches_of new = [].
Proof.
  assert (Hrun : handle_request obedient (Some "alice") "uuid-1" "{}" 3 None
                   (mkUnaryIO None None (Ok ("17" +:+ newline))) (new_manager "/data")
                 = (Ok (mkResponse 200 "17" (Some "application/json")
                          [("X-Session-ID", "alice")]), alice_answered))
    by (vm_compute; reflexivity).
  destruct (answered_session_keeps_its_worker _ _ _ _ _ _ _ _ _ _ Hrun)
    as (p & l & _ & Hnext & _).
  destruct (Hnext [OpCleanupIdleProcesses 303; OpGetOrCreateProcess "bob" 100 None]
              "uuid-2" "[]" 9%Z (Some (Error "out of processes"))
              (mkUnaryIO None None (Ok ""))) as (new & Ht & Hl & _).
  - repeat constructor; [cbn; unfold idle_timeout; lia|discriminate].
  - exists new. exact (conj Ht Hl).
Defined.

(** ** A WebSocket connection *)

Lemma ws_on_message_spec c data now write flush w :
  ws_on_message c data now write flush w
  = (match write, flush with
     | Some e, _ => Raise e
     | None, Some e => Raise e
     | None, None => Ok tt
     end,
     add_events
       ([EvAcquire (ws_process_lock c);
         EvWrite (ws_process c) (data +:+ newline)]
        ++ match write with None => [EvFlush (ws_process c)] | Some _ => [] end
        ++ [EvRelease (ws_process_lock c)])
       (set_last_activity <[ws_session_id c := now]> w)).
Proof.
  unfold ws_on_message, with_lock, stdin_write, stdin_flush, call, bind, modify,
    ret, raise. cbv beta iota.
  destruct write; cbv beta iota; [same_world|].
  destruct flush; cbv beta iota; same_world.
Qed.

Lemma read_subprocess_output_spec c outcome now send w :
  (read_subprocess_output c outcome now send w).2
  = match outcome with
    | Raise _ => add_event (EvReadline (ws_process c)) w
    | Ok line =>
        if decide (line = "") then add_event (EvReadline (ws_process c)) w
        else add_events [EvReadline (ws_process c); EvWsSend line]
               (set_last_activity <[ws_session_id c := now]> w)
    end.
Proof.
  unfold read_subprocess_output, stdout_readline, call, bind, modify, ret, raise.
  cbv beta iota. destruct outcome as [line|e]; cbv beta iota; [|done].
  destruct (decide (line = "")); cbv beta iota; [done|].
  destruct send; cbv beta iota; same_world.
Qed.

(** The loop, turn by turn. *)
Lemma ws_loop_cons os c t rest reader w :
  ws_loop os c (t :: rest) reader w
  = if goes_on t
    then ws_loop os c rest (reader_after reader t) (turn_world os c reader t w)
    else (Ok reader, turn_world os c reader t w).
Proof.
  destruct t as [data now write flush|outcome now send|ops];
    cbn [ws_loop goes_on turn_world reader_after].
  - unfold bind, try_except, ret. cbv beta.
    rewrite ws_on_message_spec. by destruct write, flush, reader.
  - destruct reader; try done.
    unfold try_except, read_subprocess_output, stdout_readline, call, bind, modify,
      ret, raise.
    cbv beta iota. destruct outcome as [line|e]; cbn [reader_after]; cbv beta iota;
      [|done].
    destruct (decide (line = "")); cbv beta iota; [done|].
    by destruct send.
  - unfold bind, modify. by destruct reader.
Qed.

Lemma run_op_grows os o w :
  (next_pid w ≤ next_pid (run_op os o w).2)%nat
  ∧ (∀ sid q, processes (run_op os o w).2 !! sid = Some q →
       processes w !! sid = Some q ∨ q = next_pid w)
  ∧ ∃ new, trace (run_op os o w).2 = trace w ++ new ∧ writes_of new = [].
Proof.
  assert (Hreaps : ∀ V w', reaps os V w w' →
            (next_pid w ≤ next_pid w')%nat
            ∧ (∀ sid q, processes w' !! sid = Some q →
                 processes w !! sid = Some q ∨ q = next_pid w)
            ∧ ∃ new, trace w' = trace w ++ new ∧ writes_of new = []).
  { intros V w' (extra & Ht & _ & _ & Hn & _ & Hsid & Hext). split_and!.
    - lia.
    - intros sid q Hq. left.
      destruct (Hsid sid) as [[He _]|(p' & _ & _ & He & _)];
        unfold entries in He; congruence.
    - exists extra. split; [done|].
      clear Ht Hsid. induction extra as [|e rest IH]; [done|].
      destruct (Hext e) as (sid & p & _ & _ & He); [apply elem_of_cons; by left|].
      apply shutdown_calls_shutdown in He.
      change (e :: rest) with ([e] ++ rest). rewrite writes_of_app.
      rewrite IH; [by destruct e|].
      intros e' He'. apply Hext. apply elem_of_cons. by right. }
  destruct o as [sid now launch|sid|sid|now|]; cbn [run_op].
  - unfold bind. destruct (processes w !! sid) as [p|] eqn:Hp.
    + rewrite (get_or_create_process_hit _ _ _ _ _ Hp). cbn. split_and!; try done.
      * intros sid' q Hq. by left.
      * exists []. by rewrite app_nil_r.
    + destruct launch as [e|].
      * rewrite (get_or_create_process_fail _ _ _ _ Hp). cbn. split_and!; try done.
        -- intros sid' q Hq. by left.
        -- by eexists.
      * rewrite (get_or_create_process_spawn _ _ _ Hp). cbn. split_and!.
        -- lia.
        -- intros sid' q. rewrite lookup_insert. case_decide.
           ++ intros [= <-]. by right.
           ++ intros Hq. by left.
        -- by eexists.
  - unfold bind. destruct (process_locks w !! sid) as [l|] eqn:Hl.
    + rewrite (get_process_lock_hit _ _ _ Hl). cbn. split_and!; try done.
      * intros sid' q Hq. by left.
      * exists []. by rewrite app_nil_r.
    + rewrite (get_process_lock_miss _ _ Hl). cbn. split_and!; try done.
      * intros sid' q Hq. by left.
      * exists []. by rewrite app_nil_r.
  - eapply Hreaps, reaps_terminate_process.
  - eapply Hreaps, cleanup_idle_processes_reaps.
  - destruct (terminate_all_reaps os w) as (_ & w1 & Hr & ->).
    destruct (Hreaps _ _ Hr) as (Hn & Hq & new & Ht & Hw).
    destruct (cleanup_task w); cbn; split_and!; try done.
    + exists (new ++ [EvCancelCleanupTask]). split; [by rewrite Ht, app_assoc|].
      by rewrite writes_of_app, Hw.
    + by exists new.
Qed.

Lemma run_op_attached os c o w : attached c w → attached c (run_op os o w).2.
Proof.
  intros (Hacc & Hlt & Hown & dir & Hdir).
  destruct (run_op_grows os o w) as (Hn & Hq & new & Ht & _).
  split_and!.
  - by apply accounted_run_op.
  - lia.
  - intros sid Hp. destruct (Hq _ _ Hp) as [?|?]; [by apply Hown|lia].
  - exists dir. rewrite Ht. apply elem_of_app. by left.
Qed.

Lemma run_ops_attached os c ops w : attached c w → attached c (run_ops os ops w).
Proof.
  revert w. induction ops as [|o rest IH]; intros w Hw; cbn; [done|].
  by apply IH, run_op_attached.
Qed.

Lemma run_ops_writes os ops w :
  ∃ new, trace (run_ops os ops w) = trace w ++ new ∧ writes_of new = [].
Proof.
  revert w. induction ops as [|o rest IH]; intros w; cbn [run_ops].
  { exists []. by rewrite app_nil_r. }
  destruct (run_op_grows os o w) as (_ & _ & new1 & Ht1 & Hw1).
  destruct (IH (run_op os o w).2) as (new2 & Ht2 & Hw2).
  exists (new1 ++ new2). split; [by rewrite Ht2, Ht1, app_assoc|].
  by rewrite writes_of_app, Hw1, Hw2.
Qed.

Lemma attached_quiet c w w' new :
  processes w' = processes w → next_pid w' = next_pid w →
  trace w' = trace w ++ new → launches_of new = [] →
  attached c w → attached c w'.
Proof.
  intros Hp Hn Ht Hl (Hacc & Hlt & Hown & dir & Hdir).
  assert (Hquiet : ∀ d q, EvPopen d (Some q) ∈ new → False).
  { clear Ht. intros d q Hin. induction new as [|e rest IH]; [inversion Hin|].
    change (e :: rest) with ([e] ++ rest) in Hl. rewrite launches_of_app in Hl.
    apply app_eq_nil in Hl as [He Hrest].
    apply elem_of_cons in Hin as [<-|Hin]; [done|by apply IH]. }
  split_and!.
  - intros d q Hin. rewrite Ht in Hin |- *. apply elem_of_app in Hin as [Hin|Hin].
    + destruct (Hacc d q Hin) as [[sid Hs]|?].
      * left. exists sid. by rewrite Hp.
      * right. apply elem_of_app. by left.
    + by destruct (Hquiet d q).
  - by rewrite Hn.
  - intros sid Hs. apply Hown. by rewrite <- Hp.
  - exists dir. rewrite Ht. apply elem_of_app. by left.
Qed.

(** What a turn of the connection itself does to the manager. *)
Lemma own_turn_world os c reader t w :
  own_turn t →
  ∃ new,
    trace (turn_world os c reader t w) = trace w ++ new
    ∧ processes (turn_world os c reader t w) = processes w
    ∧ process_locks (turn_world os c reader t w) = process_locks w
    ∧ (∀ sid', sid' ≠ ws_session_id c →
         last_activity (turn_world os c reader t w) !! sid' = last_activity w !! sid')
    ∧ next_pid (turn_world os c reader t w) = next_pid w
    ∧ next_lock (turn_world os c reader t w) = next_lock w
    ∧ Forall (fun e => ¬ is_shutdown_call e) new
    ∧ launches_of new = []
    ∧ writes_of new
      = match t with
        | WsFrame data _ _ _ => [(ws_process c, data +:+ newline)]
        | _ => []
        end.
Proof.
  destruct t as [data now write flush|outcome now send|ops]; [| |done]; intros _;
    cbn [turn_world].
  - rewrite ws_on_message_spec. cbn [snd]. eexists. split; [reflexivity|].
    split_and!; try done.
    + intros sid' Hne. cbn. by rewrite lookup_insert_ne.
    + destruct write; repeat constructor; by intros [].
    + by destruct write.
    + by destruct write.
  - destruct reader.
    2,3: (exists []; rewrite app_nil_r; split_and!; done).
    rewrite read_subprocess_output_spec.
    destruct outcome as [line|e]; [destruct (decide (line = ""))|].
    1,3: (exists [EvReadline (ws_process c)]; split_and!; try done;
          repeat constructor; by intros []).
    exists [EvReadline (ws_process c); EvWsSend line]. split_and!; try done.
    + intros sid' Hne. cbn. by rewrite lookup_insert_ne.
    + repeat constructor; by intros [].
Qed.

Lemma turn_world_attached os c reader t w :
  attached c w → attached c (turn_world os c reader t w).
Proof.
  intros Hw. destruct t as [data now write flush|outcome now send|ops].
  - destruct (own_turn_world os c reader (WsFrame data now write flush) w I)
      as (new & Ht & Hp & _ & _ & Hn & _ & _ & Hl & _).
    by eapply attached_quiet.
  - destruct (own_turn_world os c reader (WsOutput outcome now send) w I)
      as (new & Ht & Hp & _ & _ & Hn & _ & _ & Hl & _).
    by eapply attached_quiet.
  - by apply run_ops_attached.
Qed.

Lemma turn_world_writes os c reader t w :
  ∃ new,
    trace (turn_world os c reader t w) = trace w ++ new
    ∧ writes_of new
      = match t with
        | WsFrame data _ _ _ => [(ws_process c, data +:+ newline)]
        | _ => []
        end.
Proof.
  destruct t as [data now write flush|outcome now send|ops].
  - destruct (own_turn_world os c reader (WsFrame data now write flush) w I)
      as (new & Ht & _ & _ & _ & _ & _ & _ & _ & Hwr). by exists new.
  - destruct (own_turn_world os c reader (WsOutput outcome now send) w I)
      as (new & Ht & _ & _ & _ & _ & _ & _ & _ & Hwr). by exists new.
  - apply run_ops_writes.
Qed.

Lemma frames_taken_cons t rest :
  frames_taken (t :: rest)
  = match t with
    | WsFrame data _ _ _ => [data]
    | _ => []
    end ++ if goes_on t then frames_taken rest else [].
Proof. by destruct t as [data now [e|] [e'|]| |]. Qed.

(** The loop never raises; what it logs, and what becomes of the reader
    task. *)
Lemma ws_loop_log os c turns reader w :
  ∃ reader' new,
    (ws_loop os c turns reader w).1 = Ok reader'
    ∧ trace (ws_loop os c turns reader w).2 = trace w ++ new
    ∧ writes_of new
      = (fun data => (ws_process c, data +:+ newline)) <$> frames_taken turns
    ∧ (∀ e, reader' = ReaderFailed e →
         reader = ReaderFailed e ∨ ∃ t, t ∈ turns ∧ reader_fails e t)
    ∧ ((∀ t e, t ∈ turns → ¬ reader_fails e t) →
       (∀ e, reader ≠ ReaderFailed e) → ∀ e, reader' ≠ ReaderFailed e).
Proof.
  revert reader w. induction turns as [|t rest IH]; intros reader w.
  { exists reader, []. cbn. rewrite app_nil_r. split_and!; try done.
    intros e ->. by left. }
  rewrite ws_loop_cons, frames_taken_cons.
  destruct (turn_world_writes os c reader t w) as (new1 & Ht1 & Hw1).
  assert (Hturn : ∀ e, reader_after reader t = ReaderFailed e →
                       reader = ReaderFailed e ∨ reader_fails e t).
  { intros e. destruct reader; [|by intros [=]|intros [= <-]; by left].
    destruct t as [? ? ? ?|[line|e'] ? [e''|]|?]; cbn; try done.
    - destruct (decide (line = "")); [done|]. intros [= <-]. by right.
    - by destruct (decide (line = "")).
    - intros [= <-]. by right.
    - intros [= <-]. by right. }
  destruct (goes_on t).
  - destruct (IH (reader_after reader t) (turn_world os c reader t w))
      as (reader' & new2 & Hr & Ht2 & Hw2 & Hfail & Hfine).
    exists reader', (new1 ++ new2). split_and!.
    + done.
    + by rewrite Ht2, Ht1, app_assoc.
    + rewrite writes_of_app, Hw1, Hw2, fmap_app. f_equal. by destruct t.
    + intros e He. destruct (Hfail e He) as [Ha|(t' & Hin & Hf)].
      * destruct (Hturn e Ha) as [?|?]; [by left|right].
        exists t. split; [apply elem_of_cons; by left|done].
      * right. exists t'. split; [apply elem_of_cons; by right|done].
    + intros Hno Hr0. apply Hfine.
      * intros t' e Hin. apply Hno. apply elem_of_cons. by right.
      * intros e Ha. destruct (Hturn e Ha) as [?|Hf]; [by eapply Hr0|].
        eapply Hno; [|exact Hf]. apply elem_of_cons. by left.
  - exists reader, new1. cbn [fst snd]. split_and!; try done.
    + rewrite Hw1, app_nil_r. by destruct t.
    + intros e ->. by left.
Qed.

Lemma ws_loop_attached os c turns reader w :
  attached c w → attached c (ws_loop os c turns reader w).2.
Proof.
  revert reader w. induction turns as [|t rest IH]; intros reader w Hw; [done|].
  rewrite ws_loop_cons.
  pose proof (turn_world_attached os c reader t w Hw) as Hw1.
  destruct (goes_on t); [by apply IH|done].
Qed.

(** With no turn of the rest of the server in between. *)
Lemma ws_loop_alone os c turns reader w :
  Forall own_turn turns →
  ∃ new,
    trace (ws_loop os c turns reader w).2 = trace w ++ new
    ∧ processes (ws_loop os c turns reader w).2 = processes w
    ∧ process_locks (ws_loop os c turns reader w).2 = process_locks w
    ∧ (∀ sid', sid' ≠ ws_session_id c →
         last_activity (ws_loop os c turns reader w).2 !! sid' = last_activity w !! sid')
    ∧ Forall (fun e => ¬ is_shutdown_call e) new
    ∧ launches_of new = [].
Proof.
  intros Hall. revert reader w. induction Hall as [|t rest Ht _ IH]; intros reader w.
  { exists []. cbn. by rewrite app_nil_r. }
  rewrite ws_loop_cons.
  destruct (own_turn_world os c reader t w Ht)
    as (new1 & Ht1 & Hp1 & Hl1 & Ha1 & _ & _ & Hs1 & Hla1 & _).
  destruct (goes_on t).
  - destruct (IH (reader_after reader t) (turn_world os c reader t w))
      as (new2 & Ht2 & Hp2 & Hl2 & Ha2 & Hs2 & Hla2).
    exists (new1 ++ new2). split_and!; try congruence.
    + by rewrite Ht2, Ht1, app_assoc.
    + intros sid' Hne. by rewrite Ha2, Ha1.
    + by apply Forall_app.
    + by rewrite launches_of_app, Hla1, Hla2.
  - exists new1. by split_and!.
Qed.

Lemma websocket_endpoint_spawned os uuid now turns last w reader' w2 :
  processes w !! uuid = None →
  ws_loop os (mkWsConn uuid (next_pid w) (next_lock w)) turns ReaderRunning
    (get_or_create_process now None uuid w).2 = (Ok reader', w2) →
  websocket_endpoint os uuid now None turns last w
  = (match reader' with ReaderFailed e => Raise e | _ => Ok tt end,
     (terminate_process os uuid (run_ops os last w2)).2).
Proof.
  intros Hp Hloop. unfold websocket_endpoint, ws_accept, bind.
  rewrite (get_or_create_process_spawn _ _ _ Hp) in *.
  rewrite get_process_lock_hit with (l := next_lock w)
    by (cbn; apply lookup_insert_eq).
  unfold ret at 1. cbv beta iota. cbn [snd] in Hloop. rewrite Hloop.
  unfold modify, ws_teardown. cbn [ws_session_id].
  pose proof (terminate_process_ok os uuid (run_ops os last w2)) as Hok.
  destruct (terminate_process os uuid (run_ops os last w2)) as [[[]|e] w3];
    [|done].
  by destruct reader'.
Qed.

(** X14.  A WebSocket connection under a new session id, from its
    opening to its end, with the rest of the server making any calls on
    the manager between its turns, the scans of the cleanup task among
    them, on a manager whose books are sound (the registered processes
    were created, and every process that was started is registered or has
    got [terminate()], as the manager's methods keep it).  At the end of
    the connection no process is registered under its session id, and the
    connection's process has got [terminate()]: from the handler's
    teardown, or from whoever took the worker away before.  The handler
    writes the frames to the worker in their order, each followed by a
    line feed, up to the first whose write or flush raises.  A failing
    write or flush is swallowed and ends the connection; the handler
    raises only what ended the reader task, a failing [readline] or
    [send_bytes].  When no call on the manager falls between the
    connection's turns, the shutdown calls of the teardown are the last
    calls and no shutdown call comes before them, no further process is
    started, the session is then in none of the dictionaries and every
    other session has kept its entries.  When the launch fails, the
    exception leaves the handler as it is and nothing is registered or
    shut down. *)
Theorem websocket_endpoint_tears_down os uuid now turns last w :
  registry_ok w → accounted w → processes w !! uuid = None →
  (processes (websocket_endpoint os uuid now None turns last w).2 !! uuid = None
   ∧ EvTerminate (next_pid w)
       ∈ trace (websocket_endpoint os uuid now None turns last w).2
   ∧ (∃ new,
        trace (websocket_endpoint os uuid now None turns last w).2 = trace w ++ new
        ∧ writes_of new
          = (fun data => (next_pid w, data +:+ newline)) <$> frames_taken turns)
   ∧ (∀ e, (websocket_endpoint os uuid now None turns last w).1 = Raise e →
           ∃ t, t ∈ turns ∧ reader_fails e t)
   ∧ ((∀ t e, t ∈ turns → ¬ reader_fails e t) →
      (websocket_endpoint os uuid now None turns last w).1 = Ok tt))
  ∧ (Forall own_turn turns → last = [] →
     (∃ new,
        trace (websocket_endpoint os uuid now None turns last w).2
        = trace w ++ [EvPopen (excel_files_path w) (Some (next_pid w))] ++ new
          ++ shutdown_calls os (next_pid w)
        ∧ Forall (fun e => ¬ is_shutdown_call e) new
        ∧ launches_of new = [])
     ∧ entries (websocket_endpoint os uuid now None turns last w).2 uuid
       = (None, None, None)
     ∧ (∀ sid', sid' ≠ uuid →
          entries (websocket_endpoint os uuid now None turns last w).2 sid'
          = entries w sid'))
  ∧ (∀ e, websocket_endpoint os uuid now (Some e) turns last w
          = (Raise e, add_event (EvPopen (excel_files_path w) None) w)).
Proof.
  intros Hok Hacc Hp.
  set (c := mkWsConn uuid (next_pid w) (next_lock w)).
  set (w0 := (get_or_create_process now None uuid w).2).
  assert (Hw0 : w0 = mkWorld (<[uuid := next_pid w]> (processes w))
             (<[uuid := next_lock w]> (process_locks w))
             (<[uuid := now]> (last_activity w))
             (excel_files_path w) (cleanup_task w)
             (S (next_pid w)) (S (next_lock w))
             (trace w ++ [EvPopen (excel_files_path w) (Some (next_pid w))])).
  { unfold w0. by rewrite (get_or_create_process_spawn _ _ _ Hp). }
  assert (Hatt0 : attached c w0).
  { split_and!.
    - pose proof (accounted_run_op os (OpGetOrCreateProcess uuid now None) w Hacc) as Ha.
      cbn [run_op] in Ha. unfold bind in Ha. fold w0 in Ha.
      by destruct (get_or_create_process now None uuid w) as [[?|?] ?].
    - rewrite Hw0. cbn. lia.
    - intros sid. rewrite Hw0. cbn. rewrite lookup_insert. case_decide; [done|].
      intros Hs. destruct Hok as (Ha & _). specialize (Ha _ _ Hs). lia.
    - exists (excel_files_path w). rewrite Hw0. cbn. apply elem_of_app. right.
      apply elem_of_cons. by left. }
  destruct (ws_loop_log os c turns ReaderRunning w0)
    as (reader' & new & Hr & Ht & Hwr & Hwhy & Hfine).
  pose proof (ws_loop_attached os c turns ReaderRunning w0 Hatt0) as Hatt1.
  destruct (ws_loop os c turns ReaderRunning w0) as [r w2] eqn:Hloop.
  cbn [fst snd] in *. subst r.
  rewrite (websocket_endpoint_spawned os uuid now turns last w reader' w2 Hp Hloop).
  cbn [fst snd].
  pose proof (run_ops_attached os c last w2 Hatt1) as Hatt2.
  pose proof (run_op_attached os c (OpTerminateProcess uuid) _ Hatt2) as Hatt3.
  cbn [run_op] in Hatt3.
  destruct (run_ops_writes os last w2) as (new2 & Ht2 & Hwr2).
  destruct (run_op_grows os (OpTerminateProcess uuid) (run_ops os last w2))
    as (_ & _ & new3 & Ht3 & Hwr3).
  cbn [run_op] in Ht3.
  set (w3 := (terminate_process os uuid (run_ops os last w2)).2) in *.
  assert (Hgone : processes w3 !! uuid = None).
  { unfold w3. destruct (processes (run_ops os last w2) !! uuid) as [p|] eqn:Hp2.
    - rewrite (terminate_process_hit _ _ _ _ Hp2). cbn. apply lookup_delete_eq.
    - by rewrite (terminate_process_miss _ _ _ Hp2). }
  split; [|split].
  - split_and!.
    + done.
    + destruct Hatt3 as (Hacc3 & _ & Hown3 & dir & Hdir).
      destruct (Hacc3 _ _ Hdir) as [[sid Hs]|?]; [|done].
      pose proof (Hown3 sid Hs) as ->. cbn [ws_session_id c] in Hs. congruence.
    + exists ([EvPopen (excel_files_path w) (Some (next_pid w))] ++ new ++ new2 ++ new3).
      split.
      * rewrite Ht3, Ht2, Ht, Hw0. cbn [trace]. by rewrite <- !app_assoc.
      * rewrite !writes_of_app, Hwr, Hwr2, Hwr3. cbn. by rewrite !app_nil_r.
    + intros e He. destruct reader' as [| |e0]; try done. injection He as ->.
      destruct (Hwhy e eq_refl) as [?|?]; done.
    + intros Hno. assert (Hnf : ∀ e, reader' ≠ ReaderFailed e) by (by apply Hfine).
      destruct reader' as [| |e0]; try done. by destruct (Hnf e0).
  - intros Hall ->.
    destruct (ws_loop_alone os c turns ReaderRunning w0 Hall)
      as (new' & Ht' & Hps & Hls & Hla & Hnew & Hlaunch).
    rewrite Hloop in Ht', Hps, Hls, Hla. cbn [snd] in Ht', Hps, Hls, Hla.
    assert (Hp2 : processes w2 !! uuid = Some (next_pid w)).
    { rewrite Hps, Hw0. cbn. apply lookup_insert_eq. }
    unfold w3. cbn [run_ops]. rewrite (terminate_process_hit _ _ _ _ Hp2).
    cbn [snd]. split_and!.
    + exists new'. cbn [trace forget]. rewrite Ht', Hw0. cbn [trace].
      split_and!; try done. by rewrite <- !app_assoc.
    + apply forget_gone.
    + intros sid' Hne. rewrite forget_entries by done.
      unfold entries. rewrite Hps, Hls, Hla by done. rewrite Hw0. cbn.
      by rewrite !lookup_insert_ne.
  - intros e. unfold websocket_endpoint, ws_accept, bind.
    by rewrite (get_or_create_process_fail _ _ _ _ Hp).
Qed.

Lemma scans_keep_orphan times l s :
  foldl (fun e t => scanned t e) (None, l, s) times = (None, l, s).
Proof. induction times as [|t rest IH]; [done|]. cbn. exact IH. Qed.

(** X15.  A frame that arrives after the reaper has taken the
    connection's worker is still written to the pipe of that process, and
    it puts the session's time stamp back: the time-stamp dictionary then
    has an entry for a session without a process, so the dictionaries are
    not in step.  The teardown of the connection does nothing about it
    ([terminate_process] finds no process), and no scan of the cleanup
    task ever removes it. *)
Theorem frame_after_reaping_leaves_time_stamp os c data now write flush w :
  processes w !! ws_session_id c = None →
  (∃ new,
     trace (ws_on_message c data now write flush w).2 = trace w ++ new
     ∧ writes_of new = [(ws_process c, data +:+ newline)])
  ∧ ¬ in_step (ws_on_message c data now write flush w).2
  ∧ ws_teardown os c (ws_on_message c data now write flush w).2
    = (Ok tt, (ws_on_message c data now write flush w).2)
  ∧ ∀ times,
      entries (cleanup_loop os times (ws_on_message c data now write flush w).2).2
        (ws_session_id c)
      = (None, process_locks w !! ws_session_id c, Some now).
Proof.
  intros Hp. rewrite ws_on_message_spec. cbn [snd].
  set (w1 := add_events _ _).
  assert (Hp1 : processes w1 !! ws_session_id c = None) by exact Hp.
  assert (Hl1 : last_activity w1 !! ws_session_id c = Some now)
    by (unfold w1; cbn; apply lookup_insert_eq).
  assert (He : entries w1 (ws_session_id c)
               = (None, process_locks w !! ws_session_id c, Some now)).
  { unfold entries. by rewrite Hp1, Hl1. }
  split_and!.
  - eexists. split; [reflexivity|]. by destruct write.
  - intros Hstep. destruct (Hstep (ws_session_id c)) as [[_ Hback] _].
    rewrite Hp1, Hl1 in Hback. by destruct Hback as [? ?]; [eauto|].
  - unfold ws_teardown. by apply terminate_process_miss.
  - intros times. rewrite (proj2 (cleanup_loop_entries os times w1 _)), He.
    apply scans_keep_orphan.
Qed.

Lemma websocket_endpoint_tears_down_witness :
  processes
    (websocket_endpoint stubborn "ws-1" 0 None
       [WsFrame "{}" 1 None None; WsOutput (Ok "17") 2 None;
        WsElsewhere [OpCleanupIdleProcesses 400];
        WsFrame "{}" 401 (Some (Error "Broken pipe")) None]
       [] (new_manager "/data")).2 !! "ws-1"
  = None.
Proof.
  refine (proj1 (proj1 (websocket_endpoint_tears_down stubborn "ws-1" 0
            [WsFrame "{}" 1 None None; WsOutput (Ok "17") 2 None;
             WsElsewhere [OpCleanupIdleProcesses 400];
             WsFrame "{}" 401 (Some (Error "Broken pipe")) None]
            [] (new_manager "/data") (registry_ok_new "/data") _ _))).
  - intros dir p Hin. inversion Hin.
  - reflexivity.
Defined.

Lemma frame_after_reaping_leaves_time_stamp_witness :
  processes (cleanup_idle_processes stubborn 301 ws_world).2 !! "ws-1" = None
  ∧ ¬ in_step
        (ws_on_message ws_conn "{}" 302 None None
           (cleanup_idle_processes stubborn 301 ws_world).2).2.
Proof.
  assert (Hp : processes (cleanup_idle_processes stubborn 301 ws_world).2
               !! ws_session_id ws_conn = None) by (vm_compute; reflexivity).
  split; [exact Hp|].
  exact (proj1 (proj2 (frame_after_reaping_leaves_time_stamp stubborn ws_conn "{}" 302
                         None None _ Hp))).
Defined.

(** ** Which handler a request reaches *)

Lemma strip_prefix_Some prefix s rest :
  strip_prefix prefix s = Some rest → s = prefix +:+ rest.
Proof.
  revert s. induction prefix as [|a prefix IH]; intros s; cbn [strip_prefix].
  - by intros [= ->].
  - destruct s as [|b s]; [done|]. destruct (decide (a = b)) as [->|]; [|done].
    intros Hs. rewrite (IH _ Hs). reflexivity.
Qed.

Lemma strip_prefix_app prefix rest : strip_prefix prefix (prefix +:+ rest) = Some rest.
Proof.
  induction prefix as [|a prefix IH]; [done|].
  change (String a prefix +:+ rest) with (String a (prefix +:+ rest)).
  cbn [strip_prefix]. destruct (decide (a = a)); [exact IH|done].
Qed.

Lemma stream_paths_match_first path :
  path_matches "/stream/" path = true → path_matches "/" path = true.
Proof.
  unfold path_matches. destruct (strip_prefix "/stream/" path) as [rest|] eqn:Hs; [|done].
  apply strip_prefix_Some in Hs as ->. intros Hrest.
  change ("/stream/" +:+ rest) with ("/" +:+ ("stream/" +:+ rest)).
  rewrite strip_prefix_app. exact Hrest.
Qed.

(** X16.  No request reaches [handle_stream_request].  The route of
    [handle_request] is added first and its path takes every path the
    stream route takes, so whatever the request, the router never calls
    the stream handler; a POST to a path under [/stream/] is answered by
    the unary handler. *)
Theorem stream_route_is_shadowed :
  (∀ s, dispatch s ≠ Calls HandleStreamRequest)
  ∧ (∀ rest, path_param rest = true →
       dispatch (Http "POST" ("/stream/" +:+ rest)) = Calls HandleRequest).
Proof.
  split.
  - intros [method path|path]; unfold dispatch, routes; cbn [dispatch_from].
    + unfold matches at 1. cbn [route_kind route_prefix route_endpoint].
      destruct (path_matches "/" path) eqn:Hfirst.
      * destruct (bool_decide (method ∈ ["POST"])) eqn:Hm; [done|].
        unfold matches. cbn [route_kind route_prefix route_endpoint].
        rewrite Hm. by destruct (path_matches "/stream/" path).
      * unfold matches. cbn [route_kind route_prefix route_endpoint].
        destruct (path_matches "/stream/" path) eqn:Hthird; [|done].
        apply stream_paths_match_first in Hthird. congruence.
    + unfold matches. cbn [route_kind route_prefix route_endpoint].
      by destruct (path_matches "/ws/" path).
  - intros rest Hrest. unfold dispatch, routes. cbn [dispatch_from].
    unfold matches at 1. cbn [route_kind route_prefix route_endpoint].
    assert (path_matches "/" ("/stream/" +:+ rest) = true) as ->.
    { apply stream_paths_match_first. unfold path_matches.
      by rewrite strip_prefix_app. }
    by rewrite bool_decide_eq_true_2 by (apply elem_of_cons; by left).
Qed.

(** ** Exchanges under the lock *)

Section SerializedHandlers.
Context `{PyRuntime}.

(** C1, as the code has it.  The unary and the stream handler do every
    call on a worker's pipes of one exchange (the write of the body and a
    line feed, the flush, the reads) between one acquisition and one
    release of the lock that is registered for the session; the steps of
    the interleaving model are these handlers', an exchange taken alone
    going step by step to what [exchange] and [response_generator] leave.
    In every state the server can reach while unary and streamed requests
    are served concurrently and the reaper runs, a request that is inside
    that block is the holder of its lock, and the lock is the one
    registered for its session as long as the worker is registered; two
    requests inside the block on the same worker are one and the same;
    and in the history of each worker's pipes the calls of one request
    are never interrupted by a call of another.  The WebSocket handler
    writes and flushes each frame under the session's lock, but a turn of
    its reader task reads the worker's output with no call on any lock. *)
Theorem C1_exchanges_serialized os :
  (∀ header uuid body now launch w p l w1,
     resolve now launch (default uuid header) w = (Ok (p, l), w1) →
     process_locks w1 !! default uuid header = Some l
     ∧ (∀ io, ∃ new,
          trace (handle_request os header uuid body now launch io w).2
          = trace w ++ new
          ∧ under_lock l new)
     ∧ (∀ io, ∃ new,
          trace (serve_stream os header uuid body now launch io w).2
          = trace w ++ new
          ∧ under_lock l new))
  ∧ (∀ sid body w p l,
       (∀ io, ∃ log,
          rtc (step os)
            (solo w ∅ (mkRequest Unary sid body (Resolved p l)) [])
            (solo (exchange os sid p l body io w).2 ∅
               (mkRequest Unary sid body Finished) log))
       ∧ (∀ io, ∃ log,
            rtc (step os)
              (solo w ∅ (mkRequest Stream sid body (Resolved p l)) [])
              (solo (response_generator os sid p l body io w).2 ∅
                 (mkRequest Stream sid body Finished) log)))
  ∧ (∀ path c,
       rtc (step os) (initial path) c →
       (∀ t r p l st, requests c !! t = Some r → pc r = Holding p l st →
          held c !! l = Some t
          ∧ ∀ sid, processes (world c) !! sid = Some p →
                   sid = session r ∧ process_locks (world c) !! sid = Some l)
       ∧ (∀ t1 t2 r1 r2 p l1 l2 st1 st2,
            requests c !! t1 = Some r1 → requests c !! t2 = Some r2 →
            pc r1 = Holding p l1 st1 → pc r2 = Holding p l2 st2 → t1 = t2)
       ∧ (∀ p, uninterrupted (users_of p (pipe_log c))))
  ∧ (∀ conn data now write flush w, ∃ new,
       trace (ws_on_message conn data now write flush w).2 = trace w ++ new
       ∧ under_lock (ws_process_lock conn) new)
  ∧ (∀ conn outcome now send w, ∃ new,
       trace (read_subprocess_output conn outcome now send w).2 = trace w ++ new
       ∧ EvReadline (ws_process conn) ∈ new
       ∧ Forall (fun e => ¬ is_lock_call e) new).
Proof.
  split_and!.
  - intros header uuid body now launch w p l w1 Hr.
    destruct (resolve_frame now launch (default uuid header) w)
      as [(p' & l' & w1' & Hr' & _ & Hl & _)|(e & _ & _ & Hr')];
      rewrite Hr in Hr'; [|done]. injection Hr' as <- <- <-.
    split; [done|]. split; intros io.
    + eapply served_under_lock; [exact Hr|apply handle_request_served].
    + eapply served_under_lock; [exact Hr|apply serve_stream_served].
  - intros sid body w p l. split; intros io.
    + apply unary_exchange_alone.
    + apply generator_alone.
  - intros path c Hrun.
    destruct (reachable_invariant _ _ _ Hrun) as (Hc & Hlk & Hlog).
    destruct Hc as (_ & _ & Hreq & Hsame).
    assert (Hin : ∀ r p l st, pc r = Holding p l st →
                  inside r = Some (p, l) ∧ working_on r = Some (p, l)).
    { intros r p l st Hpc. unfold inside, working_on. by rewrite Hpc. }
    split_and!.
    + intros t r p l st Ht Hpc. destruct (Hin _ _ _ _ Hpc) as [Hi Hw].
      split; [by eapply Hlk|]. by eapply Hreq.
    + intros t1 t2 r1 r2 p l1 l2 st1 st2 H1 H2 Hpc1 Hpc2.
      destruct (Hin _ _ _ _ Hpc1) as [Hi1 Hw1]. destruct (Hin _ _ _ _ Hpc2) as [Hi2 Hw2].
      assert (l1 = l2) as -> by (eapply (Hsame t1 t2); eauto).
      pose proof (Hlk _ _ _ _ H1 Hi1). pose proof (Hlk _ _ _ _ H2 Hi2). congruence.
    + intros p. apply Hlog.
  - intros conn data now write flush w. rewrite ws_on_message_spec. cbn [snd].
    eexists. split; [reflexivity|].
    exists [], (EvWrite (ws_process conn) (data +:+ newline)
                :: match write with
                   | None => [EvFlush (ws_process conn)]
                   | Some _ => []
                   end), [].
    split_and!.
    + by destruct write.
    + constructor.
    + destruct write; repeat constructor; by intros [].
  - intros conn outcome now send w. rewrite read_subprocess_output_spec.
    destruct outcome as [line|e]; [destruct (decide (line = ""))|].
    1,3: (exists [EvReadline (ws_process conn)]; split_and!;
          [done|apply elem_of_cons; by left|repeat constructor; by intros []]).
    exists [EvReadline (ws_process conn); EvWsSend line]. split_and!.
    + done.
    + apply elem_of_cons. by left.
    + repeat constructor; by intros [].
Qed.

End SerializedHandlers.

Lemma C1_witness :
  rtc (step obedient) (initial "/data") run4
  ∧ users_of 0 (pipe_log run4) = [0%nat]
  ∧ held run4 !! 0%nat = Some 0%nat
  ∧ uninterrupted (users_of 0 (pipe_log run4)).
Proof.
  split; [exact run4_reached|]. split; [reflexivity|].
  destruct (C1_exchanges_serialized obedient) as (_ & _ & Hreach & _).
  destruct (Hreach "/data" run4 run4_reached) as (Hheld & _ & Hlog).
  split.
  - exact (proj1 (Hheld 0%nat (alice (Holding 0 0 BeforeFlush)) 0%nat 0%nat
                    BeforeFlush eq_refl eq_refl)).
  - apply Hlog.
Defined.

Lemma duplex9_reached : rtc (duplex_step obedient ws_conn 1) duplex0 duplex9.
Proof.
  eapply rtc_l.
  { exact (duplex_output obedient ws_conn 1 duplex0 (Ok "0") 1 None). }
  eapply rtc_l.
  { apply duplex_http. exact (step_arrive obedient duplex1 Stream "ws-1" "{}"). }
  eapply rtc_l.
  { apply duplex_http.
    assert (Hres : resolve 5 None "ws-1" (world duplex2)
                   = (Ok (0, 0)%nat, world duplex3)) by (vm_compute; reflexivity).
    exact (step_resolve obedient duplex2 0%nat (intruder Arrived) 5 None
             (Ok (0, 0)%nat) (world duplex3) eq_refl eq_refl Hres). }
  eapply rtc_l.
  { apply duplex_http.
    exact (step_acquire obedient duplex3 0%nat (intruder (Resolved 0 0)) 0%nat 0%nat
             eq_refl eq_refl eq_refl). }
  eapply rtc_l.
  { apply duplex_http.
    exact (step_write obedient duplex4 0%nat (intruder (Holding 0 0 BeforeWrite))
             0%nat 0%nat None eq_refl eq_refl). }
  eapply rtc_l.
  { apply duplex_http.
    exact (step_flush obedient duplex5 0%nat (intruder (Holding 0 0 BeforeFlush))
             0%nat 0%nat None eq_refl eq_refl). }
  eapply rtc_l.
  { apply duplex_http.
    exact (step_read obedient duplex6 0%nat (intruder (Holding 0 0 Reading))
             0%nat 0%nat (Ok "1") 6 eq_refl eq_refl). }
  eapply rtc_l.
  { exact (duplex_output obedient ws_conn 1 duplex7 (Ok "2") 7 None). }
  eapply rtc_l.
  { apply duplex_http.
    exact (step_read obedient duplex8 0%nat (intruder (Holding 0 0 Reading))
             0%nat 0%nat (Ok "3") 8 eq_refl eq_refl). }
  apply rtc_refl.
Qed.

(** C1 as the specification states it fails.  A WebSocket connection is
    open on session [ws-1] and its reader task has read a first line; a
    streamed request with that session id finds the connection's worker,
    takes the session's lock, writes, flushes and reads a line, which its
    generator yields (line 300); the event loop then resumes the
    connection's reader task, which reads the next line of the same pipe
    while the request holds the lock; then the request reads again.  The
    reads of the two interleave. *)
Lemma C1_counterexample :
  rtc (duplex_step obedient ws_conn 1) duplex0 duplex9
  ∧ processes (world duplex9) !! "ws-1" = Some 0%nat
  ∧ process_locks (world duplex9) !! "ws-1" = Some 0%nat
  ∧ held duplex9 !! 0%nat = Some 0%nat
  ∧ users_of 0 (pipe_log duplex9) = [0; 1; 0; 0; 0; 1]%nat
  ∧ ¬ uninterrupted (users_of 0 (pipe_log duplex9)).
Proof.
  split; [exact duplex9_reached|].
  split; [vm_compute; reflexivity|]. split; [vm_compute; reflexivity|].
  split; [reflexivity|]. split; [reflexivity|].
  intros Hun. specialize (Hun 0%nat 1%nat 2%nat 0%nat).
  cbn in Hun. by specialize (Hun ltac:(lia) eq_refl eq_refl).
Qed.
